(** * Bluetooth LE advertisement search ([bleak.backends.dotnet.search])

    A shallow embedding of the advertisement decoder ([Advertisement],
    [AdvertisementReceivedEventArgs]), of the filtering callback
    [advertisement_watcher__received] and of the consumer loop of [find],
    together with the properties of the specification checked against them.

    Conventions of the embedding:
    - Python [str] is [string] for the text the platform hands over and the
      text the module formats itself; the [mac] argument of [find], which
      goes through [str.upper] and [re.sub], is a sequence of Unicode code
      points ([Str.t]).
    - [bytes] is [list byte]; Python [int] is [Z]; [Optional[T]] is
      [option T].
    - A Python exception is a value [Raise e] of the [result] monad.
    - A .NET object handed over by the platform is a record holding the
      properties the code reads, under the names the code reads them by.
    - [Dict[str, BLEDevice]] is a [gmap string BLEDevice]. *)

From Stdlib Require Import ZArith String Ascii List Bool Lia.
From Stdlib Require Import Strings.Byte.
From stdpp Require Import base option list gmap strings.

Import ListNotations.
Local Open Scope string_scope.
Local Open Scope list_scope.
Local Open Scope Z_scope.

(** ** Exceptions *)

Inductive exn : Type :=
| ValueError
| TypeError
| AttributeError.

Inductive result (A : Type) : Type :=
| Ok (a : A)
| Raise (e : exn).

Arguments Ok {A} a.
Arguments Raise {A} e.

Definition bind {A B : Type} (m : result A) (k : A -> result B) : result B :=
  match m with
  | Ok a => k a
  | Raise e => Raise e
  end.

Notation "'let*' x ':=' m 'in' k" := (bind m (fun x => k))
  (at level 10, x name, m at level 100, k at level 200).

(** A list comprehension [[f(x) for x in l]] whose body may raise: the first
    exception aborts the comprehension. *)
Fixpoint comprehension {A B : Type} (f : A -> result B) (l : list A)
  : result (list B) :=
  match l with
  | [] => Ok []
  | x :: xs =>
      let* y := f x in
      let* ys := comprehension f xs in
      Ok (y :: ys)
  end.

(** ** Python primitives *)

Module Py.

(** [int.from_bytes(data, 'big')], [signed] left at its default [False]. *)
Definition byte_value (b : byte) : Z := Z.of_N (Byte.to_N b).

Definition int_from_bytes_big (data : list byte) : Z :=
  fold_left (fun acc b => acc * 256 + byte_value b) data 0.

(** What [int.from_bytes(data, 'big', signed=True)] computes on one byte
    (two's complement); the source never calls it. *)
Definition int8_of_byte (b : byte) : Z :=
  if byte_value b <? 128 then byte_value b else byte_value b - 256.

(** [str.upper] on ASCII text, which is what [format] hands to it in
    [AdvertisementReceivedEventArgs.__init__]: the letters [a] to [z] are
    mapped, the other ASCII characters are left as they are.  [Str.upper]
    below is the method on any string; the two agree on ASCII text
    ([upper_of_ascii_text]), and so on the digits of every address
    ([address_digits_upper]). *)
Definition upper_ascii (c : ascii) : ascii :=
  let n := nat_of_ascii c in
  if ((97 <=? n) && (n <=? 122))%nat then ascii_of_nat (n - 32) else c.

Fixpoint upper (s : string) : string :=
  match s with
  | EmptyString => EmptyString
  | String c r => String (upper_ascii c) (upper r)
  end.

(** The slice [s[i:i+2]]: at most two characters, clamped at the end. *)
Definition slice2 (s : string) (i : nat) : string := substring i 2 s.

(** [range(start, start + n, 2)]. *)
Fixpoint range2 (start n : nat) : list nat :=
  match n with
  | O => []
  | S O => [start]
  | S (S m) => start :: range2 (start + 2) m
  end.

(** [sep.join(l)]. *)
Definition join (sep : string) (l : list string) : string :=
  String.concat sep l.

(** [":".join(s[i:i + 2] for i in range(0, len(s), 2))]. *)
Definition join_byte_pairs (s : string) : string :=
  join ":" (map (slice2 s) (range2 0 (String.length s))).

(** ["{:012x}".format(n)] for a non-negative [n]: lowercase hexadecimal,
    padded with zeros on the left to twelve characters. *)
Definition hex_digit (d : N) : ascii :=
  ascii_of_N (if (d <? 10)%N then 48 + d else 87 + d)%N.

Fixpoint hex_of_N (fuel : nat) (n : N) (acc : string) : string :=
  match fuel with
  | O => acc
  | S f =>
      let acc' := String (hex_digit (n mod 16)%N) acc in
      if (n / 16 =? 0)%N then acc' else hex_of_N f (n / 16)%N acc'
  end.

Fixpoint zeros (n : nat) : string :=
  match n with
  | O => EmptyString
  | S m => String "0"%char (zeros m)
  end.

Definition format_012x (n : Z) : string :=
  let digits := hex_of_N (S (N.to_nat (N.size (Z.to_N n)))) (Z.to_N n) "" in
  String.append (zeros (12 - String.length digits)) digits.

End Py.

(** ** Python [str]

    A [str] is a sequence of Unicode code points.  The MAC filter of
    [find] is a caller's string that goes through [str.upper] and
    [re.sub] with the class [\d], whose results depend on the Unicode
    character database; it is modelled with all its code points.  The
    tables are those of Unicode 14.0, which CPython 3.11 carries. *)

Module Str.

Definition t : Type := list N.

(** The code points of a text whose characters are below 256. *)
Fixpoint of_string (s : string) : t :=
  match s with
  | EmptyString => []
  | String c r => N_of_ascii c :: of_string r
  end.

(** [a == b]. *)
Fixpoint eqb (a b : t) : bool :=
  match a, b with
  | [], [] => true
  | x :: a', y :: b' => (x =? y)%N && eqb a' b'
  | _, _ => false
  end.

(** The characters with a decimal digit value (category Nd), which are
    the characters [\d] matches in a [str] pattern: the digits of each
    script, as ranges given by their first and last code point. *)
Definition decimal_ranges : list (N * N) :=
  [ (0x30, 0x39); (0x660, 0x669); (0x6f0, 0x6f9); (0x7c0, 0x7c9); (0x966, 0x96f);
    (0x9e6, 0x9ef); (0xa66, 0xa6f); (0xae6, 0xaef); (0xb66, 0xb6f); (0xbe6, 0xbef);
    (0xc66, 0xc6f); (0xce6, 0xcef); (0xd66, 0xd6f); (0xde6, 0xdef); (0xe50, 0xe59);
    (0xed0, 0xed9); (0xf20, 0xf29); (0x1040, 0x1049); (0x1090, 0x1099); (0x17e0, 0x17e9);
    (0x1810, 0x1819); (0x1946, 0x194f); (0x19d0, 0x19d9); (0x1a80, 0x1a89);
    (0x1a90, 0x1a99); (0x1b50, 0x1b59); (0x1bb0, 0x1bb9); (0x1c40, 0x1c49);
    (0x1c50, 0x1c59); (0xa620, 0xa629); (0xa8d0, 0xa8d9); (0xa900, 0xa909);
    (0xa9d0, 0xa9d9); (0xa9f0, 0xa9f9); (0xaa50, 0xaa59); (0xabf0, 0xabf9);
    (0xff10, 0xff19); (0x104a0, 0x104a9); (0x10d30, 0x10d39); (0x11066, 0x1106f);
    (0x110f0, 0x110f9); (0x11136, 0x1113f); (0x111d0, 0x111d9); (0x112f0, 0x112f9);
    (0x11450, 0x11459); (0x114d0, 0x114d9); (0x11650, 0x11659); (0x116c0, 0x116c9);
    (0x11730, 0x11739); (0x118e0, 0x118e9); (0x11950, 0x11959); (0x11c50, 0x11c59);
    (0x11d50, 0x11d59); (0x11da0, 0x11da9); (0x16a60, 0x16a69); (0x16ac0, 0x16ac9);
    (0x16b50, 0x16b59); (0x1d7ce, 0x1d7ff); (0x1e140, 0x1e149); (0x1e2f0, 0x1e2f9);
    (0x1e950, 0x1e959); (0x1fbf0, 0x1fbf9) ]%N.

Definition isdecimal (c : N) : bool :=
  existsb (fun r => (fst r <=? c)%N && (c <=? snd r)%N) decimal_ranges.

(** The characters [str.upper] maps to one character: [(lo, hi, step, up)]
    stands for [lo], [lo + step], ... up to [hi], mapped to [up],
    [up + step], ... in this order. *)
Definition upper_runs : list (N * N * N * N) :=
  [ (0x61, 0x7a, 1, 0x41); (0xb5, 0xb5, 1, 0x39c); (0xe0, 0xf6, 1, 0xc0);
    (0xf8, 0xfe, 1, 0xd8); (0xff, 0xff, 1, 0x178); (0x101, 0x12f, 2, 0x100);
    (0x131, 0x131, 1, 0x49); (0x133, 0x137, 2, 0x132); (0x13a, 0x148, 2, 0x139);
    (0x14b, 0x177, 2, 0x14a); (0x17a, 0x17e, 2, 0x179); (0x17f, 0x17f, 1, 0x53);
    (0x180, 0x180, 1, 0x243); (0x183, 0x185, 2, 0x182); (0x188, 0x188, 1, 0x187);
    (0x18c, 0x18c, 1, 0x18b); (0x192, 0x192, 1, 0x191); (0x195, 0x195, 1, 0x1f6);
    (0x199, 0x199, 1, 0x198); (0x19a, 0x19a, 1, 0x23d); (0x19e, 0x19e, 1, 0x220);
    (0x1a1, 0x1a5, 2, 0x1a0); (0x1a8, 0x1a8, 1, 0x1a7); (0x1ad, 0x1ad, 1, 0x1ac);
    (0x1b0, 0x1b0, 1, 0x1af); (0x1b4, 0x1b6, 2, 0x1b3); (0x1b9, 0x1b9, 1, 0x1b8);
    (0x1bd, 0x1bd, 1, 0x1bc); (0x1bf, 0x1bf, 1, 0x1f7); (0x1c5, 0x1c5, 1, 0x1c4);
    (0x1c6, 0x1c6, 1, 0x1c4); (0x1c8, 0x1c8, 1, 0x1c7); (0x1c9, 0x1c9, 1, 0x1c7);
    (0x1cb, 0x1cb, 1, 0x1ca); (0x1cc, 0x1cc, 1, 0x1ca); (0x1ce, 0x1dc, 2, 0x1cd);
    (0x1dd, 0x1dd, 1, 0x18e); (0x1df, 0x1ef, 2, 0x1de); (0x1f2, 0x1f2, 1, 0x1f1);
    (0x1f3, 0x1f3, 1, 0x1f1); (0x1f5, 0x1f5, 1, 0x1f4); (0x1f9, 0x21f, 2, 0x1f8);
    (0x223, 0x233, 2, 0x222); (0x23c, 0x23c, 1, 0x23b); (0x23f, 0x240, 1, 0x2c7e);
    (0x242, 0x242, 1, 0x241); (0x247, 0x24f, 2, 0x246); (0x250, 0x250, 1, 0x2c6f);
    (0x251, 0x251, 1, 0x2c6d); (0x252, 0x252, 1, 0x2c70); (0x253, 0x253, 1, 0x181);
    (0x254, 0x254, 1, 0x186); (0x256, 0x257, 1, 0x189); (0x259, 0x259, 1, 0x18f);
    (0x25b, 0x25b, 1, 0x190); (0x25c, 0x25c, 1, 0xa7ab); (0x260, 0x260, 1, 0x193);
    (0x261, 0x261, 1, 0xa7ac); (0x263, 0x263, 1, 0x194); (0x265, 0x265, 1, 0xa78d);
    (0x266, 0x266, 1, 0xa7aa); (0x268, 0x268, 1, 0x197); (0x269, 0x269, 1, 0x196);
    (0x26a, 0x26a, 1, 0xa7ae); (0x26b, 0x26b, 1, 0x2c62); (0x26c, 0x26c, 1, 0xa7ad);
    (0x26f, 0x26f, 1, 0x19c); (0x271, 0x271, 1, 0x2c6e); (0x272, 0x272, 1, 0x19d);
    (0x275, 0x275, 1, 0x19f); (0x27d, 0x27d, 1, 0x2c64); (0x280, 0x280, 1, 0x1a6);
    (0x282, 0x282, 1, 0xa7c5); (0x283, 0x283, 1, 0x1a9); (0x287, 0x287, 1, 0xa7b1);
    (0x288, 0x288, 1, 0x1ae); (0x289, 0x289, 1, 0x244); (0x28a, 0x28b, 1, 0x1b1);
    (0x28c, 0x28c, 1, 0x245); (0x292, 0x292, 1, 0x1b7); (0x29d, 0x29d, 1, 0xa7b2);
    (0x29e, 0x29e, 1, 0xa7b0); (0x345, 0x345, 1, 0x399); (0x371, 0x373, 2, 0x370);
    (0x377, 0x377, 1, 0x376); (0x37b, 0x37d, 1, 0x3fd); (0x3ac, 0x3ac, 1, 0x386);
    (0x3ad, 0x3af, 1, 0x388); (0x3b1, 0x3c1, 1, 0x391); (0x3c2, 0x3c2, 1, 0x3a3);
    (0x3c3, 0x3cb, 1, 0x3a3); (0x3cc, 0x3cc, 1, 0x38c); (0x3cd, 0x3ce, 1, 0x38e);
    (0x3d0, 0x3d0, 1, 0x392); (0x3d1, 0x3d1, 1, 0x398); (0x3d5, 0x3d5, 1, 0x3a6);
    (0x3d6, 0x3d6, 1, 0x3a0); (0x3d7, 0x3d7, 1, 0x3cf); (0x3d9, 0x3ef, 2, 0x3d8);
    (0x3f0, 0x3f0, 1, 0x39a); (0x3f1, 0x3f1, 1, 0x3a1); (0x3f2, 0x3f2, 1, 0x3f9);
    (0x3f3, 0x3f3, 1, 0x37f); (0x3f5, 0x3f5, 1, 0x395); (0x3f8, 0x3f8, 1, 0x3f7);
    (0x3fb, 0x3fb, 1, 0x3fa); (0x430, 0x44f, 1, 0x410); (0x450, 0x45f, 1, 0x400);
    (0x461, 0x481, 2, 0x460); (0x48b, 0x4bf, 2, 0x48a); (0x4c2, 0x4ce, 2, 0x4c1);
    (0x4cf, 0x4cf, 1, 0x4c0); (0x4d1, 0x52f, 2, 0x4d0); (0x561, 0x586, 1, 0x531);
    (0x10d0, 0x10fa, 1, 0x1c90); (0x10fd, 0x10ff, 1, 0x1cbd); (0x13f8, 0x13fd, 1, 0x13f0);
    (0x1c80, 0x1c80, 1, 0x412); (0x1c81, 0x1c81, 1, 0x414); (0x1c82, 0x1c82, 1, 0x41e);
    (0x1c83, 0x1c84, 1, 0x421); (0x1c85, 0x1c85, 1, 0x422); (0x1c86, 0x1c86, 1, 0x42a);
    (0x1c87, 0x1c87, 1, 0x462); (0x1c88, 0x1c88, 1, 0xa64a); (0x1d79, 0x1d79, 1, 0xa77d);
    (0x1d7d, 0x1d7d, 1, 0x2c63); (0x1d8e, 0x1d8e, 1, 0xa7c6); (0x1e01, 0x1e95, 2, 0x1e00);
    (0x1e9b, 0x1e9b, 1, 0x1e60); (0x1ea1, 0x1eff, 2, 0x1ea0); (0x1f00, 0x1f07, 1, 0x1f08);
    (0x1f10, 0x1f15, 1, 0x1f18); (0x1f20, 0x1f27, 1, 0x1f28); (0x1f30, 0x1f37, 1, 0x1f38);
    (0x1f40, 0x1f45, 1, 0x1f48); (0x1f51, 0x1f57, 2, 0x1f59); (0x1f60, 0x1f67, 1, 0x1f68);
    (0x1f70, 0x1f71, 1, 0x1fba); (0x1f72, 0x1f75, 1, 0x1fc8); (0x1f76, 0x1f77, 1, 0x1fda);
    (0x1f78, 0x1f79, 1, 0x1ff8); (0x1f7a, 0x1f7b, 1, 0x1fea); (0x1f7c, 0x1f7d, 1, 0x1ffa);
    (0x1fb0, 0x1fb1, 1, 0x1fb8); (0x1fbe, 0x1fbe, 1, 0x399); (0x1fd0, 0x1fd1, 1, 0x1fd8);
    (0x1fe0, 0x1fe1, 1, 0x1fe8); (0x1fe5, 0x1fe5, 1, 0x1fec); (0x214e, 0x214e, 1, 0x2132);
    (0x2170, 0x217f, 1, 0x2160); (0x2184, 0x2184, 1, 0x2183); (0x24d0, 0x24e9, 1, 0x24b6);
    (0x2c30, 0x2c5f, 1, 0x2c00); (0x2c61, 0x2c61, 1, 0x2c60); (0x2c65, 0x2c65, 1, 0x23a);
    (0x2c66, 0x2c66, 1, 0x23e); (0x2c68, 0x2c6c, 2, 0x2c67); (0x2c73, 0x2c73, 1, 0x2c72);
    (0x2c76, 0x2c76, 1, 0x2c75); (0x2c81, 0x2ce3, 2, 0x2c80); (0x2cec, 0x2cee, 2, 0x2ceb);
    (0x2cf3, 0x2cf3, 1, 0x2cf2); (0x2d00, 0x2d25, 1, 0x10a0); (0x2d27, 0x2d27, 1, 0x10c7);
    (0x2d2d, 0x2d2d, 1, 0x10cd); (0xa641, 0xa66d, 2, 0xa640); (0xa681, 0xa69b, 2, 0xa680);
    (0xa723, 0xa72f, 2, 0xa722); (0xa733, 0xa76f, 2, 0xa732); (0xa77a, 0xa77c, 2, 0xa779);
    (0xa77f, 0xa787, 2, 0xa77e); (0xa78c, 0xa78c, 1, 0xa78b); (0xa791, 0xa793, 2, 0xa790);
    (0xa794, 0xa794, 1, 0xa7c4); (0xa797, 0xa7a9, 2, 0xa796); (0xa7b5, 0xa7c3, 2, 0xa7b4);
    (0xa7c8, 0xa7ca, 2, 0xa7c7); (0xa7d1, 0xa7d1, 1, 0xa7d0); (0xa7d7, 0xa7d9, 2, 0xa7d6);
    (0xa7f6, 0xa7f6, 1, 0xa7f5); (0xab53, 0xab53, 1, 0xa7b3); (0xab70, 0xabbf, 1, 0x13a0);
    (0xff41, 0xff5a, 1, 0xff21); (0x10428, 0x1044f, 1, 0x10400);
    (0x104d8, 0x104fb, 1, 0x104b0); (0x10597, 0x105a1, 1, 0x10570);
    (0x105a3, 0x105b1, 1, 0x1057c); (0x105b3, 0x105b9, 1, 0x1058c);
    (0x105bb, 0x105bc, 1, 0x10594); (0x10cc0, 0x10cf2, 1, 0x10c80);
    (0x118c0, 0x118df, 1, 0x118a0); (0x16e60, 0x16e7f, 1, 0x16e40);
    (0x1e922, 0x1e943, 1, 0x1e900) ]%N.

(** The characters [str.upper] maps to more than one character. *)
Definition upper_special : list (N * list N) :=
  [ (0xdf, [0x53; 0x53]); (0x149, [0x2bc; 0x4e]); (0x1f0, [0x4a; 0x30c]);
    (0x390, [0x399; 0x308; 0x301]); (0x3b0, [0x3a5; 0x308; 0x301]);
    (0x587, [0x535; 0x552]); (0x1e96, [0x48; 0x331]); (0x1e97, [0x54; 0x308]);
    (0x1e98, [0x57; 0x30a]); (0x1e99, [0x59; 0x30a]); (0x1e9a, [0x41; 0x2be]);
    (0x1f50, [0x3a5; 0x313]); (0x1f52, [0x3a5; 0x313; 0x300]);
    (0x1f54, [0x3a5; 0x313; 0x301]); (0x1f56, [0x3a5; 0x313; 0x342]);
    (0x1f80, [0x1f08; 0x399]); (0x1f81, [0x1f09; 0x399]); (0x1f82, [0x1f0a; 0x399]);
    (0x1f83, [0x1f0b; 0x399]); (0x1f84, [0x1f0c; 0x399]); (0x1f85, [0x1f0d; 0x399]);
    (0x1f86, [0x1f0e; 0x399]); (0x1f87, [0x1f0f; 0x399]); (0x1f88, [0x1f08; 0x399]);
    (0x1f89, [0x1f09; 0x399]); (0x1f8a, [0x1f0a; 0x399]); (0x1f8b, [0x1f0b; 0x399]);
    (0x1f8c, [0x1f0c; 0x399]); (0x1f8d, [0x1f0d; 0x399]); (0x1f8e, [0x1f0e; 0x399]);
    (0x1f8f, [0x1f0f; 0x399]); (0x1f90, [0x1f28; 0x399]); (0x1f91, [0x1f29; 0x399]);
    (0x1f92, [0x1f2a; 0x399]); (0x1f93, [0x1f2b; 0x399]); (0x1f94, [0x1f2c; 0x399]);
    (0x1f95, [0x1f2d; 0x399]); (0x1f96, [0x1f2e; 0x399]); (0x1f97, [0x1f2f; 0x399]);
    (0x1f98, [0x1f28; 0x399]); (0x1f99, [0x1f29; 0x399]); (0x1f9a, [0x1f2a; 0x399]);
    (0x1f9b, [0x1f2b; 0x399]); (0x1f9c, [0x1f2c; 0x399]); (0x1f9d, [0x1f2d; 0x399]);
    (0x1f9e, [0x1f2e; 0x399]); (0x1f9f, [0x1f2f; 0x399]); (0x1fa0, [0x1f68; 0x399]);
    (0x1fa1, [0x1f69; 0x399]); (0x1fa2, [0x1f6a; 0x399]); (0x1fa3, [0x1f6b; 0x399]);
    (0x1fa4, [0x1f6c; 0x399]); (0x1fa5, [0x1f6d; 0x399]); (0x1fa6, [0x1f6e; 0x399]);
    (0x1fa7, [0x1f6f; 0x399]); (0x1fa8, [0x1f68; 0x399]); (0x1fa9, [0x1f69; 0x399]);
    (0x1faa, [0x1f6a; 0x399]); (0x1fab, [0x1f6b; 0x399]); (0x1fac, [0x1f6c; 0x399]);
    (0x1fad, [0x1f6d; 0x399]); (0x1fae, [0x1f6e; 0x399]); (0x1faf, [0x1f6f; 0x399]);
    (0x1fb2, [0x1fba; 0x399]); (0x1fb3, [0x391; 0x399]); (0x1fb4, [0x386; 0x399]);
    (0x1fb6, [0x391; 0x342]); (0x1fb7, [0x391; 0x342; 0x399]); (0x1fbc, [0x391; 0x399]);
    (0x1fc2, [0x1fca; 0x399]); (0x1fc3, [0x397; 0x399]); (0x1fc4, [0x389; 0x399]);
    (0x1fc6, [0x397; 0x342]); (0x1fc7, [0x397; 0x342; 0x399]); (0x1fcc, [0x397; 0x399]);
    (0x1fd2, [0x399; 0x308; 0x300]); (0x1fd3, [0x399; 0x308; 0x301]);
    (0x1fd6, [0x399; 0x342]); (0x1fd7, [0x399; 0x308; 0x342]);
    (0x1fe2, [0x3a5; 0x308; 0x300]); (0x1fe3, [0x3a5; 0x308; 0x301]);
    (0x1fe4, [0x3a1; 0x313]); (0x1fe6, [0x3a5; 0x342]); (0x1fe7, [0x3a5; 0x308; 0x342]);
    (0x1ff2, [0x1ffa; 0x399]); (0x1ff3, [0x3a9; 0x399]); (0x1ff4, [0x38f; 0x399]);
    (0x1ff6, [0x3a9; 0x342]); (0x1ff7, [0x3a9; 0x342; 0x399]); (0x1ffc, [0x3a9; 0x399]);
    (0xfb00, [0x46; 0x46]); (0xfb01, [0x46; 0x49]); (0xfb02, [0x46; 0x4c]);
    (0xfb03, [0x46; 0x46; 0x49]); (0xfb04, [0x46; 0x46; 0x4c]); (0xfb05, [0x53; 0x54]);
    (0xfb06, [0x53; 0x54]); (0xfb13, [0x544; 0x546]); (0xfb14, [0x544; 0x535]);
    (0xfb15, [0x544; 0x53b]); (0xfb16, [0x54e; 0x546]); (0xfb17, [0x544; 0x53d]) ]%N.

Definition expand_run (r : N * N * N * N) : list (N * list N) :=
  let '(lo, hi, step, up) := r in
  map (fun i => (lo + N.of_nat i * step, [up + N.of_nat i * step])%N)
      (seq 0 (S (N.to_nat ((hi - lo) / step)))).

(** Every character [str.upper] changes, with what it puts in its place. *)
Definition upper_table : list (N * list N) :=
  flat_map expand_run upper_runs ++ upper_special.

Definition upper_char (c : N) : list N :=
  match List.find (fun e => (fst e =? c)%N) upper_table with
  | Some e => snd e
  | None => [c]
  end.

(** [s.upper()]. *)
Definition upper (s : t) : t := flat_map upper_char s.

(** The character class [A-F\d]. *)
Definition in_class_AF_digit (c : N) : bool :=
  ((65 <=? c)%N && (c <=? 70)%N) || isdecimal c.

(** [re.sub(r"[^A-F\d]", "", s)]: every character outside the class is
    deleted. *)
Definition re_sub_non_hex (s : t) : t := List.filter in_class_AF_digit s.

(** The slice [s[i:i+2]]: at most two characters, clamped at the end. *)
Definition slice2 (s : t) (i : nat) : t := firstn 2 (skipn i s).

(** [sep.join(l)]. *)
Fixpoint join (sep : t) (l : list t) : t :=
  match l with
  | [] => []
  | x :: rest =>
      match rest with
      | [] => x
      | _ :: _ => x ++ sep ++ join sep rest
      end
  end.

(** [":".join(s[i:i + 2] for i in range(0, len(s), 2))]. *)
Definition join_byte_pairs (s : t) : t :=
  join [58%N] (map (slice2 s) (Py.range2 0 (length s))).

End Str.

(** ** Assigned numbers: [GAPDataType] *)

Inductive GAPDataType : Type :=
| Flags
| Incomplete_List_of_16bit_Service_Class_UUIDs
| Complete_List_of_16bit_Service_Class_UUIDs
| Incomplete_List_of_32bit_Service_Class_UUIDs
| Complete_List_of_32bit_Service_Class_UUIDs
| Incomplete_List_of_128bit_Service_Class_UUIDs
| Complete_List_of_128bit_Service_Class_UUIDs
| Shortened_Local_Name
| Complete_Local_Name
| Tx_Power_Level
| Class_of_Device
| Simple_Pairing_Hash_C192
| Simple_Pairing_Randomizer_R192
| Device_ID_or_Security_Manager_TK_Value
| Security_Manager_Out_of_Band_Flags
| Slave_Connection_Interval_Range
| List_of_16bit_Service_Solicitation_UUIDs
| List_of_128bit_Service_Solicitation_UUIDs
| Service_Data_16bit_UUID
| Public_Target_Address
| Random_Target_Address
| Appearance
| Advertising_Interval
| LE_Bluetooth_Device_Address
| LE_Role
| Simple_Pairing_Hash_C256
| Simple_Pairing_Randomizer_R256
| List_of_32bit_Service_Solicitation_UUIDs
| Service_Data_32bit_UUID
| Service_Data_128bit_UUID
| LE_Secure_Connections_Confirmation_Value
| LE_Secure_Connections_Random_Value
| URI
| Indoor_Positioning
| Transport_Discovery_Data
| LE_Supported_Features
| Channel_Map_Update_Indication
| PB_ADV
| Mesh_Message
| Mesh_Beacon
| Information_Data_3D
| Manufacturer_Specific_Data.

Definition GAPDataType_value (t : GAPDataType) : Z :=
  match t with
  | Flags => 0x01
  | Incomplete_List_of_16bit_Service_Class_UUIDs => 0x02
  | Complete_List_of_16bit_Service_Class_UUIDs => 0x03
  | Incomplete_List_of_32bit_Service_Class_UUIDs => 0x04
  | Complete_List_of_32bit_Service_Class_UUIDs => 0x05
  | Incomplete_List_of_128bit_Service_Class_UUIDs => 0x06
  | Complete_List_of_128bit_Service_Class_UUIDs => 0x07
  | Shortened_Local_Name => 0x08
  | Complete_Local_Name => 0x09
  | Tx_Power_Level => 0x0A
  | Class_of_Device => 0x0D
  | Simple_Pairing_Hash_C192 => 0x0E
  | Simple_Pairing_Randomizer_R192 => 0x0F
  | Device_ID_or_Security_Manager_TK_Value => 0x10
  | Security_Manager_Out_of_Band_Flags => 0x11
  | Slave_Connection_Interval_Range => 0x12
  | List_of_16bit_Service_Solicitation_UUIDs => 0x14
  | List_of_128bit_Service_Solicitation_UUIDs => 0x15
  | Service_Data_16bit_UUID => 0x16
  | Public_Target_Address => 0x17
  | Random_Target_Address => 0x18
  | Appearance => 0x19
  | Advertising_Interval => 0x1A
  | LE_Bluetooth_Device_Address => 0x1B
  | LE_Role => 0x1C
  | Simple_Pairing_Hash_C256 => 0x1D
  | Simple_Pairing_Randomizer_R256 => 0x1E
  | List_of_32bit_Service_Solicitation_UUIDs => 0x1F
  | Service_Data_32bit_UUID => 0x20
  | Service_Data_128bit_UUID => 0x21
  | LE_Secure_Connections_Confirmation_Value => 0x22
  | LE_Secure_Connections_Random_Value => 0x23
  | URI => 0x24
  | Indoor_Positioning => 0x25
  | Transport_Discovery_Data => 0x26
  | LE_Supported_Features => 0x27
  | Channel_Map_Update_Indication => 0x28
  | PB_ADV => 0x29
  | Mesh_Message => 0x2A
  | Mesh_Beacon => 0x2B
  | Information_Data_3D => 0x3D
  | Manufacturer_Specific_Data => 0xFF
  end.

(** The members in definition order, as [enum] keeps them. *)
Definition GAPDataType_members : list GAPDataType :=
  [ Flags;
    Incomplete_List_of_16bit_Service_Class_UUIDs;
    Complete_List_of_16bit_Service_Class_UUIDs;
    Incomplete_List_of_32bit_Service_Class_UUIDs;
    Complete_List_of_32bit_Service_Class_UUIDs;
    Incomplete_List_of_128bit_Service_Class_UUIDs;
    Complete_List_of_128bit_Service_Class_UUIDs;
    Shortened_Local_Name; Complete_Local_Name; Tx_Power_Level;
    Class_of_Device; Simple_Pairing_Hash_C192; Simple_Pairing_Randomizer_R192;
    Device_ID_or_Security_Manager_TK_Value; Security_Manager_Out_of_Band_Flags;
    Slave_Connection_Interval_Range; List_of_16bit_Service_Solicitation_UUIDs;
    List_of_128bit_Service_Solicitation_UUIDs; Service_Data_16bit_UUID;
    Public_Target_Address; Random_Target_Address; Appearance;
    Advertising_Interval; LE_Bluetooth_Device_Address; LE_Role;
    Simple_Pairing_Hash_C256; Simple_Pairing_Randomizer_R256;
    List_of_32bit_Service_Solicitation_UUIDs; Service_Data_32bit_UUID;
    Service_Data_128bit_UUID; LE_Secure_Connections_Confirmation_Value;
    LE_Secure_Connections_Random_Value; URI; Indoor_Positioning;
    Transport_Discovery_Data; LE_Supported_Features;
    Channel_Map_Update_Indication; PB_ADV; Mesh_Message; Mesh_Beacon;
    Information_Data_3D; Manufacturer_Specific_Data ].

(** The call [GAPDataType(code)]: lookup of the member by value; an
    [IntEnum] raises [ValueError] when no member has the value. *)
Definition GAPDataType_call (code : Z) : result GAPDataType :=
  match List.find (fun t => GAPDataType_value t =? code) GAPDataType_members with
  | Some t => Ok t
  | None => Raise ValueError
  end.

Definition GAPDataType_eqb (a b : GAPDataType) : bool :=
  GAPDataType_value a =? GAPDataType_value b.

(** ** [AdvertisementType] *)

Inductive AdvertisementType : Type :=
| CONNECTABLE_DIRECTED
| CONNECTABLE_UNDIRECTED
| NON_CONNECTABLE_UNDIRECTED
| SCANNABLE_UNDIRECTED
| SCAN_RESPONSE.

Definition AdvertisementType_call (code : Z) : result AdvertisementType :=
  match code with
  | 1 => Ok CONNECTABLE_DIRECTED
  | 0 => Ok CONNECTABLE_UNDIRECTED
  | 3 => Ok NON_CONNECTABLE_UNDIRECTED
  | 2 => Ok SCANNABLE_UNDIRECTED
  | 4 => Ok SCAN_RESPONSE
  | _ => Raise ValueError
  end.

(** ** Objects delivered by the platform (Windows.Devices.Bluetooth) *)

Module BluetoothLEAdvertisementDataSection.
Record t : Type := { DataType : Z; Data : list byte }.
End BluetoothLEAdvertisementDataSection.

Module BluetoothLEManufacturerData.
Record t : Type := { CompanyId : Z; Data : list byte }.
End BluetoothLEManufacturerData.

Module BluetoothLEAdvertisement.
(** [Flags] is a nullable enum: [None] when the advertisement carries no
    flags section.  [ServiceUuids] holds what [ToString()] gives for each
    GUID. *)
Record t : Type := {
  DataSections : list BluetoothLEAdvertisementDataSection.t;
  Flags : option Z;
  LocalName : string;
  ManufacturerData : list BluetoothLEManufacturerData.t;
  ServiceUuids : list string
}.
End BluetoothLEAdvertisement.

Module DateTimeOffset.
Record t : Type := {
  Year : Z; Month : Z; Day : Z; Hour : Z; Minute : Z; Second : Z;
  Millisecond : Z; OffsetHours : Z
}.
End DateTimeOffset.

Module BluetoothLEAdvertisementReceivedEventArgs.
Record t : Type := {
  Advertisement : BluetoothLEAdvertisement.t;
  AdvertisementType : Z;
  BluetoothAddress : Z;
  RawSignalStrengthInDBm : Z;
  Timestamp : DateTimeOffset.t
}.
End BluetoothLEAdvertisementReceivedEventArgs.

(** ** The decoded advertisement *)

Module DataSection.
Import BluetoothLEAdvertisementDataSection.

Record t : Type := { data : list byte; data_type : GAPDataType }.

(** [Advertisement.DataSection.__init__]: the type code goes through the
    enum call first, then the buffer is copied. *)
Definition init (ds : BluetoothLEAdvertisementDataSection.t) : result t :=
  let* ty := GAPDataType_call (DataType ds) in
  Ok {| data := Data ds; data_type := ty |}.
End DataSection.

Module ManufacturerData.
Import BluetoothLEManufacturerData.

Record t : Type := { company_id : Z; data : list byte }.

Definition init (md : BluetoothLEManufacturerData.t) : t :=
  {| company_id := CompanyId md; data := Data md |}.
End ManufacturerData.

Module Advertisement.

(** [flags] holds the value of the [IntFlag] member. *)
Record t : Type := {
  data_sections : list DataSection.t;
  flags : option Z;
  local_name : string;
  manufacturer_data : list ManufacturerData.t;
  services : list string;
  appearance : option Z;
  tx_power_level : option Z
}.

(** Truth value of [args.Flags]: [None] and [0] are false. *)
Definition Flags_truthy (f : option Z) : bool :=
  match f with
  | Some v => negb (v =? 0)
  | None => false
  end.

(** One turn of the loop "Parse known data sections" over the pair
    [(self.appearance, self.tx_power_level)]. *)
Definition parse_known (fields : option Z * option Z) (ds : DataSection.t)
  : option Z * option Z :=
  match DataSection.data_type ds with
  | Appearance => (Some (Py.int_from_bytes_big (DataSection.data ds)), snd fields)
  | Tx_Power_Level => (fst fields, Some (Py.int_from_bytes_big (DataSection.data ds)))
  | _ => fields
  end.

(** [Advertisement.__init__]. *)
Definition init (args : BluetoothLEAdvertisement.t) : result t :=
  let* sections :=
    comprehension DataSection.init (BluetoothLEAdvertisement.DataSections args) in
  let parsed := fold_left parse_known sections (None, None) in
  Ok {| data_sections := sections;
        flags := if Flags_truthy (BluetoothLEAdvertisement.Flags args)
                 then BluetoothLEAdvertisement.Flags args else None;
        local_name := BluetoothLEAdvertisement.LocalName args;
        manufacturer_data :=
          map ManufacturerData.init (BluetoothLEAdvertisement.ManufacturerData args);
        services := BluetoothLEAdvertisement.ServiceUuids args;
        appearance := fst parsed;
        tx_power_level := snd parsed |}.
End Advertisement.

Module datetime.
Record t : Type := {
  year : Z; month : Z; day : Z; hour : Z; minute : Z; second : Z;
  microsecond : Z; tzinfo_hours : Z
}.
End datetime.

Module AdvertisementReceivedEventArgs.

Record t : Type := {
  advertisement : Advertisement.t;
  advertisement_type : AdvertisementType;
  bluetooth_address : string;
  raw_signal_strength_in_dBm : Z;
  timestamp : datetime.t
}.

(** [AdvertisementReceivedEventArgs.__init__]. *)
Definition init (args : BluetoothLEAdvertisementReceivedEventArgs.t) : result t :=
  let* adv := Advertisement.init (BluetoothLEAdvertisementReceivedEventArgs.Advertisement args) in
  let* ty := AdvertisementType_call (BluetoothLEAdvertisementReceivedEventArgs.AdvertisementType args) in
  let mac_str := Py.upper (Py.format_012x (BluetoothLEAdvertisementReceivedEventArgs.BluetoothAddress args)) in
  let ts := BluetoothLEAdvertisementReceivedEventArgs.Timestamp args in
  Ok {| advertisement := adv;
        advertisement_type := ty;
        bluetooth_address := Py.join_byte_pairs mac_str;
        raw_signal_strength_in_dBm := BluetoothLEAdvertisementReceivedEventArgs.RawSignalStrengthInDBm args;
        timestamp :=
          {| datetime.year := DateTimeOffset.Year ts;
             datetime.month := DateTimeOffset.Month ts;
             datetime.day := DateTimeOffset.Day ts;
             datetime.hour := DateTimeOffset.Hour ts;
             datetime.minute := DateTimeOffset.Minute ts;
             datetime.second := DateTimeOffset.Second ts;
             datetime.microsecond := 1000 * DateTimeOffset.Millisecond ts;
             datetime.tzinfo_hours := DateTimeOffset.OffsetHours ts |} |}.
End AdvertisementReceivedEventArgs.

(** ** [BLEDevice] ([bleak.backends.device]) *)

Module BLEDevice.
Record t : Type := {
  address : string;
  name : string;
  details : AdvertisementReceivedEventArgs.t
}.
End BLEDevice.

(** ** Compiled regular expressions ([re.Pattern])

    The fragment of Python's pattern language that the filters of this
    module are written in, with [Pattern.match] decided by derivatives:
    [match] succeeds when some prefix of the string is in the language. *)

Module re.

Inductive Pattern : Type :=
| Fail                           (* matches nothing *)
| Eps                            (* the empty pattern *)
| Lit (c : ascii)                (* a literal character *)
| Dot                            (* [.]: any character but a newline *)
| Digit                          (* [\d] *)
| Range (lo hi : ascii)          (* [[lo-hi]] *)
| Seq (p q : Pattern)
| Alt (p q : Pattern)            (* [p|q] *)
| Star (p : Pattern).            (* [p*] *)

Fixpoint nullable (p : Pattern) : bool :=
  match p with
  | Eps | Star _ => true
  | Seq a b => nullable a && nullable b
  | Alt a b => nullable a || nullable b
  | Fail | Lit _ | Dot | Digit | Range _ _ => false
  end.

Definition between (lo hi c : ascii) : bool :=
  ((nat_of_ascii lo <=? nat_of_ascii c) && (nat_of_ascii c <=? nat_of_ascii hi))%nat.

Fixpoint deriv (c : ascii) (p : Pattern) : Pattern :=
  match p with
  | Fail | Eps => Fail
  | Lit d => if Ascii.eqb c d then Eps else Fail
  | Dot => if Ascii.eqb c "010"%char then Fail else Eps
  | Digit => if between "0" "9" c then Eps else Fail
  | Range lo hi => if between lo hi c then Eps else Fail
  | Seq a b =>
      if nullable a then Alt (Seq (deriv c a) b) (deriv c b)
      else Seq (deriv c a) b
  | Alt a b => Alt (deriv c a) (deriv c b)
  | Star a => Seq (deriv c a) (Star a)
  end.

(** [p.match(s) is not None]. *)
Fixpoint match_ (p : Pattern) (s : string) : bool :=
  nullable p ||
  match s with
  | EmptyString => false
  | String c r => match_ (deriv c p) r
  end.

(** The sequence of the literal characters of [s]. *)
Fixpoint literal (s : string) : Pattern :=
  match s with
  | EmptyString => Eps
  | String c r => Seq (Lit c) (literal r)
  end.

End re.

(** ** Filter arguments of [find]

    An argument [mac], [name] or an element of [services] is [None], a
    [str], a compiled pattern, or an object of another type, of which only
    the truth value matters.  [filter] is the type of [name] and of the
    elements of [services], [mac_arg] the type of [mac]. *)

Inductive filter : Type :=
| FNone
| FStr (s : string)
| FPat (p : re.Pattern)
| FObj (truth : bool).

Definition truthy (f : filter) : bool :=
  match f with
  | FNone => false
  | FStr s => negb (String.eqb s "")
  | FPat _ => true
  | FObj b => b
  end.

Definition is_str (f : filter) : bool :=
  match f with FStr _ => true | _ => false end.

Definition is_Pattern (f : filter) : bool :=
  match f with FPat _ => true | _ => false end.

(** [f.match(s)] for an [f] known to be a pattern. *)
Definition pattern_match (f : filter) (s : string) : bool :=
  match f with FPat p => re.match_ p s | _ => false end.

(** [f != s] for an [f] known to be a string. *)
Definition str_ne (f : filter) (s : string) : bool :=
  match f with FStr t => negb (String.eqb t s) | _ => true end.

(** [f not in l] for an [f] known to be a string. *)
Definition str_not_in (f : filter) (l : list string) : bool :=
  match f with FStr t => negb (existsb (String.eqb t) l) | _ => true end.

Inductive mac_arg : Type :=
| MNone
| MStr (s : Str.t)
| MPat (p : re.Pattern)
| MObj (truth : bool).

Definition mac_truthy (m : mac_arg) : bool :=
  match m with
  | MNone => false
  | MStr s => negb (length s =? 0)%nat
  | MPat _ => true
  | MObj b => b
  end.

Definition mac_is_str (m : mac_arg) : bool :=
  match m with MStr _ => true | _ => false end.

Definition mac_is_Pattern (m : mac_arg) : bool :=
  match m with MPat _ => true | _ => false end.

(** [m.match(s)] for an [m] known to be a pattern. *)
Definition mac_pattern_match (m : mac_arg) (s : string) : bool :=
  match m with MPat p => re.match_ p s | _ => false end.

(** [m != s] for an [m] known to be a string. *)
Definition mac_str_ne (m : mac_arg) (s : string) : bool :=
  match m with MStr t => negb (Str.eqb t (Str.of_string s)) | _ => true end.

(** ** The section "Check filters" of [find] *)

Section CheckFilters.

(** [bleak.uuids.ble_uuid_to_128bit] is not among the sources of this
    module; the checks are stated for any such function. *)
Variable ble_uuid_to_128bit : filter -> result string.

Definition normalize_mac (s : Str.t) : Str.t :=
  Str.join_byte_pairs (Str.re_sub_non_hex (Str.upper s)).

Definition check_mac (mac : mac_arg) : result mac_arg :=
  if mac_truthy mac then
    match mac with
    | MStr s => Ok (MStr (normalize_mac s))
    | MPat _ => Ok mac
    | _ => Raise TypeError
    end
  else Ok mac.

Definition check_name (name : filter) : result filter :=
  if truthy name && negb (is_str name || is_Pattern name)
  then Raise TypeError else Ok name.

(** One turn of [for i, service in enumerate(services)]: the value stored
    back at [services[i]]. *)
Definition check_service (service : filter) : result filter :=
  match ble_uuid_to_128bit service with
  | Ok uuid => Ok (FStr uuid)
  | Raise TypeError =>
      if is_Pattern service then Ok service else Raise TypeError
  | Raise e => Raise e
  end.

Definition services_truthy (services : option (list filter)) : bool :=
  match services with
  | Some (_ :: _) => true
  | _ => false
  end.

Definition check_services (services : option (list filter))
  : result (option (list filter)) :=
  match services with
  | Some (x :: xs) =>
      let* l := comprehension check_service (x :: xs) in Ok (Some l)
  | _ => Ok services
  end.

Definition check_filters (mac : mac_arg) (name : filter)
    (services : option (list filter))
  : result (mac_arg * filter * option (list filter)) :=
  let* mac' := check_mac mac in
  let* name' := check_name name in
  let* services' := check_services services in
  Ok (mac', name', services').

End CheckFilters.

(** ** The callback [advertisement_watcher__received] *)

(** How the filtering part of the callback leaves: it falls through to the
    bookkeeping ([Accept]), returns early ([Ignore]) or raises. *)
Inductive verdict : Type :=
| Accept
| Ignore
| Crash (e : exn).

Definition and_then (v : verdict) (k : verdict) : verdict :=
  match v with
  | Accept => k
  | _ => v
  end.

(** The state shared between the callback and the generator. *)
Record store : Type := {
  devices : gmap string BLEDevice.t;
  new_devices : list BLEDevice.t
}.

Section Callback.

(** The variables of [find] the closure reads, after "Check filters". *)
Variable mac : mac_arg.
Variable name : filter.
Variable services : option (list filter).

Definition mac_filter (args : AdvertisementReceivedEventArgs.t) : verdict :=
  let addr := AdvertisementReceivedEventArgs.bluetooth_address args in
  if mac_truthy mac then
    if mac_is_str mac && mac_str_ne mac addr then Ignore
    else if mac_is_Pattern mac && negb (mac_pattern_match mac addr) then Ignore
    else Accept
  else Accept.

Definition name_filter (args : AdvertisementReceivedEventArgs.t) : verdict :=
  let local_name :=
    Advertisement.local_name (AdvertisementReceivedEventArgs.advertisement args) in
  if truthy name then
    if is_str name && str_ne name local_name then Ignore
    else if is_Pattern name && negb (pattern_match name local_name) then Ignore
    else Accept
  else Accept.

(** [for service in services]; the second test reads [name], and its log
    message reads [service.pattern], which a [str] does not have. *)
Fixpoint services_loop (l : list filter) (advertised : list string) : verdict :=
  match l with
  | [] => Accept
  | service :: rest =>
      if is_str service && str_not_in service advertised then Ignore
      else if is_Pattern name && negb (existsb (pattern_match name) advertised)
      then (if is_Pattern service then Ignore else Crash AttributeError)
      else services_loop rest advertised
  end.

Definition services_filter (args : AdvertisementReceivedEventArgs.t) : verdict :=
  let advertised :=
    Advertisement.services (AdvertisementReceivedEventArgs.advertisement args) in
  match services with
  | Some (x :: xs) =>
      match advertised with
      | [] => Ignore
      | _ => services_loop (x :: xs) advertised
      end
  | _ => Accept
  end.

Definition filters (args : AdvertisementReceivedEventArgs.t) : verdict :=
  and_then (mac_filter args) (and_then (name_filter args) (services_filter args)).

(** The bookkeeping at the end of the callback. *)
Definition record_device (device : BLEDevice.t) (st : store) : store :=
  match devices st !! BLEDevice.address device with
  | None =>
      {| devices := <[BLEDevice.address device := device]> (devices st);
         new_devices := new_devices st ++ [device] |}
  | Some _ => st
  end.

Definition advertisement_watcher__received
    (raw : BluetoothLEAdvertisementReceivedEventArgs.t) (st : store)
  : result store :=
  let* args := AdvertisementReceivedEventArgs.init raw in
  let device :=
    {| BLEDevice.address := AdvertisementReceivedEventArgs.bluetooth_address args;
       BLEDevice.name :=
         Advertisement.local_name (AdvertisementReceivedEventArgs.advertisement args);
       BLEDevice.details := args |} in
  match filters args with
  | Accept => Ok (record_device device st)
  | Ignore => Ok st
  | Crash e => Raise e
  end.

End Callback.

(** ** The watcher and the generator [find] *)

Inductive AdvertisementWatcherStatus : Type :=
| Aborted
| Created
| Started
| Stopped
| Stopping.

(** What the platform does while the generator sleeps: it raises [Received]
    on a worker thread, it completes a pending transition of the watcher
    ([Created] to [Started] after [Start()], [Stopping] to [Stopped] after
    [Stop()]), or it aborts the scan on an error.  A callback runs to its
    end before the next event is looked at. *)
Inductive platform_event : Type :=
| Received (args : BluetoothLEAdvertisementReceivedEventArgs.t)
| Transition
| ScanError.

(** One [await asyncio.sleep(0.01)]: the events the platform raises before
    and after the moment at which the event loop runs a timer that is due
    in this sleep. *)
Record sleep_slot : Type := {
  before : list platform_event;
  after : list platform_event
}.

(** [timer] is the time in milliseconds left until the call scheduled by
    [loop.call_later(timeout, stop_scan)]; [None] when no call is pending. *)
Record session : Type := {
  status : AdvertisementWatcherStatus;
  shared : store;
  timer : option Z
}.

Definition set_status (s : AdvertisementWatcherStatus) (st : session) : session :=
  {| status := s; shared := shared st; timer := timer st |}.

Definition set_shared (sh : store) (st : session) : session :=
  {| status := status st; shared := sh; timer := timer st |}.

Definition set_timer (t : option Z) (st : session) : session :=
  {| status := status st; shared := shared st; timer := t |}.

(** The watcher is the platform's object ([BluetoothLEAdvertisementWatcher]);
    its states change as the specification lays them out: [Created] to
    [Started], [Started] to [Stopping] on [Stop()], [Stopping] to
    [Stopped], and to [Aborted] on an error during a transition or while
    scanning.  [Stopped] and [Aborted] are final. *)
Definition platform_transition (s : AdvertisementWatcherStatus)
  : AdvertisementWatcherStatus :=
  match s with
  | Created => Started
  | Stopping => Stopped
  | _ => s
  end.

Definition platform_abort (s : AdvertisementWatcherStatus)
  : AdvertisementWatcherStatus :=
  match s with
  | Created | Started | Stopping => Aborted
  | _ => s
  end.

(** [watcher.Stop()], all that [stop_scan] does. *)
Definition stop_scan (st : session) : session :=
  match status st with
  | Started => set_status Stopping st
  | _ => st
  end.

(** The period of the polling loop, [asyncio.sleep(0.01)], in milliseconds. *)
Definition poll_ms : Z := 10.

Section Generator.

Variable callback :
  BluetoothLEAdvertisementReceivedEventArgs.t -> store -> result store.

(** An exception of the callback is raised on the platform's thread; the
    shared state is as the callback left it, that is untouched. *)
Definition deliver (st : session) (ev : platform_event) : session :=
  match ev with
  | Received args =>
      match callback args (shared st) with
      | Ok sh => set_shared sh st
      | Raise _ => st
      end
  | Transition => set_status (platform_transition (status st)) st
  | ScanError => set_status (platform_abort (status st)) st
  end.

(** The event loop during one sleep: a pending call that falls due is run,
    otherwise its remaining time shrinks by the length of the sleep.  The
    time the generator spends between two sleeps is not counted; a call
    scheduled with a delay of zero or less is due in the first sleep. *)
Definition run_timer (st : session) : session :=
  match timer st with
  | Some remaining =>
      if remaining <=? poll_ms then stop_scan (set_timer None st)
      else set_timer (Some (remaining - poll_ms)) st
  | None => st
  end.

Definition sleep (st : session) (sl : sleep_slot) : session :=
  fold_left deliver (after sl) (run_timer (fold_left deliver (before sl) st)).

(** [while watcher.Status == Created: await asyncio.sleep(0.01)].  The
    schedule that is left is [None] when the platform's schedule ends
    with the loop still turning. *)
Fixpoint wait_started (sched : list sleep_slot) (st : session)
  : session * option (list sleep_slot) :=
  match status st with
  | Created =>
      match sched with
      | [] => (st, None)
      | sl :: rest => wait_started rest (sleep st sl)
      end
  | _ => (st, Some sched)
  end.

(** How the asynchronous iteration ends. *)
Inductive ending : Type :=
| StopAsyncIteration            (* the generator returned *)
| Raised (e : exn)              (* the generator raised *)
| Suspended.                    (* asleep when the schedule ends *)

Record run : Type := {
  yielded : list BLEDevice.t;
  outcome : ending;
  final : session
}.

(** [if new_devices: yield new_devices.pop()]. *)
Definition poll (st : session) (out : list BLEDevice.t)
  : session * list BLEDevice.t :=
  match last (new_devices (shared st)) with
  | Some device =>
      (set_shared {| devices := devices (shared st);
                     new_devices := removelast (new_devices (shared st)) |} st,
       out ++ [device])
  | None => (st, out)
  end.

Definition scanning (s : AdvertisementWatcherStatus) : bool :=
  match s with
  | Started | Stopping => true
  | _ => false
  end.

(** [while watcher.Status in (Started, Stopping): ...]. *)
Fixpoint receive_loop (sched : list sleep_slot) (st : session)
    (out : list BLEDevice.t) : run :=
  if scanning (status st) then
    let '(st', out') := poll st out in
    match sched with
    | [] => {| yielded := out'; outcome := Suspended; final := st' |}
    | sl :: rest => receive_loop rest (sleep st' sl) out'
    end
  else {| yielded := out; outcome := StopAsyncIteration; final := st |}.

End Generator.

Definition initial_session : session :=
  {| status := Created;
     shared := {| devices := ∅; new_devices := [] |};
     timer := None |}.

(** [find(mac, name, services, timeout)] consumed to its end by
    [async for].  The platform is given by the events it raises while
    [watcher.Start()] runs ([starting]: a watcher that is [Started] when
    [Start()] returns has [Transition] there) and by what it does during
    each sleep of the generator ([sched]); [timeout] is in milliseconds. *)
Definition find (ble_uuid_to_128bit : filter -> result string)
    (mac : mac_arg) (name : filter) (services : option (list filter)) (timeout : Z)
    (starting : list platform_event) (sched : list sleep_slot) : run :=
  match check_filters ble_uuid_to_128bit mac name services with
  | Raise e => {| yielded := []; outcome := Raised e; final := initial_session |}
  | Ok (mac', name', services') =>
      let callback := advertisement_watcher__received mac' name' services' in
      let started := fold_left (deliver callback) starting initial_session in
      match wait_started callback sched started with
      | (st, None) => {| yielded := []; outcome := Suspended; final := st |}
      | (st, Some rest) =>
          receive_loop callback rest (set_timer (Some timeout) st) []
      end
  end.

(** ** Notions the properties are stated with *)

(** The address the callback computes for a raw event. *)
Definition address_of (raw : BluetoothLEAdvertisementReceivedEventArgs.t) : string :=
  Py.join_byte_pairs
    (Py.upper (Py.format_012x (BluetoothLEAdvertisementReceivedEventArgs.BluetoothAddress raw))).

Definition has_type (ty : GAPDataType) (ds : DataSection.t) : bool :=
  GAPDataType_eqb (DataSection.data_type ds) ty.

Definition decoded_int (ds : DataSection.t) : Z :=
  Py.int_from_bytes_big (DataSection.data ds).

(** The services filter as the specification words it: every entry of the
    filter, a string or a pattern, is matched by some advertised UUID. *)
Definition entry_matched (advertised : list string) (entry : filter) : bool :=
  match entry with
  | FStr s => existsb (String.eqb s) advertised
  | FPat p => existsb (re.match_ p) advertised
  | _ => false
  end.

Definition services_satisfied (entries : list filter) (advertised : list string)
  : bool :=
  forallb (entry_matched advertised) entries.

(** The normalisation of a MAC filter as the specification words it:
    uppercase, drop what is not a hexadecimal digit, put a colon between
    the pairs of digits. *)
Definition is_hex_digit (c : N) : bool :=
  (((48 <=? c) && (c <=? 57)) || ((65 <=? c) && (c <=? 70))
   || ((97 <=? c) && (c <=? 102)))%N.

Definition hex_digits_only (s : Str.t) : Str.t := List.filter is_hex_digit s.

Fixpoint colon_pairs (s : Str.t) : Str.t :=
  match s with
  | a :: b :: (_ :: _) as rest => a :: b :: 58%N :: colon_pairs rest
  | _ => s
  end.

Definition canonical_mac (s : Str.t) : Str.t :=
  colon_pairs (hex_digits_only (Str.upper s)).

(** A string in which the only decimal digits are [0] to [9]. *)
Definition ascii_digit (c : N) : bool := ((48 <=? c) && (c <=? 57))%N.

Definition digits_are_ascii (s : Str.t) : bool :=
  forallb (fun c => implb (Str.isdecimal c) (ascii_digit c)) s.

(** The same rejoining on the text of an address. *)
Fixpoint rejoin_pairs (s : string) : string :=
  match s with
  | String a (String b (String _ _ as rest)) =>
      String a (String b (String ":" (rejoin_pairs rest)))
  | _ => s
  end.

(** The devices in the order in which the callback first accepts them,
    with no consumer taking any away. *)
Definition slot_events (sl : sleep_slot) : list platform_event :=
  before sl ++ after sl.

Definition all_events (sched : list sleep_slot) : list platform_event :=
  concat (map slot_events sched).

Definition arrival_order
    (callback : BluetoothLEAdvertisementReceivedEventArgs.t -> store -> result store)
    (events : list platform_event) : list BLEDevice.t :=
  new_devices (shared (fold_left (deliver callback) events initial_session)).

Definition is_Received (ev : platform_event) : bool :=
  match ev with Received _ => true | _ => false end.

(** The state in which the generator makes its first poll and the sleeps
    that follow it. *)
Definition at_first_poll
    (callback : BluetoothLEAdvertisementReceivedEventArgs.t -> store -> result store)
    (starting : list platform_event) (sched : list sleep_slot) : session :=
  fst (wait_started callback sched
         (fold_left (deliver callback) starting initial_session)).

Definition polled_slots
    (callback : BluetoothLEAdvertisementReceivedEventArgs.t -> store -> result store)
    (starting : list platform_event) (sched : list sleep_slot) : list sleep_slot :=
  match snd (wait_started callback sched
               (fold_left (deliver callback) starting initial_session)) with
  | Some rest => rest
  | None => []
  end.

(** No poll of the loop finds more than one device pending: between two
    polls at most one device was put on [new_devices]. *)
Fixpoint polls_find_at_most_one
    (callback : BluetoothLEAdvertisementReceivedEventArgs.t -> store -> result store)
    (sched : list sleep_slot) (st : session) : bool :=
  if scanning (status st) then
    (length (new_devices (shared st)) <=? 1)%nat &&
    match sched with
    | [] => true
    | sl :: rest =>
        polls_find_at_most_one callback rest (sleep callback (fst (poll st [])) sl)
    end
  else true.

(** The byte pairs of a string, by recursion on the string. *)
Fixpoint pairs (s : string) : list string :=
  match s with
  | EmptyString => []
  | String a EmptyString => [String a EmptyString]
  | String a (String b r) => String a (String b EmptyString) :: pairs r
  end.

(** The device the callback records for a raw event, if it records one. *)
Definition accepted (mac : mac_arg) (name : filter) (services : option (list filter))
    (raw : BluetoothLEAdvertisementReceivedEventArgs.t) : option BLEDevice.t :=
  match AdvertisementReceivedEventArgs.init raw with
  | Ok args =>
      match filters mac name services args with
      | Accept =>
          Some {| BLEDevice.address := AdvertisementReceivedEventArgs.bluetooth_address args;
                  BLEDevice.name :=
                    Advertisement.local_name (AdvertisementReceivedEventArgs.advertisement args);
                  BLEDevice.details := args |}
      | _ => None
      end
  | Raise _ => None
  end.

(** What an event does to the shared state. *)
Definition store_step (mac : mac_arg) (name : filter) (services : option (list filter))
    (sh : store) (ev : platform_event) : store :=
  match ev with
  | Received raw =>
      match accepted mac name services raw with
      | Some d => record_device d sh
      | None => sh
      end
  | _ => sh
  end.

(** No address twice among the devices emitted or pending, and every one
    of them is in [devices]. *)
Definition once_each (sh : store) (out : list BLEDevice.t) : Prop :=
  NoDup (BLEDevice.address <$> (out ++ new_devices sh)) /\
  Forall (fun d => is_Some (devices sh !! BLEDevice.address d)) (out ++ new_devices sh).

Definition addresses (l : list BLEDevice.t) : list string :=
  map BLEDevice.address l.

(** ** Sample data *)

Module Sample.

Definition section (code : Z) (payload : list byte)
  : BluetoothLEAdvertisementDataSection.t :=
  {| BluetoothLEAdvertisementDataSection.DataType := code;
     BluetoothLEAdvertisementDataSection.Data := payload |}.

Definition advertisement (flags : option Z) (name : string)
    (uuids : list string) (sections : list BluetoothLEAdvertisementDataSection.t)
  : BluetoothLEAdvertisement.t :=
  {| BluetoothLEAdvertisement.DataSections := sections;
     BluetoothLEAdvertisement.Flags := flags;
     BluetoothLEAdvertisement.LocalName := name;
     BluetoothLEAdvertisement.ManufacturerData := [];
     BluetoothLEAdvertisement.ServiceUuids := uuids |}.

Definition noon : DateTimeOffset.t :=
  {| DateTimeOffset.Year := 2019; DateTimeOffset.Month := 3;
     DateTimeOffset.Day := 26; DateTimeOffset.Hour := 12;
     DateTimeOffset.Minute := 0; DateTimeOffset.Second := 0;
     DateTimeOffset.Millisecond := 250; DateTimeOffset.OffsetHours := 1 |}.

Definition event (addr : Z) (adv : BluetoothLEAdvertisement.t)
  : BluetoothLEAdvertisementReceivedEventArgs.t :=
  {| BluetoothLEAdvertisementReceivedEventArgs.Advertisement := adv;
     BluetoothLEAdvertisementReceivedEventArgs.AdvertisementType := 0;
     BluetoothLEAdvertisementReceivedEventArgs.BluetoothAddress := addr;
     BluetoothLEAdvertisementReceivedEventArgs.RawSignalStrengthInDBm := -60;
     BluetoothLEAdvertisementReceivedEventArgs.Timestamp := noon |}.

Definition device_information : string := "0000180a-0000-1000-8000-00805f9b34fb".
Definition battery : string := "0000180f-0000-1000-8000-00805f9b34fb".

(** Two devices in range. *)
Definition blinky : BluetoothLEAdvertisementReceivedEventArgs.t :=
  event 0xFABD60D2113A
    (advertisement (Some 6) "Nordic_Blinky" [device_information] [section 0x01 [x06]]).

Definition thingy : BluetoothLEAdvertisementReceivedEventArgs.t :=
  event 0xC0FFEE000001
    (advertisement (Some 6) "Thingy" [battery] [section 0x01 [x06]]).

Definition no_uuid_conversion : filter -> result string :=
  fun _ => Raise TypeError.

Definition slot (b a : list platform_event) : sleep_slot :=
  {| before := b; after := a |}.

Definition empty_store : store := {| devices := ∅; new_devices := [] |}.

(** An advertisement with an appearance section given twice. *)
Definition two_appearances : BluetoothLEAdvertisement.t :=
  advertisement None "" []
    [section 0x19 [x00; x01]; section 0x0A [x04]; section 0x19 [x03; x41]].

(** An advertisement with a TX power of -16 dBm. *)
Definition tx_minus_16 : BluetoothLEAdvertisement.t :=
  advertisement None "" [] [section 0x0A [xf0]].

(** An advertisement with a section of type 0x0B, which [GAPDataType]
    does not list, followed by a TX power section. *)
Definition with_unlisted_type : BluetoothLEAdvertisement.t :=
  advertisement (Some 6) "Nordic_Blinky" []
    [section 0x0B [x00]; section 0x0A [x04]].

(** A services filter with one pattern entry, for the Device Information
    service. *)
Definition device_information_pattern : filter :=
  FPat (re.literal "0000180a").

(** A name filter [re.compile("Nordic_")]. *)
Definition nordic_pattern : filter := FPat (re.literal "Nordic_").

(** The watcher starts and two devices are heard within the first sleep;
    the watcher stops one sleep after it is told to. *)
Definition burst : list sleep_slot :=
  [ slot [Transition; Received blinky; Received thingy] [];
    slot [] [];
    slot [Transition] [] ].

(** The watcher starts and stops when told to; nothing is in range. *)
Definition silence : list sleep_slot :=
  [ slot [Transition] []; slot [] []; slot [Transition] [] ].

(** The watcher starts, one device is heard, then the platform reports a
    scanning error. *)
Definition failure : list sleep_slot :=
  [ slot [Transition] []; slot [Received blinky] []; slot [ScanError] [];
    slot [] [] ].

(** Two devices heard during the same sleep, in a scan of 30 ms. *)
Definition two_in_one_sleep : list sleep_slot :=
  [ slot [Transition] []; slot [Received blinky; Received thingy] [];
    slot [] []; slot [] []; slot [Transition] [] ].

(** Two devices heard in different sleeps, the first of them twice, in a
    scan of 30 ms. *)
Definition one_per_sleep : list sleep_slot :=
  [ slot [Transition] []; slot [Received blinky] []; slot [Received thingy] [];
    slot [Received blinky] []; slot [Transition] [] ].

(** The scan response of the first device. *)
Definition blinky_scan_response : BluetoothLEAdvertisementReceivedEventArgs.t :=
  {| BluetoothLEAdvertisementReceivedEventArgs.Advertisement :=
       advertisement None "Nordic_Blinky" [] [];
     BluetoothLEAdvertisementReceivedEventArgs.AdvertisementType := 4;
     BluetoothLEAdvertisementReceivedEventArgs.BluetoothAddress := 0xFABD60D2113A;
     BluetoothLEAdvertisementReceivedEventArgs.RawSignalStrengthInDBm := -61;
     BluetoothLEAdvertisementReceivedEventArgs.Timestamp := noon |}.

(** The advertisement of the first device, its scan response and the
    advertisement again, all heard during the same sleep; the second
    device, twice, during the next sleep. *)
Definition response_in_same_sleep : list sleep_slot :=
  [ slot [Transition] [];
    slot [Received blinky; Received blinky_scan_response] [Received blinky];
    slot [Received thingy; Received thingy] []; slot [] [];
    slot [Transition] [] ].

(** A MAC filter as a caller may write it. *)
Definition loose_mac : Str.t := Str.of_string "fa-bd:60d2_113a".

(** The string of the Arabic-Indic digits three and one. *)
Definition arabic_indic_31 : Str.t := [0x663; 0x661]%N.

(** An address whose first pair is written with the ligature U+FB00. *)
Definition ligature_mac : Str.t := 0xFB00%N :: Str.of_string ":AA:BB:CC:DD:EE".

End Sample.

(** ** Notions the further properties are stated with *)

(** The value of a member of [AdvertisementType]. *)
Definition AdvertisementType_value (t : AdvertisementType) : Z :=
  match t with
  | CONNECTABLE_DIRECTED => 1
  | CONNECTABLE_UNDIRECTED => 0
  | NON_CONNECTABLE_UNDIRECTED => 3
  | SCANNABLE_UNDIRECTED => 2
  | SCAN_RESPONSE => 4
  end.

(** Reading an address back from its text: the hexadecimal digits, in
    either case, most significant first; any other character is skipped. *)
Definition hex_value (c : ascii) : option N :=
  let n := N_of_ascii c in
  if ((48 <=? n) && (n <=? 57))%N then Some (n - 48)%N
  else if ((65 <=? n) && (n <=? 70))%N then Some (n - 55)%N
  else if ((97 <=? n) && (n <=? 102))%N then Some (n - 87)%N
  else None.

Fixpoint int_of_mac_from (acc : N) (s : string) : N :=
  match s with
  | EmptyString => acc
  | String c r =>
      match hex_value c with
      | Some d => int_of_mac_from (16 * acc + d)%N r
      | None => int_of_mac_from acc r
      end
  end.

Definition int_of_mac (s : string) : N := int_of_mac_from 0 s.

Fixpoint string_forall (p : ascii -> bool) (s : string) : bool :=
  match s with
  | EmptyString => true
  | String c r => p c && string_forall p r
  end.

Definition lower_hex (c : ascii) : bool :=
  let n := nat_of_ascii c in
  (((48 <=? n) && (n <=? 57)) || ((97 <=? n) && (n <=? 102)))%nat.

Definition upper_hex (c : ascii) : bool :=
  let n := nat_of_ascii c in
  (((48 <=? n) && (n <=? 57)) || ((65 <=? n) && (n <=? 70)))%nat.

(** [groups] pairs of uppercase hexadecimal digits with a colon between
    them; six groups is the form XX:XX:XX:XX:XX:XX. *)
Fixpoint address_shape (groups : nat) (s : string) : bool :=
  match groups, s with
  | S O, String a (String b EmptyString) => upper_hex a && upper_hex b
  | S g, String a (String b (String c r)) =>
      upper_hex a && upper_hex b && Ascii.eqb c ":" && address_shape g r
  | _, _ => false
  end.

(** A raw section whose type code is a value of [GAPDataType]. *)
Definition listed (ds : BluetoothLEAdvertisementDataSection.t) : Prop :=
  exists t, GAPDataType_value t = BluetoothLEAdvertisementDataSection.DataType ds.

Definition raw_section (ds : BluetoothLEAdvertisementDataSection.t) : Z * list byte :=
  (BluetoothLEAdvertisementDataSection.DataType ds,
   BluetoothLEAdvertisementDataSection.Data ds).

Definition decoded_section (ds : DataSection.t) : Z * list byte :=
  (GAPDataType_value (DataSection.data_type ds), DataSection.data ds).


(** The characters of a MAC string that its normalisation keeps. *)
Definition kept_characters (s : Str.t) : Str.t :=
  Str.re_sub_non_hex (Str.upper s).

(** A filter the callback can handle: nothing, a string or a pattern. *)
Definition well_typed (f : filter) : Prop :=
  truthy f = true -> is_str f = true \/ is_Pattern f = true.

Definition mac_well_typed (m : mac_arg) : Prop :=
  mac_truthy m = true -> mac_is_str m = true \/ mac_is_Pattern m = true.

(** ** Device enumeration ([bleak.backends.dotnet.discovery.discover]) *)

Module DeviceInformation.
(** [Properties] holds the key and value of each entry of the platform's
    property map, in its order. *)
Record t : Type := {
  Id : string;
  Name : string;
  Properties : list (string * string)
}.
End DeviceInformation.

Module DeviceInformationUpdate.
Record t : Type := {
  Id : string;
  Properties : list (string * string)
}.
End DeviceInformationUpdate.

(** ** [BLEDevice] with any of its kinds of [details] ([bleak.backends.device]) *)

Module Device.

Inductive details_t : Type :=
| OfEnumeration (d : DeviceInformation.t)
| OfSearch (args : AdvertisementReceivedEventArgs.t)
| OfPath (path : string)
| NoDetails.

Record t : Type := {
  address : string;
  name : option string;
  details : details_t
}.

(** The property [_name_string]. *)
Definition _name_string (d : t) : string :=
  match name d with
  | None => "None"
  | Some n => String.append "'" (String.append n "'")
  end.

(** [BLEDevice.__str__]. *)
Definition __str__ (d : t) : string :=
  String.append "BLEDevice("
    (String.append (address d)
       (String.append ", " (String.append (_name_string d) ")"))).

End Device.

Module Discovery.

(** A Python [dict] with string keys, in insertion order. *)
Definition dict (V : Type) : Type := list (string * V).

Fixpoint dict_get {V : Type} (key : string) (d : dict V) : option V :=
  match d with
  | [] => None
  | (k, v) :: rest => if String.eqb k key then Some v else dict_get key rest
  end.

(** [d[key] = v]: in place when the key is there, at the end otherwise. *)
Fixpoint dict_set {V : Type} (key : string) (v : V) (d : dict V) : dict V :=
  match d with
  | [] => [(key, v)]
  | (k, w) :: rest =>
      if String.eqb k key then (k, v) :: rest else (k, w) :: dict_set key v rest
  end.

(** [d.pop(key)] for a key that is there. *)
Fixpoint dict_pop {V : Type} (key : string) (d : dict V) : dict V :=
  match d with
  | [] => []
  | (k, w) :: rest => if String.eqb k key then rest else (k, w) :: dict_pop key rest
  end.

(** [{p.Key: p.Value for p in properties}]: a later entry replaces an
    earlier one with its key. *)
Definition dict_of_properties (properties : list (string * string)) : dict string :=
  fold_left (fun d p => dict_set (fst p) (snd p) d) properties [].

(** A callback returns or raises [KeyError]. *)
Inductive raising (A : Type) : Type :=
| Return (a : A)
| KeyError (key : string).

Arguments Return {A} a.
Arguments KeyError {A} key.

(** The events of the platform's [DeviceWatcher], each with whether the
    sender is the watcher that [discover] made. *)
Inductive watcher_event : Type :=
| Added (sender_is_watcher : bool) (dinfo : DeviceInformation.t)
| Updated (sender_is_watcher : bool) (dinfo_update : DeviceInformationUpdate.t)
| Removed (sender_is_watcher : bool) (dinfo_update : DeviceInformationUpdate.t)
| EnumerationCompleted (sender_is_watcher : bool)
| Stopped (sender_is_watcher : bool).

Section Discover.

(** The platform's [DeviceInformation.Update]. *)
Variable Update : DeviceInformation.t -> DeviceInformationUpdate.t -> DeviceInformation.t.

Definition DeviceWatcher_Added (sender_is_watcher : bool) (dinfo : DeviceInformation.t)
    (devices : dict DeviceInformation.t) : raising (dict DeviceInformation.t) :=
  if sender_is_watcher then
    match dict_get (DeviceInformation.Id dinfo) devices with
    | None => Return (dict_set (DeviceInformation.Id dinfo) dinfo devices)
    | Some _ => Return devices
    end
  else Return devices.

Definition DeviceWatcher_Updated (sender_is_watcher : bool)
    (dinfo_update : DeviceInformationUpdate.t)
    (devices : dict DeviceInformation.t) : raising (dict DeviceInformation.t) :=
  if sender_is_watcher then
    match dict_get (DeviceInformationUpdate.Id dinfo_update) devices with
    | Some d =>
        Return (dict_set (DeviceInformationUpdate.Id dinfo_update)
                  (Update d dinfo_update) devices)
    | None => Return devices
    end
  else Return devices.

(** The log message reads [devices[dinfo_update.Id]] before the test
    [dinfo_update.Id in devices]. *)
Definition DeviceWatcher_Removed (sender_is_watcher : bool)
    (dinfo_update : DeviceInformationUpdate.t)
    (devices : dict DeviceInformation.t) : raising (dict DeviceInformation.t) :=
  if sender_is_watcher then
    match dict_get (DeviceInformationUpdate.Id dinfo_update) devices with
    | None => KeyError (DeviceInformationUpdate.Id dinfo_update)
    | Some _ => Return (dict_pop (DeviceInformationUpdate.Id dinfo_update) devices)
    end
  else Return devices.

Definition handle (ev : watcher_event) (devices : dict DeviceInformation.t)
  : raising (dict DeviceInformation.t) :=
  match ev with
  | Added s dinfo => DeviceWatcher_Added s dinfo devices
  | Updated s u => DeviceWatcher_Updated s u devices
  | Removed s u => DeviceWatcher_Removed s u devices
  | EnumerationCompleted _ | Stopped _ => Return devices
  end.

(** An exception of a callback is raised on the platform's thread; the
    dictionary is as the callback left it, that is untouched. *)
Definition deliver (devices : dict DeviceInformation.t) (ev : watcher_event)
  : dict DeviceInformation.t :=
  match handle ev devices with
  | Return d => d
  | KeyError _ => devices
  end.

Definition DeviceAddress : string := "System.Devices.Aep.DeviceAddress".

(** One turn of [for d in devices.values()]. *)
Definition found_device (d : DeviceInformation.t) : raising Device.t :=
  match dict_get DeviceAddress (dict_of_properties (DeviceInformation.Properties d)) with
  | Some a =>
      Return {| Device.address := a;
                Device.name := Some (DeviceInformation.Name d);
                Device.details := Device.OfEnumeration d |}
  | None => KeyError DeviceAddress
  end.

Fixpoint found_devices (l : list DeviceInformation.t) : raising (list Device.t) :=
  match l with
  | [] => Return []
  | d :: rest =>
      match found_device d with
      | Return b =>
          match found_devices rest with
          | Return bs => Return (b :: bs)
          | KeyError k => KeyError k
          end
      | KeyError k => KeyError k
      end
  end.

(** [discover(timeout)] against the events the platform raises between
    [watcher.Start()] and the removal of the handlers. *)
Definition discover (events : list watcher_event) : raising (list Device.t) :=
  found_devices (map snd (fold_left deliver events [])).

End Discover.

End Discovery.

(** ** More sample data *)

Module Scenario.

(** The watcher starts; the platform does not complete the stop within the
    schedule. *)
Definition stop_not_completed : list sleep_slot :=
  [ Sample.slot [Transition] []; Sample.slot [] []; Sample.slot [] [] ].

(** A device is heard after the stop was requested, in the sleep in which
    the watcher stops. *)
Definition late_arrival : list sleep_slot :=
  [ Sample.slot [Transition] [];
    Sample.slot [] [Received Sample.blinky; Transition] ].

(** An [Update] that puts the properties of the update after those of the
    device. *)
Definition append_properties (d : DeviceInformation.t) (u : DeviceInformationUpdate.t)
  : DeviceInformation.t :=
  {| DeviceInformation.Id := DeviceInformation.Id d;
     DeviceInformation.Name := DeviceInformation.Name d;
     DeviceInformation.Properties :=
       DeviceInformation.Properties d ++ DeviceInformationUpdate.Properties u |}.

Definition blinky_info : DeviceInformation.t :=
  {| DeviceInformation.Id := "BluetoothLE#BluetoothLE00:1a:7d:da:71:13-fa:bd:60:d2:11:3a";
     DeviceInformation.Name := "Nordic_Blinky";
     DeviceInformation.Properties :=
       [("System.Devices.Aep.DeviceAddress", "fa:bd:60:d2:11:3a");
        ("System.Devices.Aep.IsConnected", "False")] |}.

Definition blinky_update : DeviceInformationUpdate.t :=
  {| DeviceInformationUpdate.Id :=
       "BluetoothLE#BluetoothLE00:1a:7d:da:71:13-fa:bd:60:d2:11:3a";
     DeviceInformationUpdate.Properties := [("System.Devices.Aep.IsConnected", "True")] |}.

End Scenario.

(** * Properties of the decoder *)

Lemma bind_Ok {A B : Type} (m : result A) (k : A -> result B) (b : B) :
  bind m k = Ok b -> exists a, m = Ok a /\ k a = Ok b.
Proof. destruct m as [a|e]; simpl; intros H; [eauto | discriminate]. Qed.

Lemma GAPDataType_call_value (t : GAPDataType) :
  GAPDataType_call (GAPDataType_value t) = Ok t.
Proof. destruct t; reflexivity. Qed.

Lemma GAPDataType_call_unlisted (code : Z) :
  (forall t, GAPDataType_value t <> code) ->
  GAPDataType_call code = Raise ValueError.
Proof.
  intros Hno. unfold GAPDataType_call.
  destruct (List.find _ _) as [t|] eqn:Hfind; [|reflexivity].
  apply find_some in Hfind as [_ Heq].
  apply Z.eqb_eq in Heq. destruct (Hno t Heq).
Qed.

Lemma DataSection_init_raises (ds : BluetoothLEAdvertisementDataSection.t) (e : exn) :
  DataSection.init ds = Raise e -> e = ValueError.
Proof.
  unfold DataSection.init, GAPDataType_call.
  destruct (List.find _ _); simpl; congruence.
Qed.

Lemma comprehension_raises {A B : Type} (f : A -> result B) (l : list A)
    (x : A) (e : exn) :
  In x l -> f x = Raise e -> (forall y e', f y = Raise e' -> e' = e) ->
  comprehension f l = Raise e.
Proof.
  intros Hin Hx Honly. induction l as [|y l IH]; [destruct Hin|].
  simpl. destruct (f y) as [b|e'] eqn:Hy; simpl.
  - destruct Hin as [->|Hin]; [congruence|]. rewrite (IH Hin). reflexivity.
  - f_equal. eauto.
Qed.

Lemma has_type_Appearance (ds : DataSection.t) :
  has_type Appearance ds = true <-> DataSection.data_type ds = Appearance.
Proof.
  unfold has_type, GAPDataType_eqb. rewrite Z.eqb_eq.
  split; [|intros ->; reflexivity].
  destruct (DataSection.data_type ds); simpl; intros H; congruence.
Qed.

Lemma has_type_Tx_Power_Level (ds : DataSection.t) :
  has_type Tx_Power_Level ds = true <-> DataSection.data_type ds = Tx_Power_Level.
Proof.
  unfold has_type, GAPDataType_eqb. rewrite Z.eqb_eq.
  split; [|intros ->; reflexivity].
  destruct (DataSection.data_type ds); simpl; intros H; congruence.
Qed.

Lemma filter_snoc {A : Type} (p : A -> bool) (l : list A) (x : A) :
  List.filter p (l ++ [x]) = List.filter p l ++ (if p x then [x] else []).
Proof. rewrite List.filter_app. reflexivity. Qed.

(** The loop over the sections keeps, for each of the two fields, the last
    section of its type. *)
Lemma parse_known_fold (sections : list DataSection.t) :
  fold_left Advertisement.parse_known sections (None, None) =
  (decoded_int <$> last (List.filter (has_type Appearance) sections),
   decoded_int <$> last (List.filter (has_type Tx_Power_Level) sections)).
Proof.
  induction sections as [|ds sections IH] using rev_ind; [reflexivity|].
  rewrite fold_left_app, IH, !filter_snoc. simpl.
  unfold Advertisement.parse_known.
  destruct (has_type Appearance ds) eqn:Ha; destruct (has_type Tx_Power_Level ds) eqn:Ht.
  - apply has_type_Appearance in Ha. apply has_type_Tx_Power_Level in Ht. congruence.
  - apply has_type_Appearance in Ha. rewrite Ha, last_snoc, app_nil_r. reflexivity.
  - apply has_type_Tx_Power_Level in Ht. rewrite Ht, last_snoc, app_nil_r. reflexivity.
  - rewrite !app_nil_r.
    destruct (DataSection.data_type ds) eqn:Hty; try reflexivity.
    + assert (has_type Tx_Power_Level ds = true) by (apply has_type_Tx_Power_Level; exact Hty).
      congruence.
    + assert (has_type Appearance ds = true) by (apply has_type_Appearance; exact Hty).
      congruence.
Qed.

Lemma int_from_bytes_big_nonneg (data : list byte) :
  0 <= Py.int_from_bytes_big data.
Proof.
  unfold Py.int_from_bytes_big.
  assert (H : forall acc, 0 <= acc ->
            0 <= fold_left (fun a b => a * 256 + Py.byte_value b) data acc).
  { induction data as [|b data IH]; intros acc Hacc; simpl; [exact Hacc|].
    apply IH. unfold Py.byte_value. lia. }
  apply H. lia.
Qed.

(** A payload of two bytes decodes as an unsigned 16-bit integer. *)
Lemma decoded_two_bytes (hi lo : byte) :
  Py.int_from_bytes_big [hi; lo] = 256 * Py.byte_value hi + Py.byte_value lo /\
  0 <= Py.int_from_bytes_big [hi; lo] < 65536.
Proof.
  unfold Py.int_from_bytes_big. simpl.
  assert (Hb : forall b, 0 <= Py.byte_value b < 256).
  { intros b. destruct b; vm_compute; split; congruence. }
  pose proof (Hb hi). pose proof (Hb lo). lia.
Qed.

(** Whatever the payload, the decoded TX power is never negative. *)
Lemma tx_power_level_never_negative (args : BluetoothLEAdvertisement.t)
    (adv : Advertisement.t) (v : Z) :
  Advertisement.init args = Ok adv ->
  Advertisement.tx_power_level adv = Some v -> 0 <= v.
Proof.
  unfold Advertisement.init. intros Hinit Htx.
  apply bind_Ok in Hinit as (sections & _ & Hadv).
  injection Hadv as <-. simpl in Htx.
  rewrite parse_known_fold in Htx. simpl in Htx.
  destruct (last _) as [ds|]; simpl in Htx; [|discriminate].
  injection Htx as <-. apply int_from_bytes_big_nonneg.
Qed.

(** C2 (as the code has it): a section whose type code is not a value of
    [GAPDataType] makes the constructor of the section raise [ValueError];
    the exception aborts the decoding of the whole advertisement and of the
    event that carries it, so nothing is retained, and the callback leaves
    the shared state as it was. *)
Theorem unlisted_type_code_aborts_decoding
    (args : BluetoothLEAdvertisement.t)
    (ds : BluetoothLEAdvertisementDataSection.t) :
  (forall t, GAPDataType_value t <> BluetoothLEAdvertisementDataSection.DataType ds) ->
  In ds (BluetoothLEAdvertisement.DataSections args) ->
  DataSection.init ds = Raise ValueError /\
  Advertisement.init args = Raise ValueError /\
  forall raw,
    BluetoothLEAdvertisementReceivedEventArgs.Advertisement raw = args ->
    AdvertisementReceivedEventArgs.init raw = Raise ValueError /\
    forall mac name services st,
      deliver (advertisement_watcher__received mac name services) st (Received raw) = st.
Proof.
  intros Hno Hin.
  assert (Hds : DataSection.init ds = Raise ValueError).
  { unfold DataSection.init. rewrite (GAPDataType_call_unlisted _ Hno). reflexivity. }
  assert (Hadv : Advertisement.init args = Raise ValueError).
  { unfold Advertisement.init.
    rewrite (comprehension_raises DataSection.init _ ds ValueError Hin Hds
               DataSection_init_raises).
    reflexivity. }
  split; [exact Hds|]. split; [exact Hadv|].
  intros raw Hraw.
  assert (Hev : AdvertisementReceivedEventArgs.init raw = Raise ValueError).
  { unfold AdvertisementReceivedEventArgs.init. rewrite Hraw, Hadv. reflexivity. }
  split; [exact Hev|].
  intros mac name services st. simpl.
  unfold advertisement_watcher__received. rewrite Hev. reflexivity.
Qed.

Lemma unlisted_type_code_aborts_decoding_witness :
  DataSection.init (Sample.section 0x0B [x00]) = Raise ValueError /\
  Advertisement.init Sample.with_unlisted_type = Raise ValueError.
Proof.
  assert (Hno : forall t, GAPDataType_value t <> 0x0B)
    by (intros t; destruct t; simpl; discriminate).
  assert (Hin : In (Sample.section 0x0B [x00])
                  (BluetoothLEAdvertisement.DataSections Sample.with_unlisted_type))
    by (simpl; left; reflexivity).
  pose proof (unlisted_type_code_aborts_decoding Sample.with_unlisted_type
                (Sample.section 0x0B [x00]) Hno Hin) as (Hds & Hadv & _).
  split; [exact Hds|exact Hadv].
Defined.

(** C2 (as stated) fails: the type code 0x0B is not a value of
    [GAPDataType], and the advertisement that carries such a section is not
    decoded at all; the TX power section that follows is lost with it. *)
Lemma unlisted_type_code_not_retained :
  (forall t, GAPDataType_value t <> 0x0B) /\
  DataSection.init (Sample.section 0x0B [x00]) = Raise ValueError /\
  Advertisement.init Sample.with_unlisted_type = Raise ValueError /\
  ~ exists adv, Advertisement.init Sample.with_unlisted_type = Ok adv.
Proof.
  repeat split.
  - intros t. destruct t; simpl; discriminate.
  - intros [adv H]. vm_compute in H. discriminate.
Qed.

(** C5 (as the code has it): the loop over the data sections assigns the
    field at every section of the type, so [appearance] and
    [tx_power_level] take their value from the last section of their type
    in decoding order. *)
Theorem repeated_section_last_wins
    (args : BluetoothLEAdvertisement.t) (adv : Advertisement.t) :
  Advertisement.init args = Ok adv ->
  Advertisement.appearance adv =
    decoded_int <$> last (List.filter (has_type Appearance) (Advertisement.data_sections adv)) /\
  Advertisement.tx_power_level adv =
    decoded_int <$> last (List.filter (has_type Tx_Power_Level) (Advertisement.data_sections adv)).
Proof.
  unfold Advertisement.init. intros Hinit.
  apply bind_Ok in Hinit as (sections & _ & Hadv).
  injection Hadv as <-. simpl. rewrite parse_known_fold. split; reflexivity.
Qed.

Lemma repeated_section_last_wins_witness :
  exists adv, Advertisement.init Sample.two_appearances = Ok adv /\
    Advertisement.appearance adv = Some 0x0341.
Proof.
  eexists. split; [reflexivity|].
  exact (proj1 (repeated_section_last_wins Sample.two_appearances _ eq_refl)).
Defined.

(** C5 (as stated) fails: of two appearance sections, 0x0001 then 0x0341,
    the field holds the second. *)
Lemma repeated_section_first_does_not_win :
  exists adv, Advertisement.init Sample.two_appearances = Ok adv /\
    decoded_int <$> head (List.filter (has_type Appearance) (Advertisement.data_sections adv))
      = Some 0x0001 /\
    Advertisement.appearance adv = Some 0x0341 /\
    Advertisement.appearance adv <> Some 0x0001.
Proof.
  eexists. split; [reflexivity|]. vm_compute. repeat split; discriminate.
Qed.

(** C6: the payload 0xF0 of a TX power section is -16 as a signed 8-bit
    integer; the decoder calls [int.from_bytes] without [signed=True] and
    stores 240. *)
Theorem tx_power_level_0xF0_decoded_unsigned :
  Py.int8_of_byte xf0 = -16 /\
  exists adv, Advertisement.init Sample.tx_minus_16 = Ok adv /\
    Advertisement.tx_power_level adv = Some 240.
Proof.
  split; [reflexivity|]. eexists. split; reflexivity.
Qed.

Lemma comprehension_In {A B : Type} (f : A -> result B) (l : list A)
    (l' : list B) (x : A) :
  comprehension f l = Ok l' -> In x l -> exists y, f x = Ok y /\ In y l'.
Proof.
  revert l'. induction l as [|a l IH]; intros l' Hc Hin; [destruct Hin|].
  simpl in Hc. apply bind_Ok in Hc as (b & Hb & Hc).
  apply bind_Ok in Hc as (bs & Hbs & Hc). injection Hc as <-.
  destruct Hin as [->|Hin].
  - exists b. split; [exact Hb|left; reflexivity].
  - destruct (IH bs Hbs Hin) as (y & Hy & Hyin).
    exists y. split; [exact Hy|right; exact Hyin].
Qed.

(** C10 (as the code has it): when the platform reports the flags value
    zero the decoded [flags] is [None], the same as for any advertisement
    for which the platform reports no flags at all; a section of type
    Flags is in [data_sections] all the same, with its payload. *)
Theorem zero_flags_decoded_as_none
    (args args' : BluetoothLEAdvertisement.t) (adv adv' : Advertisement.t) :
  BluetoothLEAdvertisement.Flags args = Some 0 ->
  Advertisement.init args = Ok adv ->
  BluetoothLEAdvertisement.Flags args' = None ->
  Advertisement.init args' = Ok adv' ->
  Advertisement.flags adv = None /\
  Advertisement.flags adv = Advertisement.flags adv' /\
  forall ds, In ds (BluetoothLEAdvertisement.DataSections args) ->
    BluetoothLEAdvertisementDataSection.DataType ds = 0x01 ->
    In {| DataSection.data := BluetoothLEAdvertisementDataSection.Data ds;
          DataSection.data_type := Flags |}
       (Advertisement.data_sections adv).
Proof.
  unfold Advertisement.init. intros Hzero Hinit Hnone Hinit'.
  apply bind_Ok in Hinit as (sections & Hsections & Hadv).
  apply bind_Ok in Hinit' as (sections' & _ & Hadv').
  injection Hadv as <-. injection Hadv' as <-. simpl.
  rewrite Hzero, Hnone. simpl. split; [reflexivity|]. split; [reflexivity|].
  intros ds Hin Hcode.
  destruct (comprehension_In _ _ _ _ Hsections Hin) as (y & Hy & Hyin).
  unfold DataSection.init in Hy. rewrite Hcode in Hy.
  injection Hy as <-. exact Hyin.
Qed.

Lemma zero_flags_decoded_as_none_witness :
  exists adv,
    Advertisement.init (Sample.advertisement (Some 0) "Thingy" [] [Sample.section 0x01 [x00]])
      = Ok adv /\
    Advertisement.flags adv = None /\
    In {| DataSection.data := [x00]; DataSection.data_type := Flags |}
       (Advertisement.data_sections adv).
Proof.
  eexists. split; [reflexivity|].
  pose proof (zero_flags_decoded_as_none
                (Sample.advertisement (Some 0) "Thingy" [] [Sample.section 0x01 [x00]])
                (Sample.advertisement None "Thingy" [] [])
                _ _ eq_refl eq_refl eq_refl eq_refl) as (Hflags & _ & Hsections).
  split; [exact Hflags|].
  exact (Hsections (Sample.section 0x01 [x00]) (or_introl eq_refl) eq_refl).
Defined.

(** C10 (as stated) fails: an advertisement whose Flags section has no bit
    set and the same advertisement without the section are decoded with
    the same [flags], and are told apart by [data_sections]. *)
Lemma zero_flags_section_is_visible :
  exists adv adv',
    Advertisement.init (Sample.advertisement (Some 0) "Thingy" [] [Sample.section 0x01 [x00]])
      = Ok adv /\
    Advertisement.init (Sample.advertisement None "Thingy" [] []) = Ok adv' /\
    Advertisement.flags adv = Advertisement.flags adv' /\
    Advertisement.data_sections adv =
      [{| DataSection.data := [x00]; DataSection.data_type := Flags |}] /\
    Advertisement.data_sections adv' = [] /\
    adv <> adv'.
Proof.
  eexists. eexists. repeat (split; [reflexivity|]). discriminate.
Qed.

(** * Properties of the filter checks *)

Lemma range2_shift (k n : nat) :
  Py.range2 (S (S k)) n = map (fun i => S (S i)) (Py.range2 k n).
Proof.
  revert k. induction n as [n IH] using lt_wf_ind. intros k.
  destruct n as [|[|n]]; [reflexivity..|].
  simpl. f_equal. replace (k + 2)%nat with (S (S k)) by lia.
  rewrite (IH n) by lia. reflexivity.
Qed.

Lemma slices_are_pairs (s : string) :
  map (Py.slice2 s) (Py.range2 0 (String.length s)) = pairs s.
Proof.
  remember (String.length s) as n eqn:Hn.
  revert s Hn. induction n as [n IH] using lt_wf_ind. intros s Hn.
  destruct s as [|a [|b r]]; simpl in Hn; subst n; [reflexivity..|].
  simpl. f_equal; [destruct r; reflexivity|].
  rewrite range2_shift, map_map.
  rewrite <- (IH (String.length r) ltac:(lia) r eq_refl).
  apply map_ext. intros i. reflexivity.
Qed.

Lemma concat_pairs (s : string) :
  String.concat ":" (pairs s) = rejoin_pairs s.
Proof.
  remember (String.length s) as n eqn:Hn.
  revert s Hn. induction n as [n IH] using lt_wf_ind. intros s Hn.
  destruct s as [|a [|b [|c r]]]; [reflexivity..|].
  change (pairs (String a (String b (String c r))))
    with (String a (String b EmptyString) :: pairs (String c r)).
  assert (Hne : exists x l, pairs (String c r) = x :: l).
  { destruct r; simpl; eauto. }
  destruct Hne as (x & l & Hxl).
  assert (Hrec : String.concat ":" (pairs (String c r)) = rejoin_pairs (String c r)).
  { apply (IH (String.length (String c r))); [subst n; simpl; lia | reflexivity]. }
  rewrite Hxl in *.
  change (String.concat ":" (String a (String b EmptyString) :: x :: l))
    with (String a (String b (String ":" (String.concat ":" (x :: l))))).
  rewrite Hrec. reflexivity.
Qed.

Lemma join_byte_pairs_rejoin (s : string) :
  Py.join_byte_pairs s = rejoin_pairs s.
Proof.
  unfold Py.join_byte_pairs, Py.join. rewrite slices_are_pairs. apply concat_pairs.
Qed.

(** *** Strings as code points *)

Lemma Str_eqb_eq (a b : Str.t) : Str.eqb a b = true <-> a = b.
Proof.
  revert b. induction a as [|x a IH]; intros [|y b]; simpl;
    try (split; [discriminate|discriminate]); [split; reflexivity|].
  rewrite andb_true_iff, N.eqb_eq, IH. split.
  - intros [-> ->]. reflexivity.
  - intros [= -> ->]. split; reflexivity.
Qed.

Lemma of_string_inj (s t : string) : Str.of_string s = Str.of_string t -> s = t.
Proof.
  revert t. induction s as [|c s IH]; intros [|d t] H; simpl in H;
    try discriminate H; [reflexivity|].
  injection H as Hc Hs. f_equal; [|apply IH, Hs].
  rewrite <- (ascii_N_embedding c), <- (ascii_N_embedding d), Hc. reflexivity.
Qed.

Lemma of_string_length (s : string) : length (Str.of_string s) = String.length s.
Proof. induction s as [|c s IH]; simpl; [reflexivity|]. rewrite IH. reflexivity. Qed.

(** [str.upper] on ASCII text is the map on the letters [a] to [z]. *)
Lemma upper_char_ascii (c : ascii) :
  (N_of_ascii c <? 128)%N = true ->
  Str.upper_char (N_of_ascii c) = [N_of_ascii (Py.upper_ascii c)].
Proof.
  destruct c as [[] [] [] [] [] [] [] []]; intros H;
    try discriminate H; vm_compute; reflexivity.
Qed.

Lemma upper_of_ascii_text (s : string) :
  string_forall (fun c => (N_of_ascii c <? 128)%N) s = true ->
  Str.upper (Str.of_string s) = Str.of_string (Py.upper s).
Proof.
  induction s as [|c s IH]; intros Hall; [reflexivity|].
  simpl in Hall. apply andb_prop in Hall as [Hc Hs].
  change (Str.upper (Str.of_string (String c s)))
    with (Str.upper_char (N_of_ascii c) ++ Str.upper (Str.of_string s)).
  rewrite (upper_char_ascii c Hc), (IH Hs). reflexivity.
Qed.

(** *** What the tables of [str.upper] and [\d] hold *)

Lemma upper_char_cases (c : N) :
  Str.upper_char c = [c] \/
  exists e, In e Str.upper_table /\ fst e = c /\ Str.upper_char c = snd e.
Proof.
  unfold Str.upper_char.
  destruct (List.find _ Str.upper_table) as [e|] eqn:Hfind; [|left; reflexivity].
  apply find_some in Hfind as [Hin Hkey]. apply N.eqb_eq in Hkey.
  right. exists e. repeat split; assumption.
Qed.

Lemma upper_char_unchanged (c : N) :
  (forall e, In e Str.upper_table -> fst e <> c) -> Str.upper_char c = [c].
Proof.
  intros Hno. destruct (upper_char_cases c) as [H|(e & Hin & Hkey & _)]; [exact H|].
  destruct (Hno e Hin Hkey).
Qed.

(** No character of the class [A-F\d] is changed by [str.upper]. *)
Lemma upper_table_keys_outside_class :
  forallb (fun e => negb (Str.in_class_AF_digit (fst e))) Str.upper_table = true.
Proof. vm_compute. reflexivity. Qed.

(** Among the characters [str.upper] puts in place of another, the class
    [A-F\d] holds hexadecimal digits only. *)
Lemma upper_table_values_class :
  forallb (fun e => forallb (fun x => Bool.eqb (Str.in_class_AF_digit x) (is_hex_digit x))
                      (snd e))
          Str.upper_table = true.
Proof. vm_compute. reflexivity. Qed.

Lemma upper_char_class (c : N) :
  Str.in_class_AF_digit c = true -> Str.upper_char c = [c].
Proof.
  intros Hc. apply upper_char_unchanged. intros e Hin Hkey.
  pose proof upper_table_keys_outside_class as Hall.
  rewrite forallb_forall in Hall. specialize (Hall e Hin).
  rewrite Hkey, Hc in Hall. discriminate Hall.
Qed.

Lemma ascii_digit_isdecimal (c : N) : ascii_digit c = true -> Str.isdecimal c = true.
Proof.
  intros Hc. unfold Str.isdecimal. apply existsb_exists.
  exists (48, 57)%N. split; [left; reflexivity|exact Hc].
Qed.

Lemma lower_hex_letter_changed (c : N) :
  ((97 <=? c) && (c <=? 102))%N = true -> Str.upper_char c <> [c].
Proof.
  intros Hc. apply andb_prop in Hc as [Hlo Hhi].
  apply N.leb_le in Hlo, Hhi.
  assert (Hcases : (c = 97 \/ c = 98 \/ c = 99 \/ c = 100 \/ c = 101 \/ c = 102)%N) by lia.
  destruct Hcases as [->|[->|[->|[->|[->| ->]]]]]; vm_compute; discriminate.
Qed.

(** On what [str.upper] makes of a character that is no decimal digit of
    another script, the class [A-F\d] and the hexadecimal digits agree. *)
Lemma upper_class (c x : N) :
  implb (Str.isdecimal c) (ascii_digit c) = true ->
  In x (Str.upper_char c) ->
  Str.in_class_AF_digit x = is_hex_digit x.
Proof.
  intros Hdigit Hin.
  destruct (upper_char_cases c) as [Hsame|(e & He & Hkey & Hup)].
  - rewrite Hsame in Hin. destruct Hin as [<-|[]].
    pose proof (lower_hex_letter_changed c) as Hlow.
    unfold Str.in_class_AF_digit, is_hex_digit.
    destruct ((97 <=? c) && (c <=? 102))%N eqn:Haf; [destruct (Hlow eq_refl Hsame)|].
    rewrite orb_false_r.
    destruct (Str.isdecimal c) eqn:Hd.
    + simpl in Hdigit. unfold ascii_digit in Hdigit. rewrite Hdigit.
      rewrite orb_true_r. reflexivity.
    + destruct ((48 <=? c) && (c <=? 57))%N eqn:H09.
      * rewrite (ascii_digit_isdecimal c H09) in Hd. discriminate Hd.
      * rewrite orb_false_r. reflexivity.
  - rewrite Hup in Hin.
    pose proof upper_table_values_class as Hall.
    rewrite forallb_forall in Hall. specialize (Hall e He).
    rewrite forallb_forall in Hall. specialize (Hall x Hin).
    apply Bool.eqb_prop in Hall. exact Hall.
Qed.

Lemma re_sub_upper (s : Str.t) :
  digits_are_ascii s = true ->
  Str.re_sub_non_hex (Str.upper s) = hex_digits_only (Str.upper s).
Proof.
  unfold Str.re_sub_non_hex, hex_digits_only, Str.upper, digits_are_ascii.
  induction s as [|c s IH]; intros Hall; [reflexivity|].
  simpl in Hall. apply andb_prop in Hall as [Hc Hs].
  simpl. rewrite !List.filter_app, (IH Hs). f_equal.
  apply filter_ext_in. intros x Hx. exact (upper_class c x Hc Hx).
Qed.

(** *** Rejoining the pairs *)

Lemma join_byte_pairs_step (a b : N) (rest : Str.t) :
  Str.join_byte_pairs (a :: b :: rest) =
    match rest with
    | [] => [a; b]
    | _ :: _ => a :: b :: 58%N :: Str.join_byte_pairs rest
    end.
Proof.
  unfold Str.join_byte_pairs.
  change (length (a :: b :: rest)) with (S (S (length rest))).
  change (Py.range2 0 (S (S (length rest))))
    with (0%nat :: Py.range2 (0 + 2) (length rest)).
  change (0 + 2)%nat with 2%nat.
  rewrite range2_shift, map_cons, map_map.
  change (map (fun i => Str.slice2 (a :: b :: rest) (S (S i))))
    with (map (Str.slice2 rest)).
  destruct rest as [|c rest]; [reflexivity|].
  destruct (length (c :: rest)) as [|[|n]] eqn:Hlen; [discriminate Hlen|reflexivity|].
  reflexivity.
Qed.

Lemma pair_induction (P : Str.t -> Prop) :
  P [] -> (forall a, P [a]) ->
  (forall a b rest, P rest -> P (a :: b :: rest)) ->
  forall s, P s.
Proof.
  intros Hnil Hone Hstep.
  assert (Hboth : forall s, P s /\ forall a, P (a :: s)).
  { induction s as [|b s [IH IHcons]]; [split; [exact Hnil|exact Hone]|].
    split; [apply IHcons|]. intros a. apply Hstep, IH. }
  intros s. apply Hboth.
Qed.

Lemma join_byte_pairs_colon_pairs (s : Str.t) :
  Str.join_byte_pairs s = colon_pairs s.
Proof.
  induction s as [| a | a b rest IH] using pair_induction; [reflexivity..|].
  rewrite join_byte_pairs_step. destruct rest as [|c rest]; [reflexivity|].
  rewrite IH. reflexivity.
Qed.

Lemma colon_pairs_Forall (P : N -> Prop) (d : Str.t) :
  P 58%N -> Forall P d -> Forall P (colon_pairs d).
Proof.
  intros Hcolon.
  induction d as [| a | a b rest IH] using pair_induction; intros Hd; try exact Hd.
  destruct rest as [|c rest]; [exact Hd|].
  change (colon_pairs (a :: b :: c :: rest))
    with (a :: b :: 58%N :: colon_pairs (c :: rest)).
  inversion Hd as [|? ? Ha Hd']; subst. inversion Hd' as [|? ? Hb Hrest]; subst.
  repeat constructor; try assumption. apply IH, Hrest.
Qed.

(** Dropping the colons gives back what was rejoined. *)
Lemma filter_colon_pairs (p : N -> bool) (d : Str.t) :
  p 58%N = false -> Forall (fun x => p x = true) d ->
  List.filter p (colon_pairs d) = d.
Proof.
  intros Hcolon.
  induction d as [| a | a b rest IH] using pair_induction; intros Hd.
  - reflexivity.
  - inversion Hd as [|? ? Ha _]; subst. simpl. rewrite Ha. reflexivity.
  - inversion Hd as [|? ? Ha Hd']; subst. inversion Hd' as [|? ? Hb Hrest]; subst.
    destruct rest as [|c rest]; [simpl; rewrite Ha, Hb; reflexivity|].
    change (colon_pairs (a :: b :: c :: rest))
      with (a :: b :: 58%N :: colon_pairs (c :: rest)).
    cbn [List.filter]. rewrite Ha, Hb, Hcolon, (IH Hrest). reflexivity.
Qed.

Lemma colon_pairs_nil (d : Str.t) : colon_pairs d = [] -> d = [].
Proof. destruct d as [|a [|b [|c r]]]; simpl; congruence. Qed.

Lemma colon_pairs_inj (d d' : Str.t) :
  Forall (fun x => x <> 58%N) d -> Forall (fun x => x <> 58%N) d' ->
  colon_pairs d = colon_pairs d' -> d = d'.
Proof.
  intros Hd Hd' Heq.
  assert (Hp : forall l, Forall (fun x => x <> 58%N) l ->
                 Forall (fun x => negb (x =? 58)%N = true) l).
  { intros l. apply List.Forall_impl. intros x Hx.
    apply negb_true_iff, N.eqb_neq, Hx. }
  rewrite <- (filter_colon_pairs (fun x => negb (x =? 58)%N) d eq_refl (Hp d Hd)).
  rewrite <- (filter_colon_pairs (fun x => negb (x =? 58)%N) d' eq_refl (Hp d' Hd')).
  rewrite Heq. reflexivity.
Qed.

Lemma kept_characters_class (s : Str.t) :
  Forall (fun x => Str.in_class_AF_digit x = true) (kept_characters s).
Proof.
  unfold kept_characters, Str.re_sub_non_hex. apply Forall_forall.
  intros x Hx. apply list_elem_of_In, filter_In in Hx. apply Hx.
Qed.

Lemma class_not_colon (x : N) : Str.in_class_AF_digit x = true -> x <> 58%N.
Proof. intros Hx ->. vm_compute in Hx. discriminate Hx. Qed.

Lemma normalize_mac_kept (s : Str.t) :
  normalize_mac s = colon_pairs (kept_characters s).
Proof. unfold normalize_mac. apply join_byte_pairs_colon_pairs. Qed.

Lemma hex_digit_in_class (c x : N) :
  In x (Str.upper_char c) -> is_hex_digit x = true ->
  Str.in_class_AF_digit x = true.
Proof.
  intros Hin Hhex.
  destruct (upper_char_cases c) as [Hsame|(e & He & Hkey & Hup)].
  - rewrite Hsame in Hin. destruct Hin as [<-|[]].
    pose proof (lower_hex_letter_changed c) as Hlow.
    unfold Str.in_class_AF_digit. unfold is_hex_digit in Hhex.
    destruct ((97 <=? c) && (c <=? 102))%N; [destruct (Hlow eq_refl Hsame)|].
    rewrite orb_false_r in Hhex. apply orb_prop in Hhex as [H09| ->]; [|reflexivity].
    rewrite (ascii_digit_isdecimal c H09). apply orb_true_r.
  - rewrite Hup in Hin.
    pose proof upper_table_values_class as Hall.
    rewrite forallb_forall in Hall. specialize (Hall e He).
    rewrite forallb_forall in Hall. specialize (Hall x Hin).
    apply Bool.eqb_prop in Hall. rewrite Hall. exact Hhex.
Qed.

Lemma filter_filter_sub {A : Type} (p q : A -> bool) (l : list A) :
  (forall x, In x l -> q x = true -> p x = true) ->
  List.filter q (List.filter p l) = List.filter q l.
Proof.
  induction l as [|a l IH]; intros Hsub; [reflexivity|].
  assert (Hl : forall x, In x l -> q x = true -> p x = true)
    by (intros x Hx; apply Hsub; right; exact Hx).
  simpl. destruct (p a) eqn:Hp; simpl.
  - rewrite (IH Hl). reflexivity.
  - destruct (q a) eqn:Hq; [|exact (IH Hl)].
    rewrite (Hsub a (or_introl eq_refl) Hq) in Hp. discriminate Hp.
Qed.

(** The hexadecimal digits of the uppercased string are among the
    characters the normalisation keeps. *)
Lemma hex_digits_of_kept (s : Str.t) :
  hex_digits_only (Str.upper s) = List.filter is_hex_digit (kept_characters s).
Proof.
  unfold hex_digits_only, kept_characters, Str.re_sub_non_hex. symmetry.
  apply filter_filter_sub. intros x Hx Hhex.
  unfold Str.upper in Hx. apply in_flat_map in Hx as (c & _ & Hx).
  exact (hex_digit_in_class c x Hx Hhex).
Qed.

Lemma hex_letter_not_decimal (c : N) :
  is_hex_digit c = true -> Str.isdecimal c = true -> ascii_digit c = true.
Proof.
  unfold is_hex_digit, ascii_digit.
  destruct ((48 <=? c) && (c <=? 57))%N; [reflexivity|].
  rewrite orb_false_l. intros Hc Hd. exfalso.
  assert (Hcases : (c = 65 \/ c = 66 \/ c = 67 \/ c = 68 \/ c = 69 \/ c = 70 \/
                    c = 97 \/ c = 98 \/ c = 99 \/ c = 100 \/ c = 101 \/ c = 102)%N).
  { apply orb_prop in Hc as [Hc|Hc]; apply andb_prop in Hc as [Hlo Hhi];
      apply N.leb_le in Hlo, Hhi; lia. }
  repeat (destruct Hcases as [->|Hcases]; [vm_compute in Hd; discriminate Hd|]).
  subst c. vm_compute in Hd. discriminate Hd.
Qed.

Lemma normalize_mac_canonical (s : Str.t) :
  normalize_mac s = canonical_mac s <-> digits_are_ascii s = true.
Proof.
  split.
  - rewrite normalize_mac_kept. unfold canonical_mac.
    rewrite hex_digits_of_kept. intros Heq.
    pose proof (kept_characters_class s) as Hclass.
    apply colon_pairs_inj in Heq.
    + unfold digits_are_ascii. apply forallb_forall. intros c Hc.
      destruct (Str.isdecimal c) eqn:Hd; [|reflexivity]. simpl.
      assert (Hin : Str.in_class_AF_digit c = true)
        by (unfold Str.in_class_AF_digit; rewrite Hd; apply orb_true_r).
      assert (Hkept : In c (kept_characters s)).
      { unfold kept_characters, Str.re_sub_non_hex. apply filter_In.
        split; [|exact Hin]. unfold Str.upper. apply in_flat_map.
        exists c. split; [exact Hc|].
        rewrite (upper_char_class c Hin). left. reflexivity. }
      rewrite Heq in Hkept. apply filter_In in Hkept as [_ Hhex].
      exact (hex_letter_not_decimal c Hhex Hd).
    + revert Hclass. apply List.Forall_impl. intros x. apply class_not_colon.
    + apply List.Forall_forall. intros x Hx. apply filter_In in Hx as [Hx _].
      rewrite List.Forall_forall in Hclass. apply class_not_colon, Hclass, Hx.
  - intros Hs. unfold normalize_mac, canonical_mac.
    rewrite join_byte_pairs_colon_pairs, (re_sub_upper s Hs). reflexivity.
Qed.

Lemma check_mac_str (s : Str.t) : check_mac (MStr s) = Ok (MStr (normalize_mac s)).
Proof. destruct s; reflexivity. Qed.

(** C9 (as the code has it): a string given as MAC filter is replaced by
    its uppercase hexadecimal digits, every other character dropped, with
    a colon between the pairs of digits, when the only decimal digits in
    it are [0] to [9], and only then; the input of the scenario gives the
    canonical address. *)
Theorem mac_filter_normalized (ble_uuid_to_128bit : filter -> result string)
    (s : Str.t) (name : filter) (services : option (list filter)) :
  digits_are_ascii s = true ->
  check_mac (MStr s) = Ok (MStr (canonical_mac s)) /\
  check_filters ble_uuid_to_128bit (MStr s) name services =
    (let* name' := check_name name in
     let* services' := check_services ble_uuid_to_128bit services in
     Ok (MStr (canonical_mac s), name', services')) /\
  check_mac (MStr (Str.of_string "fa-bd:60d2_113a")) =
    Ok (MStr (Str.of_string "FA:BD:60:D2:11:3A")) /\
  forall t : Str.t,
    check_mac (MStr t) = Ok (MStr (canonical_mac t)) -> digits_are_ascii t = true.
Proof.
  intros Hs.
  assert (Hmac : check_mac (MStr s) = Ok (MStr (canonical_mac s))).
  { rewrite check_mac_str, (proj2 (normalize_mac_canonical s) Hs). reflexivity. }
  split; [exact Hmac|]. split; [|split; [vm_compute; reflexivity|]].
  - unfold check_filters. rewrite Hmac. reflexivity.
  - intros t Ht. rewrite check_mac_str in Ht. injection Ht as Ht.
    apply normalize_mac_canonical, Ht.
Qed.

Lemma mac_filter_normalized_witness :
  check_mac (MStr Sample.loose_mac) = Ok (MStr (Str.of_string "FA:BD:60:D2:11:3A")).
Proof.
  exact (proj1 (mac_filter_normalized Sample.no_uuid_conversion Sample.loose_mac
                  FNone None eq_refl)).
Defined.

(** C9 (as stated) fails: a string of decimal digits of another script
    has no hexadecimal digit, and the check keeps all of it. *)
Lemma decimal_digits_of_another_script_kept :
  hex_digits_only (Str.upper Sample.arabic_indic_31) = [] /\
  canonical_mac Sample.arabic_indic_31 = [] /\
  check_mac (MStr Sample.arabic_indic_31) = Ok (MStr Sample.arabic_indic_31) /\
  check_mac (MStr Sample.arabic_indic_31) <> Ok (MStr (canonical_mac Sample.arabic_indic_31)).
Proof.
  split; [vm_compute; reflexivity|]. split; [vm_compute; reflexivity|].
  split; [vm_compute; reflexivity|]. vm_compute. discriminate.
Qed.

(** * Properties of the scan session *)

Section Session.

Variable mac : mac_arg.
Variable name : filter.
Variable services : option (list filter).

Let callback := advertisement_watcher__received mac name services.
Let step := store_step mac name services.

Lemma bluetooth_address_init raw args :
  AdvertisementReceivedEventArgs.init raw = Ok args ->
  AdvertisementReceivedEventArgs.bluetooth_address args = address_of raw.
Proof.
  unfold AdvertisementReceivedEventArgs.init. intros H.
  apply bind_Ok in H as (adv & _ & H).
  apply bind_Ok in H as (ty & _ & H).
  injection H as <-. reflexivity.
Qed.

Lemma accepted_address raw d :
  accepted mac name services raw = Some d -> BLEDevice.address d = address_of raw.
Proof.
  unfold accepted.
  destruct (AdvertisementReceivedEventArgs.init raw) as [args|] eqn:Hinit; [|discriminate].
  destruct (filters _ _ _ _); try discriminate.
  intros [= <-]. simpl. apply bluetooth_address_init, Hinit.
Qed.

Lemma shared_deliver st ev :
  shared (deliver callback st ev) = step (shared st) ev.
Proof.
  destruct ev as [raw| |]; try reflexivity.
  subst callback step. simpl.
  unfold advertisement_watcher__received, accepted.
  destruct (AdvertisementReceivedEventArgs.init raw) as [args|]; simpl; [|reflexivity].
  destruct (filters _ _ _ _); reflexivity.
Qed.

Lemma shared_fold_deliver events st :
  shared (fold_left (deliver callback) events st) = fold_left step events (shared st).
Proof.
  revert st. induction events as [|ev events IH]; intros st; simpl; [reflexivity|].
  rewrite IH, shared_deliver. reflexivity.
Qed.

Lemma shared_run_timer st : shared (run_timer st) = shared st.
Proof.
  unfold run_timer, stop_scan.
  destruct (timer st) as [t|]; [|reflexivity].
  destruct (t <=? poll_ms); simpl; [|reflexivity].
  destruct (status st); reflexivity.
Qed.

Lemma shared_sleep st sl :
  shared (sleep callback st sl) = fold_left step (slot_events sl) (shared st).
Proof.
  unfold sleep, slot_events.
  rewrite shared_fold_deliver, shared_run_timer, shared_fold_deliver, fold_left_app.
  reflexivity.
Qed.

(** A second sighting changes nothing. *)
Lemma record_device_seen d sh :
  is_Some (devices sh !! BLEDevice.address d) -> record_device d sh = sh.
Proof. unfold record_device. intros [d' ->]. reflexivity. Qed.

Lemma step_seen sh raw :
  is_Some (devices sh !! address_of raw) -> step sh (Received raw) = sh.
Proof.
  intros Hseen. subst step. simpl.
  destruct (accepted _ _ _ raw) as [d|] eqn:Hacc; [|reflexivity].
  apply record_device_seen. rewrite (accepted_address _ _ Hacc). exact Hseen.
Qed.

Lemma once_each_record d sh out :
  once_each sh out -> once_each (record_device d sh) out.
Proof.
  intros [Hnd Hall]. unfold record_device.
  destruct (devices sh !! BLEDevice.address d) eqn:Hlook; [split; assumption|].
  split; simpl.
  - rewrite app_assoc, fmap_app. apply NoDup_app. split; [exact Hnd|].
    split; [|apply NoDup_singleton].
    intros a Ha Hin. apply list_elem_of_singleton in Hin. subst a.
    apply list_elem_of_fmap in Ha as (d' & Haddr & Hd').
    rewrite Forall_forall in Hall. apply Hall in Hd'.
    rewrite <- Haddr, Hlook in Hd'. destruct Hd' as [? ?]. discriminate.
  - rewrite app_assoc. apply Forall_app. split.
    + eapply Forall_impl; [exact Hall|]. intros d' Hd'. simpl in *.
      apply lookup_insert_is_Some'. right. exact Hd'.
    + apply Forall_singleton. apply lookup_insert_is_Some'. left. reflexivity.
Qed.

Lemma once_each_step sh out ev :
  once_each sh out -> once_each (step sh ev) out.
Proof.
  intros H. destruct ev as [raw| |]; try exact H.
  subst step. simpl. destruct (accepted _ _ _ raw); [|exact H].
  apply once_each_record, H.
Qed.

Lemma once_each_steps events sh out :
  once_each sh out -> once_each (fold_left step events sh) out.
Proof.
  revert sh. induction events as [|ev events IH]; intros sh H; simpl; [exact H|].
  apply IH, once_each_step, H.
Qed.

Lemma once_each_poll st out st' out' :
  poll st out = (st', out') ->
  once_each (shared st) out -> once_each (shared st') out'.
Proof.
  unfold poll, once_each.
  destruct (last (new_devices (shared st))) as [d|] eqn:Hlast.
  - apply last_Some in Hlast as [l Hl].
    intros [= <- <-]. simpl. rewrite Hl, removelast_last, <- !app_assoc.
    intros [Hnd Hall]. split.
    + eapply NoDup_Permutation_proper; [|exact Hnd].
      apply fmap_Permutation. apply Permutation_app_head, Permutation_app_comm.
    + eapply Forall_Permutation; [| |exact Hall]; [reflexivity|].
      apply Permutation_app_head, Permutation_app_comm.
  - intros [= <- <-]. exact id.
Qed.

Lemma once_each_receive_loop sched st out :
  once_each (shared st) out ->
  once_each (shared (final (receive_loop callback sched st out)))
            (yielded (receive_loop callback sched st out)).
Proof.
  revert st out. induction sched as [|sl sched IH]; intros st out H; simpl.
  - destruct (scanning (status st)); [|exact H].
    destruct (poll st out) as [st' out'] eqn:Hpoll. simpl.
    eapply once_each_poll; eassumption.
  - destruct (scanning (status st)); [|exact H].
    destruct (poll st out) as [st' out'] eqn:Hpoll.
    apply IH. rewrite shared_sleep. apply once_each_steps.
    eapply once_each_poll; eassumption.
Qed.

Lemma once_each_wait_started sched st :
  once_each (shared st) [] ->
  once_each (shared (fst (wait_started callback sched st))) [].
Proof.
  revert st. induction sched as [|sl sched IH]; intros st H; simpl.
  - destruct (status st); exact H.
  - destruct (status st); try exact H.
    apply IH. rewrite shared_sleep. apply once_each_steps, H.
Qed.

End Session.

Lemma once_each_initial : once_each (shared initial_session) [].
Proof. split; simpl; constructor. Qed.

(** C8: within one scan no address is emitted twice, and an event from an
    address that is already in [devices] leaves the stored device, the
    pending list and the rest of the session as they were. *)
Theorem seen_address_dropped
    (ble_uuid_to_128bit : filter -> result string)
    (mac : mac_arg) (name : filter) (services : option (list filter)) (timeout : Z)
    (starting : list platform_event) (sched : list sleep_slot)
    (mac' : mac_arg) (name' : filter) (services' : option (list filter))
    (st : session) (raw : BluetoothLEAdvertisementReceivedEventArgs.t) :
  is_Some (devices (shared st) !! address_of raw) ->
  deliver (advertisement_watcher__received mac' name' services') st (Received raw) = st /\
  NoDup (addresses
           (yielded (find ble_uuid_to_128bit mac name services timeout starting sched))).
Proof.
  intros Hseen. split.
  - pose proof (shared_deliver mac' name' services' st (Received raw)) as Hsh.
    rewrite step_seen in Hsh by exact Hseen.
    simpl in *. destruct (advertisement_watcher__received _ _ _ _ _) as [sh|]; [|reflexivity].
    simpl in Hsh. subst sh. destruct st; reflexivity.
  - unfold find, addresses.
    destruct (check_filters _ _ _ _) as [[[m n] s]|e]; [|constructor].
    assert (Hstart : once_each
              (shared (fold_left (deliver (advertisement_watcher__received m n s))
                         starting initial_session)) []).
    { rewrite shared_fold_deliver. apply once_each_steps, once_each_initial. }
    pose proof (once_each_wait_started m n s sched _ Hstart) as Hw.
    destruct (wait_started _ _ _) as [st1 [rest|]]; [|constructor].
    simpl in Hw.
    pose proof (once_each_receive_loop m n s rest
                  (set_timer (Some timeout) st1) [] Hw) as [Hnd _].
    change (map BLEDevice.address) with (fmap (M:=list) BLEDevice.address).
    rewrite fmap_app in Hnd. apply NoDup_app in Hnd. apply Hnd.
Qed.

Section Order.

Variable mac : mac_arg.
Variable name : filter.
Variable services : option (list filter).

Let callback := advertisement_watcher__received mac name services.
Let step := store_step mac name services.

(** What an event appends to the pending list depends on [devices] only. *)
Lemma step_delta ev sh :
  exists delta,
    (length delta <= if is_Received ev then 1 else 0)%nat /\
    forall sh2, devices sh2 = devices sh ->
      devices (step sh2 ev) = devices (step sh ev) /\
      new_devices (step sh2 ev) = new_devices sh2 ++ delta.
Proof.
  destruct ev as [raw| |]; simpl;
    try (exists []; split; [simpl; lia|];
         intros sh2 Hd; rewrite app_nil_r; split; [exact Hd|reflexivity]).
  subst step. simpl. destruct (accepted _ _ _ raw) as [d|].
  - unfold record_device.
    destruct (devices sh !! BLEDevice.address d) eqn:Hlook.
    + exists []. split; [simpl; lia|]. intros sh2 Hd.
      rewrite Hd, Hlook, app_nil_r. split; [exact Hd|reflexivity].
    + exists [d]. split; [simpl; lia|]. intros sh2 Hd.
      rewrite Hd, Hlook. simpl. split; reflexivity.
  - exists []. split; [simpl; lia|]. intros sh2 Hd.
    rewrite app_nil_r. split; [exact Hd|reflexivity].
Qed.

Lemma steps_delta events sh :
  exists delta,
    (length delta <= length (List.filter is_Received events))%nat /\
    forall sh2, devices sh2 = devices sh ->
      devices (fold_left step events sh2) = devices (fold_left step events sh) /\
      new_devices (fold_left step events sh2) = new_devices sh2 ++ delta.
Proof.
  revert sh. induction events as [|ev events IH]; intros sh.
  - exists []. split; [simpl; lia|]. intros sh2 Hd.
    simpl. rewrite app_nil_r. split; [exact Hd|reflexivity].
  - destruct (step_delta ev sh) as (d1 & Hlen1 & H1).
    destruct (IH (step sh ev)) as (d2 & Hlen2 & H2).
    exists (d1 ++ d2). split.
    + rewrite length_app. simpl. destruct (is_Received ev); simpl; lia.
    + intros sh2 Hd. simpl.
      destruct (H1 sh2 Hd) as [Hdev1 Hnew1].
      destruct (H2 (step sh2 ev) Hdev1) as [Hdev2 Hnew2].
      split; [exact Hdev2|]. rewrite Hnew2, Hnew1, app_assoc. reflexivity.
Qed.

(** With at most one device pending, a poll empties the pending list. *)
Lemma poll_short st out st' out' :
  (length (new_devices (shared st)) <= 1)%nat ->
  poll st out = (st', out') ->
  new_devices (shared st') = [] /\
  out' = out ++ new_devices (shared st) /\
  devices (shared st') = devices (shared st).
Proof.
  unfold poll. destruct (new_devices (shared st)) as [|d [|d' l]] eqn:Hnew; simpl.
  - intros _ [= <- <-]. rewrite Hnew, app_nil_r. repeat split; reflexivity.
  - intros _ [= <- <-]. repeat split; reflexivity.
  - intros Hlen. lia.
Qed.

Lemma poll_state st out : fst (poll st out) = fst (poll st []).
Proof. unfold poll. destruct (last _); reflexivity. Qed.

Lemma receive_loop_prefix sched st out ref :
  devices (shared st) = devices ref ->
  out ++ new_devices (shared st) = new_devices ref ->
  polls_find_at_most_one callback sched st = true ->
  yielded (receive_loop callback sched st out)
    `prefix_of` new_devices (fold_left step (all_events sched) ref).
Proof.
  revert st out ref. induction sched as [|sl sched IH]; intros st out ref Hdev Hnew Hsparse.
  - simpl in *. destruct (scanning (status st)).
    + rewrite andb_true_r in Hsparse. apply Nat.leb_le in Hsparse.
      destruct (poll st out) as [st' out'] eqn:Hpoll. simpl.
      destruct (poll_short _ _ _ _ Hsparse Hpoll) as (_ & -> & _).
      rewrite Hnew. reflexivity.
    + simpl. rewrite <- Hnew. apply prefix_app_r. reflexivity.
  - destruct (steps_delta (slot_events sl) ref) as (delta & _ & Hdelta).
    unfold all_events. simpl concat. rewrite fold_left_app.
    fold (all_events sched).
    simpl in *. destruct (scanning (status st)).
    + apply andb_prop in Hsparse as [Hlen Hrest]. apply Nat.leb_le in Hlen.
      pose proof (poll_state st out) as Hstate.
      destruct (poll st out) as [st' out'] eqn:Hpoll. simpl in Hstate.
      rewrite <- Hstate in Hrest.
      destruct (poll_short _ _ _ _ Hlen Hpoll) as (Hempty & -> & Hdev').
      assert (Hd : devices (shared st') = devices ref) by congruence.
      destruct (Hdelta _ Hd) as [Hdev2 Hnew2].
      destruct (Hdelta ref eq_refl) as [_ Hnewref].
      apply IH; [| |exact Hrest].
      * rewrite (shared_sleep mac name services). exact Hdev2.
      * rewrite (shared_sleep mac name services).
        fold step. rewrite Hnew2, Hnewref, Hempty, <- Hnew. reflexivity.
    + simpl.
      destruct (steps_delta (all_events sched) (fold_left step (slot_events sl) ref))
        as (delta' & _ & Hdelta').
      destruct (Hdelta' _ eq_refl) as [_ ->].
      destruct (Hdelta ref eq_refl) as [_ ->].
      rewrite <- Hnew, <- !app_assoc. apply prefix_app_r. reflexivity.
Qed.

Lemma poll_extends st out : out `prefix_of` snd (poll st out).
Proof.
  unfold poll. destruct (last _); simpl; [apply prefix_app_r|]; reflexivity.
Qed.

Lemma receive_loop_extends sched st out :
  out `prefix_of` yielded (receive_loop callback sched st out).
Proof.
  revert st out. induction sched as [|sl sched IH]; intros st out; simpl.
  - destruct (scanning (status st)); [|reflexivity].
    pose proof (poll_extends st out) as Hp.
    destruct (poll st out) as [st' out']. exact Hp.
  - destruct (scanning (status st)); [|reflexivity].
    pose proof (poll_extends st out) as Hp.
    destruct (poll st out) as [st' out']. simpl in Hp.
    etransitivity; [exact Hp|apply IH].
Qed.

(** A poll that finds two devices pending emits the later one, and the
    earlier one is not emitted before it any more. *)
Lemma poll_out_of_order st out st' out' (later : list BLEDevice.t) :
  (2 <= length (new_devices (shared st)))%nat ->
  NoDup (BLEDevice.address <$> (out ++ new_devices (shared st))) ->
  poll st out = (st', out') ->
  ~ out' `prefix_of` (out ++ new_devices (shared st)) ++ later.
Proof.
  unfold poll. intros Hlen Hnd.
  destruct (new_devices (shared st)) as [|a pending] eqn:Hnew; [simpl in Hlen; lia|].
  destruct (last (a :: pending)) as [b|] eqn:Hlast.
  - apply last_Some in Hlast as [l Hl].
    intros [= <- <-]. rewrite <- app_assoc. intros Hpre.
    apply prefix_app_inv in Hpre. simpl in Hpre.
    destruct Hpre as [k Hk]. simpl in Hk. injection Hk as Hab _. subst b.
    destruct l as [|a' l]; [injection Hl as ->; simpl in Hlen; lia|].
    injection Hl as <- Hl. rewrite Hl in Hnd.
    rewrite fmap_app in Hnd. apply NoDup_app in Hnd as (_ & _ & Hnd).
    rewrite fmap_cons, fmap_app in Hnd. apply NoDup_cons in Hnd as [Hnot _].
    apply Hnot. apply elem_of_app. right. apply list_elem_of_here.
  - apply last_None in Hlast. discriminate Hlast.
Qed.

Lemma receive_loop_out_of_order sched st out ref :
  devices (shared st) = devices ref ->
  out ++ new_devices (shared st) = new_devices ref ->
  once_each (shared st) out ->
  polls_find_at_most_one callback sched st = false ->
  ~ yielded (receive_loop callback sched st out)
      `prefix_of` new_devices (fold_left step (all_events sched) ref).
Proof.
  revert st out ref.
  induction sched as [|sl sched IH]; intros st out ref Hdev Hnew Honce Hsparse.
  - simpl in *. destruct (scanning (status st)); [|discriminate Hsparse].
    rewrite andb_true_r in Hsparse. apply Nat.leb_gt in Hsparse.
    destruct (poll st out) as [st' out'] eqn:Hpoll. simpl.
    rewrite <- Hnew, <- (app_nil_r (out ++ _)).
    apply (poll_out_of_order st out st' out' []); [lia|apply Honce|exact Hpoll].
  - destruct (steps_delta (slot_events sl) ref) as (delta & _ & Hdelta).
    unfold all_events. simpl concat. rewrite fold_left_app.
    fold (all_events sched).
    simpl in *. destruct (scanning (status st)); [|discriminate Hsparse].
    pose proof (poll_state st out) as Hstate.
    pose proof (once_each_poll st out) as Hpollonce.
    destruct (poll st out) as [st' out'] eqn:Hpoll. simpl in Hstate.
    rewrite <- Hstate in Hsparse.
    destruct (length (new_devices (shared st)) <=? 1)%nat eqn:Hlen.
    + apply Nat.leb_le in Hlen. simpl in Hsparse.
      destruct (poll_short _ _ _ _ Hlen Hpoll) as (Hempty & Hout & Hdev').
      assert (Hd : devices (shared st') = devices ref) by congruence.
      destruct (Hdelta _ Hd) as [Hdev2 Hnew2].
      destruct (Hdelta ref eq_refl) as [_ Hnewref].
      apply IH; [| | |exact Hsparse].
      * rewrite (shared_sleep mac name services). exact Hdev2.
      * rewrite (shared_sleep mac name services).
        fold step. rewrite Hnew2, Hnewref, Hempty, Hout, <- Hnew. reflexivity.
      * rewrite (shared_sleep mac name services).
        apply (once_each_steps mac name services).
        apply (Hpollonce st' out' eq_refl Honce).
    + apply Nat.leb_gt in Hlen. intros Hpre.
      destruct (steps_delta (all_events sched) (fold_left step (slot_events sl) ref))
        as (delta' & _ & Hdelta').
      destruct (Hdelta' _ eq_refl) as [_ Hall].
      destruct (Hdelta ref eq_refl) as [_ Hsl].
      rewrite Hall, Hsl, <- Hnew, <- app_assoc in Hpre.
      apply (poll_out_of_order st out st' out' (delta ++ delta'));
        [lia|apply Honce|exact Hpoll|].
      etransitivity; [|exact Hpre]. apply receive_loop_extends.
Qed.

Lemma wait_started_events sched st st1 rest :
  wait_started callback sched st = (st1, Some rest) ->
  exists consumed,
    sched = consumed ++ rest /\
    shared st1 = fold_left step (all_events consumed) (shared st).
Proof.
  revert st. induction sched as [|sl sched IH]; intros st; simpl.
  - destruct (status st); intros [= <- <-]; exists []; split; reflexivity.
  - destruct (status st);
      try (intros [= <- <-]; exists []; split; reflexivity).
    intros Hw. destruct (IH _ Hw) as (consumed & -> & Hsh).
    exists (sl :: consumed). split; [reflexivity|].
    rewrite Hsh, (shared_sleep mac name services).
    unfold all_events. simpl concat. rewrite fold_left_app. reflexivity.
Qed.

Lemma all_events_app l1 l2 :
  all_events (l1 ++ l2) = all_events l1 ++ all_events l2.
Proof. unfold all_events. rewrite map_app, concat_app. reflexivity. Qed.

End Order.

Section Outcome.

Variable callback :
  BluetoothLEAdvertisementReceivedEventArgs.t -> store -> result store.

Lemma status_poll st out : status (fst (poll st out)) = status st.
Proof. unfold poll. destruct (last _); reflexivity. Qed.

(** The loop ends by itself exactly when the watcher is seen out of
    [Started] and [Stopping]. *)
Lemma receive_loop_outcome sched st out :
  let r := receive_loop callback sched st out in
  (outcome r = StopAsyncIteration /\ scanning (status (final r)) = false) \/
  (outcome r = Suspended /\ scanning (status (final r)) = true).
Proof.
  revert st out. induction sched as [|sl sched IH]; intros st out; simpl.
  - destruct (scanning (status st)) eqn:Hs; [|left; split; [reflexivity|exact Hs]].
    pose proof (status_poll st out) as Hp.
    destruct (poll st out) as [st' out']. simpl in *.
    right. split; [reflexivity|]. rewrite Hp. exact Hs.
  - destruct (scanning (status st)) eqn:Hs; [|left; split; [reflexivity|exact Hs]].
    destruct (poll st out) as [st' out']. apply IH.
Qed.

Lemma wait_started_None sched st st1 :
  wait_started callback sched st = (st1, None) -> status st1 = Created.
Proof.
  revert st. induction sched as [|sl sched IH]; intros st; simpl.
  - destruct (status st) eqn:Hs; intros [= <-]; exact Hs.
  - destruct (status st) eqn:Hs; try discriminate. apply IH.
Qed.

(** A watcher seen [Aborted] and a watcher seen [Stopped] end the loop
    in the same way. *)
Lemma receive_loop_terminal sched st out s :
  s = Aborted \/ s = Stopped ->
  receive_loop callback sched (set_status s st) out =
    {| yielded := out; outcome := StopAsyncIteration; final := set_status s st |}.
Proof. intros [-> | ->]; destruct sched; reflexivity. Qed.

End Outcome.

(** C7 (as the code has it): the devices are emitted in the order in
    which they first matched in the sessions in which no poll of the loop
    finds more than one device pending, and in no other session; the
    callback only skips the addresses it has seen. *)
Theorem emission_in_arrival_order_when_sparse
    (ble_uuid_to_128bit : filter -> result string)
    (mac : mac_arg) (name : filter) (services : option (list filter)) (timeout : Z)
    (starting : list platform_event) (sched : list sleep_slot)
    (mac' : mac_arg) (name' : filter) (services' : option (list filter)) :
  check_filters ble_uuid_to_128bit mac name services = Ok (mac', name', services') ->
  (yielded (find ble_uuid_to_128bit mac name services timeout starting sched)
     `prefix_of`
   arrival_order (advertisement_watcher__received mac' name' services')
     (starting ++ all_events sched))
  <->
  polls_find_at_most_one (advertisement_watcher__received mac' name' services')
    (polled_slots (advertisement_watcher__received mac' name' services') starting sched)
    (set_timer (Some timeout)
       (at_first_poll (advertisement_watcher__received mac' name' services')
          starting sched)) = true.
Proof.
  intros Hcheck. unfold find, arrival_order. rewrite Hcheck.
  unfold at_first_poll, polled_slots.
  assert (Hstart : once_each
            (shared (fold_left (deliver (advertisement_watcher__received mac' name' services'))
                       starting initial_session)) []).
  { rewrite shared_fold_deliver. apply once_each_steps, once_each_initial. }
  pose proof (once_each_wait_started mac' name' services' sched _ Hstart) as Honce.
  rewrite (shared_fold_deliver mac' name' services').
  destruct (wait_started _ sched _) as [st1 [rest|]] eqn:Hw; cbn [fst snd] in *.
  - destruct (wait_started_events _ _ _ _ _ _ _ Hw) as (consumed & -> & Hsh).
    rewrite (shared_fold_deliver mac' name' services') in Hsh.
    rewrite all_events_app, !fold_left_app, <- Hsh.
    split.
    + intros Hpre.
      destruct (polls_find_at_most_one _ rest (set_timer (Some timeout) st1)) eqn:Hsparse;
        [reflexivity|].
      exfalso. revert Hpre.
      apply receive_loop_out_of_order; try assumption; reflexivity.
    + intros Hsparse. apply receive_loop_prefix; try assumption; reflexivity.
  - apply wait_started_None in Hw.
    cbn [polls_find_at_most_one set_timer status]. rewrite Hw.
    split; [reflexivity|intros _; apply prefix_nil].
Qed.

(** C1: with a pattern as the only entry of the services filter and no
    name filter, an event whose services the pattern does not match is
    accepted and recorded, because the test of the loop reads [name] where
    it means [service]; with a pattern as name filter, an event that
    advertises the one service asked for is not recorded, because the name
    pattern is matched against the UUIDs. *)
Theorem services_pattern_entry_not_checked :
  (exists args sh,
     AdvertisementReceivedEventArgs.init Sample.thingy = Ok args /\
     Advertisement.services (AdvertisementReceivedEventArgs.advertisement args)
       = [Sample.battery] /\
     services_satisfied [Sample.device_information_pattern] [Sample.battery] = false /\
     services_filter FNone (Some [Sample.device_information_pattern]) args = Accept /\
     advertisement_watcher__received MNone FNone
       (Some [Sample.device_information_pattern]) Sample.thingy Sample.empty_store
       = Ok sh /\
     addresses (new_devices sh) = ["C0:FF:EE:00:00:01"] /\
     is_Some (devices sh !! "C0:FF:EE:00:00:01")) /\
  (exists args,
     AdvertisementReceivedEventArgs.init Sample.blinky = Ok args /\
     Advertisement.services (AdvertisementReceivedEventArgs.advertisement args)
       = [Sample.device_information] /\
     services_satisfied [FStr Sample.device_information] [Sample.device_information]
       = true /\
     name_filter Sample.nordic_pattern args = Accept /\
     services_filter Sample.nordic_pattern (Some [FStr Sample.device_information]) args
       = Crash AttributeError /\
     advertisement_watcher__received MNone Sample.nordic_pattern
       (Some [FStr Sample.device_information]) Sample.blinky Sample.empty_store
     = Raise AttributeError).
Proof.
  split.
  - eexists. eexists. split; [reflexivity|].
    repeat split; try reflexivity.
    vm_compute. eexists. reflexivity.
  - eexists. split; [reflexivity|]. repeat split; vm_compute; reflexivity.
Qed.

(** When every entry of the services filter is a string and the name
    filter is not a pattern, the loop, and with it the filter, decides
    what the specification says. *)
Lemma services_loop_strings (name : filter) (entries : list filter)
    (advertised : list string) :
  is_Pattern name = false ->
  forallb is_str entries = true ->
  services_loop name entries advertised =
    if services_satisfied entries advertised then Accept else Ignore.
Proof.
  intros Hname. induction entries as [|e entries IH]; [reflexivity|].
  simpl. intros Hall. apply andb_prop in Hall as [He Hall].
  destruct e as [|s| |]; try discriminate. simpl.
  rewrite Hname. simpl.
  destruct (existsb (String.eqb s) advertised); simpl; [apply IH, Hall|reflexivity].
Qed.

Lemma services_filter_strings (name : filter) (entries : list filter)
    (args : AdvertisementReceivedEventArgs.t) :
  is_Pattern name = false ->
  forallb is_str entries = true ->
  entries <> [] ->
  services_filter name (Some entries) args =
    if services_satisfied entries
         (Advertisement.services (AdvertisementReceivedEventArgs.advertisement args))
    then Accept else Ignore.
Proof.
  intros Hname Hall Hne. unfold services_filter.
  destruct entries as [|e entries]; [congruence|].
  destruct (Advertisement.services _) as [|u advertised] eqn:Hadv.
  - simpl in *. apply andb_prop in Hall as [He _].
    destruct e; try discriminate. reflexivity.
  - apply services_loop_strings; assumption.
Qed.

(** C3: with [timeout = -1] (a second, -1000 ms) the call of [stop_scan]
    is due at once.  With nothing in range the sequence ends with no item
    at all; with two devices heard before the first poll it has two items,
    the second emitted after the stop was requested. *)
Theorem negative_timeout_does_not_stop_at_first_device :
  yielded (find Sample.no_uuid_conversion MNone FNone None (-1000) [] Sample.silence) = [] /\
  outcome (find Sample.no_uuid_conversion MNone FNone None (-1000) [] Sample.silence)
    = StopAsyncIteration /\
  addresses (yielded (find Sample.no_uuid_conversion MNone FNone None (-1000) [] Sample.burst))
    = ["C0:FF:EE:00:00:01"; "FA:BD:60:D2:11:3A"] /\
  outcome (find Sample.no_uuid_conversion MNone FNone None (-1000) [] Sample.burst)
    = StopAsyncIteration.
Proof. repeat split; vm_compute; reflexivity. Qed.

(** C4 (as the code has it): when the watcher is [Aborted] the loop of the
    generator is left as it is for [Stopped]: the generator returns, the
    sequence ends with [StopAsyncIteration] and nothing is raised. *)
Theorem abort_ends_iteration_normally
    (ble_uuid_to_128bit : filter -> result string)
    (mac : mac_arg) (name : filter) (services : option (list filter)) (timeout : Z)
    (starting : list platform_event) (sched : list sleep_slot) :
  status (final (find ble_uuid_to_128bit mac name services timeout starting sched))
    = Aborted ->
  outcome (find ble_uuid_to_128bit mac name services timeout starting sched)
    = StopAsyncIteration /\
  forall callback rest st out,
    outcome (receive_loop callback rest (set_status Aborted st) out) =
    outcome (receive_loop callback rest (set_status Stopped st) out) /\
    yielded (receive_loop callback rest (set_status Aborted st) out) =
    yielded (receive_loop callback rest (set_status Stopped st) out).
Proof.
  intros Hfinal. split.
  - unfold find in *.
    destruct (check_filters _ _ _ _) as [[[m n] s]|e]; [|discriminate].
    destruct (wait_started _ _ _) as [st1 [rest|]] eqn:Hw.
    + destruct (receive_loop_outcome (advertisement_watcher__received m n s) rest
                  (set_timer (Some timeout) st1) []) as [[Ho _]|[_ Hs]]; [exact Ho|].
      rewrite Hfinal in Hs. discriminate.
    + apply wait_started_None in Hw. simpl in Hfinal. congruence.
  - intros callback rest st out.
    rewrite !receive_loop_terminal by auto. split; reflexivity.
Qed.

Lemma abort_ends_iteration_normally_witness :
  status (final (find Sample.no_uuid_conversion MNone FNone None 5000 [] Sample.failure))
    = Aborted /\
  outcome (find Sample.no_uuid_conversion MNone FNone None 5000 [] Sample.failure)
    = StopAsyncIteration.
Proof.
  split; [reflexivity|].
  exact (proj1 (abort_ends_iteration_normally Sample.no_uuid_conversion
                  MNone FNone None 5000 [] Sample.failure eq_refl)).
Defined.

(** C4 (as stated) fails: the platform aborts a scan that has emitted one
    device; the caller sees that device and then the ordinary end of the
    sequence, no error. *)
Lemma abort_reported_as_normal_end :
  status (final (find Sample.no_uuid_conversion MNone FNone None 5000 [] Sample.failure))
    = Aborted /\
  addresses (yielded (find Sample.no_uuid_conversion MNone FNone None 5000 [] Sample.failure))
    = ["FA:BD:60:D2:11:3A"] /\
  outcome (find Sample.no_uuid_conversion MNone FNone None 5000 [] Sample.failure)
    = StopAsyncIteration /\
  ~ exists e,
      outcome (find Sample.no_uuid_conversion MNone FNone None 5000 [] Sample.failure)
        = Raised e.
Proof.
  repeat split; try (vm_compute; reflexivity).
  intros [e H]. vm_compute in H. discriminate.
Qed.

(** C7 (as stated) fails: two devices first match during the same sleep,
    A then B; [new_devices.pop()] takes the last of the list, so B is
    emitted before A. *)
Lemma later_match_emitted_first :
  addresses (arrival_order (advertisement_watcher__received MNone FNone None)
               (all_events Sample.two_in_one_sleep))
    = ["FA:BD:60:D2:11:3A"; "C0:FF:EE:00:00:01"] /\
  addresses (yielded (find Sample.no_uuid_conversion MNone FNone None 30 []
                        Sample.two_in_one_sleep))
    = ["C0:FF:EE:00:00:01"; "FA:BD:60:D2:11:3A"] /\
  outcome (find Sample.no_uuid_conversion MNone FNone None 30 [] Sample.two_in_one_sleep)
    = StopAsyncIteration.
Proof. repeat split; vm_compute; reflexivity. Qed.

Lemma emission_in_arrival_order_when_sparse_witness :
  addresses
    (yielded (find Sample.no_uuid_conversion MNone FNone None 30 []
                Sample.response_in_same_sleep))
    = ["FA:BD:60:D2:11:3A"; "C0:FF:EE:00:00:01"] /\
  yielded (find Sample.no_uuid_conversion MNone FNone None 30 []
             Sample.response_in_same_sleep)
    `prefix_of`
  arrival_order (advertisement_watcher__received MNone FNone None)
    ([] ++ all_events Sample.response_in_same_sleep).
Proof.
  split; [vm_compute; reflexivity|].
  apply (emission_in_arrival_order_when_sparse Sample.no_uuid_conversion
           MNone FNone None 30 [] Sample.response_in_same_sleep MNone FNone None).
  - reflexivity.
  - vm_compute. reflexivity.
Defined.

Lemma seen_address_dropped_witness :
  NoDup (addresses
           (yielded (find Sample.no_uuid_conversion MNone FNone None 30 []
                       Sample.one_per_sleep))).
Proof.
  refine (proj2 (seen_address_dropped Sample.no_uuid_conversion MNone FNone None 30 []
                   Sample.one_per_sleep MNone FNone None
                   (deliver (advertisement_watcher__received MNone FNone None)
                      initial_session (Received Sample.blinky))
                   Sample.blinky _)).
  vm_compute. eexists. reflexivity.
Defined.

(** * Further properties of the decoder *)

Lemma string_app_assoc (a b c : string) :
  String.append (String.append a b) c = String.append a (String.append b c).
Proof.
  induction a as [|x a IH]; [reflexivity|].
  change (String x (String.append (String.append a b) c) =
          String x (String.append a (String.append b c))).
  rewrite IH. reflexivity.
Qed.

Lemma string_length_app (a b : string) :
  String.length (String.append a b) = (String.length a + String.length b)%nat.
Proof.
  induction a as [|x a IH]; [reflexivity|].
  change (S (String.length (String.append a b)) = S (String.length a + String.length b)).
  rewrite IH. reflexivity.
Qed.

Lemma string_forall_app (p : ascii -> bool) (a b : string) :
  string_forall p (String.append a b) = string_forall p a && string_forall p b.
Proof.
  induction a as [|x a IH]; [reflexivity|].
  change (p x && string_forall p (String.append a b) =
          p x && string_forall p a && string_forall p b).
  rewrite IH, andb_assoc. reflexivity.
Qed.

Lemma int_of_mac_from_app (v : N) (a b : string) :
  int_of_mac_from v (String.append a b) = int_of_mac_from (int_of_mac_from v a) b.
Proof.
  revert v. induction a as [|x a IH]; intros v; [reflexivity|].
  change (String.append (String x a) b) with (String x (String.append a b)).
  simpl. destruct (hex_value x); apply IH.
Qed.

Lemma hex_digit_value (d : N) :
  (d < 16)%N ->
  hex_value (Py.hex_digit d) = Some d /\ lower_hex (Py.hex_digit d) = true.
Proof.
  intros Hd.
  assert (Hall : forallb (fun k => match hex_value (Py.hex_digit (N.of_nat k)) with
                                   | Some v => N.eqb v (N.of_nat k)
                                   | None => false
                                   end && lower_hex (Py.hex_digit (N.of_nat k)))
                   (seq 0 16) = true) by (vm_compute; reflexivity).
  rewrite forallb_forall in Hall.
  specialize (Hall (N.to_nat d)). rewrite N2Nat.id in Hall.
  assert (Hin : In (N.to_nat d) (seq 0 16)) by (apply in_seq; lia).
  apply Hall in Hin. apply andb_prop in Hin as [Hv Hl].
  split; [|exact Hl].
  destruct (hex_value (Py.hex_digit d)) as [v|]; [|discriminate].
  apply N.eqb_eq in Hv. congruence.
Qed.

(** The digits [hex_of_N] puts in front of [acc]: at most [k] of them for
    a number below [16^k], lowercase, and they read back as the number. *)
Lemma hex_of_N_digits (fuel : nat) :
  forall (k : nat) (n : N) (acc : string),
    (1 <= k)%nat -> (k <= fuel)%nat -> (n < 16 ^ N.of_nat k)%N ->
    exists d,
      Py.hex_of_N fuel n acc = String.append d acc /\
      (1 <= String.length d <= k)%nat /\
      string_forall lower_hex d = true /\
      forall v, int_of_mac_from v d = (v * 16 ^ N.of_nat (String.length d) + n)%N.
Proof.
  induction fuel as [|f IH]; intros k n acc Hk Hkf Hn; [lia|].
  simpl.
  assert (Hmod : (n mod 16 < 16)%N) by (apply N.mod_lt; lia).
  destruct (hex_digit_value _ Hmod) as [Hval Hlow].
  destruct (N.eqb_spec (n / 16) 0) as [Hz|Hnz].
  - exists (String (Py.hex_digit (n mod 16)) EmptyString).
    split; [reflexivity|]. split; [simpl; lia|]. split; [simpl; rewrite Hlow; reflexivity|].
    intros v. simpl. rewrite Hval.
    pose proof (N.div_mod n 16 ltac:(lia)) as Hdm. rewrite Hz in Hdm.
    change (16 ^ N.of_nat 1)%N with 16%N. lia.
  - assert (Hn16 : (16 <= n)%N).
    { destruct (N.lt_ge_cases n 16) as [Hlt|Hge]; [|exact Hge].
      apply N.div_small in Hlt. contradiction. }
    assert (Hk2 : (2 <= k)%nat).
    { destruct k as [|[|k]]; lia. }
    assert (Hdiv : (n / 16 < 16 ^ N.of_nat (k - 1))%N).
    { apply N.Div0.div_lt_upper_bound.
      replace (16 * 16 ^ N.of_nat (k - 1))%N with (16 ^ N.of_nat k)%N; [exact Hn|].
      replace (N.of_nat k) with (N.succ (N.of_nat (k - 1))) by lia.
      rewrite N.pow_succ_r'. reflexivity. }
    destruct (IH (k - 1)%nat (n / 16)%N
                (String (Py.hex_digit (n mod 16)) acc) ltac:(lia) ltac:(lia) Hdiv)
      as (d & Heq & Hlen & Hall & Hread).
    exists (String.append d (String (Py.hex_digit (n mod 16)) EmptyString)).
    split; [rewrite Heq, string_app_assoc; reflexivity|].
    split; [rewrite string_length_app; simpl; lia|].
    split; [rewrite string_forall_app, Hall; simpl; rewrite Hlow; reflexivity|].
    intros v. rewrite int_of_mac_from_app, Hread. simpl. rewrite Hval.
    rewrite string_length_app. simpl String.length.
    replace (N.of_nat (String.length d + 1)) with (N.succ (N.of_nat (String.length d))) by lia.
    rewrite N.pow_succ_r'.
    pose proof (N.div_mod n 16 ltac:(lia)) as Hdm. lia.
Qed.

Lemma zeros_spec (n : nat) :
  String.length (Py.zeros n) = n /\
  string_forall lower_hex (Py.zeros n) = true /\
  forall v, int_of_mac_from v (Py.zeros n) = (v * 16 ^ N.of_nat n)%N.
Proof.
  induction n as [|n (Hlen & Hall & Hread)].
  - repeat split. intros v. simpl. lia.
  - split; [simpl; rewrite Hlen; reflexivity|].
    split; [simpl; exact Hall|].
    intros v. simpl int_of_mac_from.
    change (hex_value "0"%char) with (Some 0%N). simpl. rewrite Hread.
    replace (N.of_nat (S n)) with (N.succ (N.of_nat n)) by lia.
    rewrite N.pow_succ_r'. lia.
Qed.

(** [{:012x}] of a 48-bit number: twelve lowercase digits that read back
    as the number. *)
Lemma format_012x_spec (n : Z) :
  0 <= n < 2 ^ 48 ->
  String.length (Py.format_012x n) = 12%nat /\
  string_forall lower_hex (Py.format_012x n) = true /\
  int_of_mac (Py.format_012x n) = Z.to_N n.
Proof.
  intros Hn. unfold Py.format_012x.
  set (m := Z.to_N n).
  assert (Hm : (m < 16 ^ N.of_nat 12)%N).
  { change (16 ^ N.of_nat 12)%N with (Z.to_N (2 ^ 48)). subst m. lia. }
  assert (Hfuel : (12 <= S (N.to_nat (N.size m)))%nat \/ (m < 16 ^ N.of_nat (S (N.to_nat (N.size m))))%N).
  { right.
    assert (Hs : (m < 2 ^ N.size m)%N).
    { destruct m as [|p]; [reflexivity|]. apply N.size_gt. }
    eapply N.lt_le_trans; [exact Hs|].
    replace (N.of_nat (S (N.to_nat (N.size m)))) with (N.succ (N.size m)) by lia.
    rewrite N.pow_succ_r'.
    assert (H2 : (2 ^ N.size m <= 16 ^ N.size m)%N) by (apply N.pow_le_mono_l; lia).
    lia. }
  set (fuel := S (N.to_nat (N.size m))) in *.
  (* the number of digits is at most twelve, and at most the fuel *)
  assert (Hd : exists d,
             Py.hex_of_N fuel m "" = String.append d "" /\
             (1 <= String.length d <= 12)%nat /\
             string_forall lower_hex d = true /\
             forall v, int_of_mac_from v d = (v * 16 ^ N.of_nat (String.length d) + m)%N).
  { destruct (Nat.le_gt_cases 12 fuel) as [Hge|Hlt].
    - apply (hex_of_N_digits fuel 12 m ""); [lia|exact Hge|exact Hm].
    - destruct Hfuel as [Hf|Hf]; [lia|].
      destruct (hex_of_N_digits fuel fuel m "" ltac:(subst fuel; lia) ltac:(lia) Hf)
        as (d & Heq & Hlen & Hrest).
      exists d. split; [exact Heq|]. split; [lia|exact Hrest]. }
  destruct Hd as (d & Heq & Hlen & Hall & Hread).
  assert (Hnil : forall s, String.append s "" = s).
  { induction s as [|x s IH]; [reflexivity|].
    change (String x (String.append s "") = String x s). rewrite IH. reflexivity. }
  rewrite Heq, Hnil.
  destruct (zeros_spec (12 - String.length d)) as (Hzl & Hza & Hzr).
  split; [rewrite string_length_app, Hzl; lia|].
  split; [rewrite string_forall_app, Hza, Hall; reflexivity|].
  unfold int_of_mac. rewrite int_of_mac_from_app, Hzr, Hread. lia.
Qed.

(** The text [format] hands to [str.upper] is ASCII for every integer, so
    that [Py.upper] does to it what [str.upper] does. *)
Lemma hex_of_N_lower (fuel : nat) (n : N) (acc : string) :
  string_forall lower_hex acc = true ->
  string_forall lower_hex (Py.hex_of_N fuel n acc) = true.
Proof.
  revert n acc. induction fuel as [|f IH]; intros n acc Hacc; [exact Hacc|].
  assert (Hmod : (n mod 16 < 16)%N) by (apply N.mod_lt; lia).
  destruct (hex_digit_value _ Hmod) as [_ Hlow].
  simpl. destruct (n / 16 =? 0)%N.
  - simpl. rewrite Hlow. exact Hacc.
  - apply IH. simpl. rewrite Hlow. exact Hacc.
Qed.

Lemma format_012x_lower (n : Z) :
  string_forall lower_hex (Py.format_012x n) = true.
Proof.
  unfold Py.format_012x. rewrite string_forall_app.
  destruct (zeros_spec (12 - String.length
              (Py.hex_of_N (S (N.to_nat (N.size (Z.to_N n)))) (Z.to_N n) "")))
    as (_ & -> & _).
  apply hex_of_N_lower. reflexivity.
Qed.

Lemma lower_hex_ascii (s : string) :
  string_forall lower_hex s = true ->
  string_forall (fun c => (N_of_ascii c <? 128)%N) s = true.
Proof.
  induction s as [|c s IH]; intros Hall; [reflexivity|].
  simpl in Hall. apply andb_prop in Hall as [Hc Hs].
  simpl. rewrite (IH Hs), andb_true_r.
  destruct c as [[] [] [] [] [] [] [] []]; try discriminate Hc; reflexivity.
Qed.

Lemma address_digits_upper (n : Z) :
  Str.upper (Str.of_string (Py.format_012x n)) =
  Str.of_string (Py.upper (Py.format_012x n)).
Proof. apply upper_of_ascii_text, lower_hex_ascii, format_012x_lower. Qed.

Lemma upper_lower_hex (c : ascii) :
  lower_hex c = true ->
  upper_hex (Py.upper_ascii c) = true /\ hex_value (Py.upper_ascii c) = hex_value c.
Proof.
  destruct c as [[] [] [] [] [] [] [] []]; intros H; try discriminate H;
    split; reflexivity.
Qed.

Lemma upper_spec (s : string) :
  string_forall lower_hex s = true ->
  String.length (Py.upper s) = String.length s /\
  string_forall upper_hex (Py.upper s) = true /\
  forall v, int_of_mac_from v (Py.upper s) = int_of_mac_from v s.
Proof.
  induction s as [|c s IH]; intros Hall; [repeat split|].
  simpl in Hall. apply andb_prop in Hall as [Hc Hs].
  destruct (IH Hs) as (Hlen & Hup & Hread).
  destruct (upper_lower_hex c Hc) as [Huc Hvc].
  split; [simpl; rewrite Hlen; reflexivity|].
  split; [simpl; rewrite Huc, Hup; reflexivity|].
  intros v. simpl. rewrite Hvc. destruct (hex_value c); apply Hread.
Qed.

Lemma rejoin_pairs_unfold (a b c : ascii) (r : string) :
  rejoin_pairs (String a (String b (String c r))) =
  String a (String b (String ":" (rejoin_pairs (String c r)))).
Proof. reflexivity. Qed.

(** The colons that [rejoin_pairs] puts in are skipped when the digits are
    read back. *)
Lemma rejoin_pairs_value (s : string) :
  forall v, int_of_mac_from v (rejoin_pairs s) = int_of_mac_from v s.
Proof.
  remember (String.length s) as n eqn:Hn.
  revert s Hn. induction n as [n IH] using lt_wf_ind. intros s Hn v.
  destruct s as [|a [|b [|c r]]]; try reflexivity.
  rewrite rejoin_pairs_unfold.
  assert (Hskip : forall w X Y,
            (forall u, int_of_mac_from u X = int_of_mac_from u Y) ->
            int_of_mac_from w (String a (String b X)) =
            int_of_mac_from w (String a (String b Y))).
  { intros w X Y HXY. simpl. destruct (hex_value a), (hex_value b); apply HXY. }
  apply Hskip. intros u.
  change (int_of_mac_from u (String ":" (rejoin_pairs (String c r))))
    with (int_of_mac_from u (rejoin_pairs (String c r))).
  apply (IH (String.length (String c r))); [subst n; simpl; lia|reflexivity].
Qed.

Lemma rejoin_pairs_length (s : string) :
  String.length (rejoin_pairs s) =
  (String.length s + (String.length s - 1) / 2)%nat.
Proof.
  remember (String.length s) as n eqn:Hn.
  revert s Hn. induction n as [n IH] using lt_wf_ind. intros s Hn.
  destruct s as [|a [|b [|c r]]]; subst n; try reflexivity.
  rewrite rejoin_pairs_unfold.
  change (String.length (String a (String b (String ":" (rejoin_pairs (String c r))))))
    with (S (S (S (String.length (rejoin_pairs (String c r)))))).
  rewrite (IH (String.length (String c r))) by (simpl; lia || reflexivity).
  change (String.length (String a (String b (String c r))))
    with (S (S (String.length (String c r)))).
  set (m := String.length (String c r)).
  assert (Hm : (1 <= m)%nat) by (subst m; simpl; lia).
  replace (S (S m) - 1)%nat with (2 + (m - 1))%nat by lia.
  replace ((2 + (m - 1)) / 2)%nat with (1 + (m - 1) / 2)%nat; [lia|].
  change (2 + (m - 1))%nat with (1 * 2 + (m - 1))%nat.
  rewrite Nat.div_add_l by lia. reflexivity.
Qed.

Lemma rejoin_pairs_shape (g : nat) :
  forall s,
    String.length s = (2 * S g)%nat ->
    string_forall upper_hex s = true ->
    address_shape (S g) (rejoin_pairs s) = true.
Proof.
  induction g as [|g IH]; intros s Hlen Hall.
  - destruct s as [|a [|b [|c r]]]; try discriminate Hlen.
    simpl in *. repeat rewrite andb_true_r in Hall. exact Hall.
  - destruct s as [|a [|b [|c r]]]; simpl in Hlen; try lia.
    rewrite rejoin_pairs_unfold.
    simpl in Hall. apply andb_prop in Hall as [Ha Hall].
    apply andb_prop in Hall as [Hb Hall].
    change (address_shape (S (S g)) (String a (String b (String ":" (rejoin_pairs (String c r))))))
      with (upper_hex a && upper_hex b && Ascii.eqb ":" ":" && address_shape (S g) (rejoin_pairs (String c r))).
    rewrite Ha, Hb, Ascii.eqb_refl. cbn [andb].
    apply IH; [simpl; lia|exact Hall].
Qed.

(** The text of a 48-bit address. *)
Lemma address_text (a : Z) :
  0 <= a < 2 ^ 48 ->
  let text := Py.join_byte_pairs (Py.upper (Py.format_012x a)) in
  address_shape 6 text = true /\
  String.length text = 17%nat /\
  Z.of_N (int_of_mac text) = a.
Proof.
  intros Ha text. subst text.
  destruct (format_012x_spec a Ha) as (Hlen & Hlow & Hval).
  destruct (upper_spec _ Hlow) as (Hulen & Hup & Hread).
  rewrite join_byte_pairs_rejoin.
  split; [apply rejoin_pairs_shape; [rewrite Hulen, Hlen; reflexivity|exact Hup]|].
  split; [rewrite rejoin_pairs_length, Hulen, Hlen; reflexivity|].
  unfold int_of_mac. rewrite rejoin_pairs_value, Hread.
  fold (int_of_mac (Py.format_012x a)). rewrite Hval. lia.
Qed.

(** X4: for a 48-bit [BluetoothAddress] the decoded [bluetooth_address] has
    the form XX:XX:XX:XX:XX:XX in uppercase hexadecimal digits, and its
    digits read back as the address; two such events with the same text
    come from the same address. *)
Theorem bluetooth_address_round_trip
    (raw raw' : BluetoothLEAdvertisementReceivedEventArgs.t)
    (args args' : AdvertisementReceivedEventArgs.t) :
  0 <= BluetoothLEAdvertisementReceivedEventArgs.BluetoothAddress raw < 2 ^ 48 ->
  0 <= BluetoothLEAdvertisementReceivedEventArgs.BluetoothAddress raw' < 2 ^ 48 ->
  AdvertisementReceivedEventArgs.init raw = Ok args ->
  AdvertisementReceivedEventArgs.init raw' = Ok args' ->
  address_shape 6 (AdvertisementReceivedEventArgs.bluetooth_address args) = true /\
  String.length (AdvertisementReceivedEventArgs.bluetooth_address args) = 17%nat /\
  Z.of_N (int_of_mac (AdvertisementReceivedEventArgs.bluetooth_address args)) =
    BluetoothLEAdvertisementReceivedEventArgs.BluetoothAddress raw /\
  (AdvertisementReceivedEventArgs.bluetooth_address args =
   AdvertisementReceivedEventArgs.bluetooth_address args' ->
   BluetoothLEAdvertisementReceivedEventArgs.BluetoothAddress raw =
   BluetoothLEAdvertisementReceivedEventArgs.BluetoothAddress raw').
Proof.
  intros Ha Ha' Hinit Hinit'.
  apply bluetooth_address_init in Hinit, Hinit'. rewrite Hinit, Hinit'.
  destruct (address_text _ Ha) as (Hshape & Hlen & Hval).
  destruct (address_text _ Ha') as (_ & _ & Hval').
  unfold address_of. repeat split; try assumption.
  intros Heq. rewrite <- Hval, <- Hval'. unfold address_of in Heq.
  rewrite Heq. reflexivity.
Qed.

Lemma bluetooth_address_round_trip_witness :
  exists args,
    AdvertisementReceivedEventArgs.init Sample.blinky = Ok args /\
    Z.of_N (int_of_mac (AdvertisementReceivedEventArgs.bluetooth_address args)) =
      0xFABD60D2113A.
Proof.
  eexists. split; [reflexivity|].
  refine (proj1 (proj2 (proj2 (bluetooth_address_round_trip Sample.blinky Sample.thingy
            _ _ _ _ eq_refl eq_refl)))); simpl; lia.
Defined.

Lemma GAPDataType_call_inv (code : Z) (t : GAPDataType) :
  GAPDataType_call code = Ok t -> GAPDataType_value t = code.
Proof.
  unfold GAPDataType_call.
  destruct (List.find _ _) as [t'|] eqn:Hfind; [|discriminate].
  intros [= <-]. apply find_some in Hfind as [_ Heq]. apply Z.eqb_eq, Heq.
Qed.

Lemma GAPDataType_call_raises (code : Z) (e : exn) :
  GAPDataType_call code = Raise e ->
  e = ValueError /\ forall t, GAPDataType_value t <> code.
Proof.
  intros Hcall. split.
  - unfold GAPDataType_call in Hcall. destruct (List.find _ _); congruence.
  - intros t Ht. rewrite <- Ht, GAPDataType_call_value in Hcall. discriminate.
Qed.

Lemma AdvertisementType_call_value (t : AdvertisementType) :
  AdvertisementType_call (AdvertisementType_value t) = Ok t.
Proof. destruct t; reflexivity. Qed.

Lemma AdvertisementType_call_spec (code : Z) :
  match AdvertisementType_call code with
  | Ok t => AdvertisementType_value t = code
  | Raise e => e = ValueError /\ ~ 0 <= code <= 4
  end.
Proof.
  destruct code as [|p|p]; simpl; [reflexivity| |split; [reflexivity|lia]].
  destruct p as [[p|p|]|[p|[p|p|]|]|]; simpl; try reflexivity; split; try reflexivity; lia.
Qed.

(** X1: the two enumerations are in one-to-one correspondence with their
    values ([enum.unique]): the call by value gives back the member, a
    member found by a call has the value asked for, and a call raises,
    with [ValueError], exactly on the values no member has. *)
Theorem enum_members_and_values (code : Z) :
  (forall t, GAPDataType_call (GAPDataType_value t) = Ok t) /\
  (forall t t', GAPDataType_value t = GAPDataType_value t' -> t = t') /\
  match GAPDataType_call code with
  | Ok t => GAPDataType_value t = code
  | Raise e => e = ValueError /\ forall t, GAPDataType_value t <> code
  end /\
  (forall t, AdvertisementType_call (AdvertisementType_value t) = Ok t) /\
  match AdvertisementType_call code with
  | Ok t => AdvertisementType_value t = code
  | Raise e => e = ValueError /\ ~ 0 <= code <= 4
  end.
Proof.
  split; [exact GAPDataType_call_value|]. split.
  { intros t t' Heq.
    pose proof (GAPDataType_call_value t) as Ht. rewrite Heq, GAPDataType_call_value in Ht.
    congruence. }
  split.
  { destruct (GAPDataType_call code) as [t|e] eqn:Hcall.
    - apply GAPDataType_call_inv, Hcall.
    - apply GAPDataType_call_raises, Hcall. }
  split; [exact AdvertisementType_call_value|apply AdvertisementType_call_spec].
Qed.

Lemma DataSection_init_spec (ds : BluetoothLEAdvertisementDataSection.t) :
  match DataSection.init ds with
  | Ok s => decoded_section s = raw_section ds
  | Raise e => e = ValueError /\ ~ listed ds
  end.
Proof.
  unfold DataSection.init.
  destruct (GAPDataType_call _) as [t|e] eqn:Hcall; simpl.
  - unfold decoded_section, raw_section. simpl.
    rewrite (GAPDataType_call_inv _ _ Hcall). reflexivity.
  - apply GAPDataType_call_raises in Hcall as [-> Hno].
    split; [reflexivity|]. intros [t Ht]. exact (Hno t Ht).
Qed.

Lemma sections_comprehension (l : list BluetoothLEAdvertisementDataSection.t) :
  match comprehension DataSection.init l with
  | Ok sections => Forall listed l /\ map decoded_section sections = map raw_section l
  | Raise e => e = ValueError /\ ~ Forall listed l
  end.
Proof.
  induction l as [|ds l IH]; simpl; [split; [constructor|reflexivity]|].
  pose proof (DataSection_init_spec ds) as Hds.
  destruct (DataSection.init ds) as [s|e]; simpl.
  - destruct (comprehension DataSection.init l) as [sections|e]; simpl.
    + destruct IH as [Hall Hmap]. split.
      * constructor; [|exact Hall].
        exists (DataSection.data_type s).
        unfold decoded_section, raw_section in Hds. congruence.
      * simpl. rewrite Hds, Hmap. reflexivity.
    + destruct IH as [-> Hnot]. split; [reflexivity|].
      intros Hall. inversion Hall; subst. contradiction.
  - destruct Hds as [-> Hnot]. split; [reflexivity|].
    intros Hall. inversion Hall; subst. contradiction.
Qed.

(** X2: an advertisement is decoded exactly when every type code of its
    sections is a value of [GAPDataType]; the decoded record then holds the
    sections in their order with their codes and payloads, the local name,
    the service UUIDs and the manufacturer data as the platform gave them.
    Otherwise the constructor raises [ValueError]. *)
Theorem advertisement_decoded_iff_codes_listed (args : BluetoothLEAdvertisement.t) :
  match Advertisement.init args with
  | Ok adv =>
      Forall listed (BluetoothLEAdvertisement.DataSections args) /\
      map decoded_section (Advertisement.data_sections adv) =
        map raw_section (BluetoothLEAdvertisement.DataSections args) /\
      Advertisement.local_name adv = BluetoothLEAdvertisement.LocalName args /\
      Advertisement.services adv = BluetoothLEAdvertisement.ServiceUuids args /\
      map (fun m => (ManufacturerData.company_id m, ManufacturerData.data m))
          (Advertisement.manufacturer_data adv) =
        map (fun m => (BluetoothLEManufacturerData.CompanyId m,
                       BluetoothLEManufacturerData.Data m))
            (BluetoothLEAdvertisement.ManufacturerData args)
  | Raise e =>
      e = ValueError /\ ~ Forall listed (BluetoothLEAdvertisement.DataSections args)
  end.
Proof.
  unfold Advertisement.init.
  pose proof (sections_comprehension (BluetoothLEAdvertisement.DataSections args)) as H.
  destruct (comprehension _ _) as [sections|e]; simpl; [|exact H].
  destruct H as [Hall Hmap]. repeat split; try assumption.
  rewrite map_map. reflexivity.
Qed.

(** X3: an event is decoded exactly when its advertisement is and its
    packet type is one of 0 to 4; nothing but [ValueError] is raised.  The
    decoded event carries that advertisement, the member with the packet
    type as value, the signal strength, and the timestamp with the
    milliseconds turned into microseconds. *)
Theorem event_decoded_iff (raw : BluetoothLEAdvertisementReceivedEventArgs.t) :
  match AdvertisementReceivedEventArgs.init raw with
  | Ok args =>
      Advertisement.init (BluetoothLEAdvertisementReceivedEventArgs.Advertisement raw)
        = Ok (AdvertisementReceivedEventArgs.advertisement args) /\
      AdvertisementType_value (AdvertisementReceivedEventArgs.advertisement_type args)
        = BluetoothLEAdvertisementReceivedEventArgs.AdvertisementType raw /\
      AdvertisementReceivedEventArgs.raw_signal_strength_in_dBm args
        = BluetoothLEAdvertisementReceivedEventArgs.RawSignalStrengthInDBm raw /\
      datetime.microsecond (AdvertisementReceivedEventArgs.timestamp args)
        = 1000 * DateTimeOffset.Millisecond
                   (BluetoothLEAdvertisementReceivedEventArgs.Timestamp raw)
  | Raise e =>
      e = ValueError /\
      (~ Forall listed
           (BluetoothLEAdvertisement.DataSections
              (BluetoothLEAdvertisementReceivedEventArgs.Advertisement raw)) \/
       ~ 0 <= BluetoothLEAdvertisementReceivedEventArgs.AdvertisementType raw <= 4)
  end.
Proof.
  unfold AdvertisementReceivedEventArgs.init.
  assert (Hadv : match Advertisement.init
                         (BluetoothLEAdvertisementReceivedEventArgs.Advertisement raw) with
                 | Ok _ => True
                 | Raise e =>
                     e = ValueError /\
                     ~ Forall listed
                         (BluetoothLEAdvertisement.DataSections
                            (BluetoothLEAdvertisementReceivedEventArgs.Advertisement raw))
                 end).
  { unfold Advertisement.init.
    pose proof (sections_comprehension
                  (BluetoothLEAdvertisement.DataSections
                     (BluetoothLEAdvertisementReceivedEventArgs.Advertisement raw))) as H.
    destruct (comprehension _ _); simpl; [exact I|exact H]. }
  destruct (Advertisement.init _) as [adv|e]; simpl.
  - pose proof (AdvertisementType_call_spec
                  (BluetoothLEAdvertisementReceivedEventArgs.AdvertisementType raw)) as Hty.
    destruct (AdvertisementType_call _) as [ty|e]; simpl.
    + repeat split. exact Hty.
    + destruct Hty as [-> Hty]. split; [reflexivity|right; exact Hty].
  - destruct Hadv as [-> Hadv]. split; [reflexivity|left; exact Hadv].
Qed.

Lemma filter_nil_iff {A : Type} (p : A -> bool) (l : list A) :
  List.filter p l = [] <-> Forall (fun x => p x = false) l.
Proof.
  induction l as [|x l IH]; simpl; [split; [constructor|reflexivity]|].
  destruct (p x) eqn:Hp; split; intros H.
  - discriminate.
  - inversion H; subst. congruence.
  - constructor; [exact Hp|apply IH, H].
  - inversion H; subst. apply IH. assumption.
Qed.

Lemma has_type_code (ty : GAPDataType) (s : DataSection.t) :
  has_type ty s = false <-> fst (decoded_section s) <> GAPDataType_value ty.
Proof.
  unfold has_type, GAPDataType_eqb, decoded_section. simpl.
  rewrite Z.eqb_neq. reflexivity.
Qed.

Lemma field_absent_iff (ty : GAPDataType)
    (l : list BluetoothLEAdvertisementDataSection.t) (sections : list DataSection.t) :
  map decoded_section sections = map raw_section l ->
  decoded_int <$> last (List.filter (has_type ty) sections) = None <->
  Forall (fun ds => BluetoothLEAdvertisementDataSection.DataType ds <> GAPDataType_value ty) l.
Proof.
  intros Hmap.
  rewrite fmap_None, last_None, filter_nil_iff.
  transitivity (Forall (fun p : Z * list byte => fst p <> GAPDataType_value ty)
                  (map decoded_section sections)).
  - rewrite List.Forall_map. apply Forall_iff. intros s. apply has_type_code.
  - rewrite Hmap, List.Forall_map. reflexivity.
Qed.

(** X5: [appearance] is [None] exactly when no section has the type code
    0x19, [tx_power_level] exactly when none has 0x0A; a value that is
    there is not negative. *)
Theorem singleton_field_present_iff
    (args : BluetoothLEAdvertisement.t) (adv : Advertisement.t) :
  Advertisement.init args = Ok adv ->
  (Advertisement.appearance adv = None <->
   Forall (fun ds => BluetoothLEAdvertisementDataSection.DataType ds <> 0x19)
     (BluetoothLEAdvertisement.DataSections args)) /\
  (Advertisement.tx_power_level adv = None <->
   Forall (fun ds => BluetoothLEAdvertisementDataSection.DataType ds <> 0x0A)
     (BluetoothLEAdvertisement.DataSections args)) /\
  (forall v, Advertisement.appearance adv = Some v \/
             Advertisement.tx_power_level adv = Some v -> 0 <= v).
Proof.
  unfold Advertisement.init. intros Hinit.
  pose proof (sections_comprehension (BluetoothLEAdvertisement.DataSections args)) as Hsec.
  destruct (comprehension _ _) as [sections|e]; [|discriminate].
  destruct Hsec as [_ Hmap]. simpl in Hinit. injection Hinit as <-. simpl.
  rewrite parse_known_fold. simpl.
  split; [apply (field_absent_iff Appearance), Hmap|].
  split; [apply (field_absent_iff Tx_Power_Level), Hmap|].
  intros v [Hv|Hv]; destruct (last _) as [s|]; simpl in Hv; try discriminate;
    injection Hv as <-; apply int_from_bytes_big_nonneg.
Qed.

Lemma singleton_field_present_iff_witness :
  exists adv, Advertisement.init Sample.tx_minus_16 = Ok adv /\
    Advertisement.appearance adv = None.
Proof.
  eexists. split; [reflexivity|].
  apply (proj1 (singleton_field_present_iff Sample.tx_minus_16 _ eq_refl)).
  repeat constructor; simpl; discriminate.
Defined.

(** ** The MAC filter *)

Lemma upper_fixed (l : Str.t) :
  Forall (fun x => Str.upper_char x = [x]) l -> Str.upper l = l.
Proof.
  unfold Str.upper. induction 1 as [|x l Hx _ IH]; [reflexivity|].
  simpl. rewrite Hx, IH. reflexivity.
Qed.

Lemma normalize_mac_idempotent (s : Str.t) :
  normalize_mac (normalize_mac s) = normalize_mac s.
Proof.
  rewrite (normalize_mac_kept s).
  pose proof (kept_characters_class s) as Hclass.
  set (d := kept_characters s) in *.
  rewrite normalize_mac_kept. unfold kept_characters.
  assert (Hup : Str.upper (colon_pairs d) = colon_pairs d).
  { apply upper_fixed, colon_pairs_Forall; [vm_compute; reflexivity|].
    revert Hclass. apply List.Forall_impl. intros x. apply upper_char_class. }
  rewrite Hup. unfold Str.re_sub_non_hex.
  rewrite (filter_colon_pairs Str.in_class_AF_digit d); [reflexivity| |exact Hclass].
  vm_compute. reflexivity.
Qed.

(** X6: checking a MAC or name filter that has already been checked changes
    nothing: a normalised MAC string is its own normal form. *)
Theorem checked_filter_is_fixed (f m : mac_arg) :
  check_mac f = Ok m ->
  check_mac m = Ok m /\
  (forall g n : filter, check_name g = Ok n -> check_name n = Ok n).
Proof.
  intros Hf. split.
  - destruct f as [|s|p|b].
    + injection Hf as <-. reflexivity.
    + rewrite check_mac_str in Hf. injection Hf as <-.
      rewrite check_mac_str, normalize_mac_idempotent. reflexivity.
    + injection Hf as <-. reflexivity.
    + destruct b; [discriminate|]. injection Hf as <-. reflexivity.
  - intros g n Hn. unfold check_name in *.
    destruct (truthy g && negb (is_str g || is_Pattern g)) eqn:Hc; [discriminate|].
    injection Hn as <-. rewrite Hc. reflexivity.
Qed.

Lemma checked_filter_is_fixed_witness :
  check_mac (MStr Sample.ligature_mac) = Ok (MStr (Str.of_string "FF:AA:BB:CC:DD:EE")) /\
  check_mac (MStr (Str.of_string "FF:AA:BB:CC:DD:EE")) =
    Ok (MStr (Str.of_string "FF:AA:BB:CC:DD:EE")).
Proof.
  split; [vm_compute; reflexivity|].
  exact (proj1 (checked_filter_is_fixed (MStr Sample.ligature_mac)
                  (MStr (Str.of_string "FF:AA:BB:CC:DD:EE")) eq_refl)).
Defined.

Lemma mac_filter_str (t : Str.t) (args : AdvertisementReceivedEventArgs.t) :
  mac_filter (MStr t) args =
    match t with
    | [] => Accept
    | _ :: _ =>
        if Str.eqb t (Str.of_string (AdvertisementReceivedEventArgs.bluetooth_address args))
        then Accept else Ignore
    end.
Proof.
  unfold mac_filter. destruct t as [|x t]; [reflexivity|].
  cbn [mac_truthy length Nat.eqb negb mac_is_str mac_str_ne andb mac_is_Pattern].
  destruct (Str.eqb _ _); reflexivity.
Qed.

(** The text of an address, as code points. *)
Lemma of_string_rejoin_pairs (u : string) :
  Str.of_string (rejoin_pairs u) = colon_pairs (Str.of_string u).
Proof.
  remember (String.length u) as n eqn:Hn.
  revert u Hn. induction n as [n IH] using lt_wf_ind. intros u Hn.
  destruct u as [|a [|b [|c r]]]; [reflexivity..|].
  rewrite rejoin_pairs_unfold.
  change (Str.of_string (String a (String b (String ":" (rejoin_pairs (String c r))))))
    with (N_of_ascii a :: N_of_ascii b :: 58%N :: Str.of_string (rejoin_pairs (String c r))).
  rewrite (IH (String.length (String c r)) ltac:(subst n; simpl; lia) (String c r) eq_refl).
  reflexivity.
Qed.

Lemma upper_hex_code_point (c : ascii) :
  upper_hex c = true ->
  is_hex_digit (N_of_ascii c) = true /\ N_of_ascii c <> 58%N.
Proof.
  destruct c as [[] [] [] [] [] [] [] []]; intros H; try discriminate H;
    (split; [reflexivity|discriminate]).
Qed.

Lemma of_string_upper_hex (u : string) :
  string_forall upper_hex u = true ->
  Forall (fun x => is_hex_digit x = true /\ x <> 58%N) (Str.of_string u).
Proof.
  induction u as [|c u IH]; intros Hall; [constructor|].
  simpl in Hall. apply andb_prop in Hall as [Hc Hu].
  simpl. constructor; [apply upper_hex_code_point, Hc|apply IH, Hu].
Qed.

(** X7: what a string given as MAC filter selects among the events from
    48-bit addresses, by the characters its normalisation keeps.  With
    none kept, every event: the normalised filter is the empty string,
    which the callback takes for no filter.  Otherwise exactly the events
    whose twelve address digits are the kept characters; so no event at
    all when the kept characters are not twelve, or when one of them is
    not a hexadecimal digit. *)
Theorem mac_string_filter_by_kept_characters (s : Str.t) (m : mac_arg)
    (raw : BluetoothLEAdvertisementReceivedEventArgs.t)
    (args : AdvertisementReceivedEventArgs.t) :
  check_mac (MStr s) = Ok m ->
  0 <= BluetoothLEAdvertisementReceivedEventArgs.BluetoothAddress raw < 2 ^ 48 ->
  AdvertisementReceivedEventArgs.init raw = Ok args ->
  (kept_characters s = [] -> mac_filter m args = Accept) /\
  (kept_characters s <> [] ->
     (mac_filter m args = Accept <->
      kept_characters s =
        Str.of_string
          (Py.upper (Py.format_012x
             (BluetoothLEAdvertisementReceivedEventArgs.BluetoothAddress raw))))) /\
  (kept_characters s <> [] -> length (kept_characters s) <> 12%nat ->
     mac_filter m args = Ignore) /\
  (Exists (fun c => is_hex_digit c = false) (kept_characters s) ->
     mac_filter m args = Ignore).
Proof.
  rewrite check_mac_str. intros [= <-] Haddr Hinit.
  apply bluetooth_address_init in Hinit.
  rewrite mac_filter_str, Hinit, normalize_mac_kept. unfold address_of.
  set (a := BluetoothLEAdvertisementReceivedEventArgs.BluetoothAddress raw) in *.
  pose proof (kept_characters_class s) as Hclass.
  set (d := kept_characters s) in *.
  destruct (format_012x_spec a Haddr) as (Hflen & Hflow & _).
  destruct (upper_spec _ Hflow) as (Hulen & Hup & _).
  set (u := Py.upper (Py.format_012x a)) in *.
  rewrite join_byte_pairs_rejoin, of_string_rejoin_pairs.
  pose proof (of_string_upper_hex u Hup) as Hu.
  assert (Hsame : Str.eqb (colon_pairs d) (colon_pairs (Str.of_string u)) = true
                  <-> d = Str.of_string u).
  { rewrite Str_eqb_eq. split; [|intros ->; reflexivity].
    apply colon_pairs_inj.
    - revert Hclass. apply List.Forall_impl. intros x. apply class_not_colon.
    - revert Hu. apply List.Forall_impl. intros x [_ Hx]. exact Hx. }
  assert (Hfilter : d <> [] ->
            match colon_pairs d with
            | [] => Accept
            | _ :: _ =>
                if Str.eqb (colon_pairs d) (colon_pairs (Str.of_string u))
                then Accept else Ignore
            end = (if Str.eqb (colon_pairs d) (colon_pairs (Str.of_string u))
                   then Accept else Ignore)).
  { intros Hne. destruct (colon_pairs d) eqn:Hcp; [|reflexivity].
    destruct (Hne (colon_pairs_nil d Hcp)). }
  split; [intros ->; reflexivity|]. split; [|split].
  - intros Hne. rewrite (Hfilter Hne), <- Hsame.
    destruct (Str.eqb _ _); split; congruence.
  - intros Hne Hlen. rewrite (Hfilter Hne).
    destruct (Str.eqb _ _) eqn:Heq; [|reflexivity].
    exfalso. apply Hlen. rewrite (proj1 Hsame eq_refl), of_string_length.
    subst u. rewrite Hulen. exact Hflen.
  - intros Hex.
    assert (Hne : d <> []) by (intros E; rewrite E in Hex; inversion Hex).
    rewrite (Hfilter Hne).
    destruct (Str.eqb _ _) eqn:Heq; [|reflexivity].
    exfalso. rewrite (proj1 Hsame eq_refl) in Hex.
    apply Exists_exists in Hex as (x & Hx & Hnot).
    rewrite Forall_forall in Hu. destruct (Hu x Hx) as [Hhex _]. congruence.
Qed.

Lemma mac_string_filter_by_kept_characters_witness :
  exists args args',
    AdvertisementReceivedEventArgs.init Sample.blinky = Ok args /\
    AdvertisementReceivedEventArgs.init Sample.thingy = Ok args' /\
    mac_filter (MStr (Str.of_string "FA:BD:60:D2:11:3A")) args = Accept /\
    mac_filter (MStr Sample.arabic_indic_31) args' = Ignore.
Proof.
  eexists. eexists. split; [reflexivity|]. split; [reflexivity|]. split.
  - refine (proj2 (proj1 (proj2 (mac_string_filter_by_kept_characters Sample.loose_mac _
                             Sample.blinky _ eq_refl _ eq_refl)) _) eq_refl).
    + simpl. lia.
    + vm_compute. discriminate.
  - refine (proj2 (proj2 (proj2 (mac_string_filter_by_kept_characters Sample.arabic_indic_31 _
                             Sample.thingy _ eq_refl _ eq_refl))) _).
    + simpl. lia.
    + vm_compute. left. reflexivity.
Defined.

(** ** The checked filters *)

Lemma check_service_spec (uuid : filter -> result string) (x : filter) :
  match check_service uuid x with
  | Ok y => is_str y = true \/ is_Pattern y = true
  | Raise e => e = TypeError \/ uuid x = Raise e
  end.
Proof.
  unfold check_service. destruct (uuid x) as [s|e] eqn:Hu; [left; reflexivity|].
  destruct e; try (right; reflexivity).
  destruct (is_Pattern x) eqn:Hp; [right; exact Hp|left; reflexivity].
Qed.

Lemma check_service_comprehension (uuid : filter -> result string) (l : list filter) :
  match comprehension (check_service uuid) l with
  | Ok l' =>
      length l' = length l /\
      Forall (fun y => is_str y = true \/ is_Pattern y = true) l'
  | Raise e => e = TypeError \/ exists x, In x l /\ uuid x = Raise e
  end.
Proof.
  induction l as [|x l IH]; simpl; [split; [reflexivity|constructor]|].
  pose proof (check_service_spec uuid x) as Hx.
  destruct (check_service uuid x) as [y|e]; simpl.
  - destruct (comprehension _ l) as [l'|e]; simpl.
    + destruct IH as [Hlen Hall]. split; [simpl; lia|constructor; assumption].
    + destruct IH as [->|(z & Hz & Hraise)]; [left; reflexivity|].
      right. exists z. split; [right; exact Hz|exact Hraise].
  - destruct Hx as [->|Hx]; [left; reflexivity|].
    right. exists x. split; [left; reflexivity|exact Hx].
Qed.

(** X8: what "Check filters" leaves for the callback.  When it passes, the
    MAC and name filters are, unless they are false values, a string or a
    pattern, and the services list has its length with every entry a
    string or a pattern.  When it raises, it raises [TypeError] or what
    [ble_uuid_to_128bit] raised on an entry. *)
Theorem checked_filters_well_typed (ble_uuid_to_128bit : filter -> result string)
    (mac : mac_arg) (name : filter) (services : option (list filter)) :
  match check_filters ble_uuid_to_128bit mac name services with
  | Ok (mac', name', services') =>
      mac_well_typed mac' /\ well_typed name' /\
      match services, services' with
      | Some l, Some l' =>
          length l' = length l /\
          Forall (fun y => is_str y = true \/ is_Pattern y = true) l'
      | None, None => True
      | _, _ => False
      end
  | Raise e =>
      e = TypeError \/
      exists l x, services = Some l /\ In x l /\ ble_uuid_to_128bit x = Raise e
  end.
Proof.
  unfold check_filters.
  assert (Hmac : match check_mac mac with
                 | Ok m => mac_well_typed m
                 | Raise e => e = TypeError
                 end).
  { unfold check_mac, mac_well_typed.
    destruct mac as [|s|p|[]]; simpl; try reflexivity; try (intros; auto; fail).
    destruct (negb (length s =? 0)%nat); simpl; intros; auto. }
  destruct (check_mac mac) as [m|e]; simpl; [|left; exact Hmac].
  assert (Hname : match check_name name with
                  | Ok n => well_typed n
                  | Raise e => e = TypeError
                  end).
  { unfold check_name, well_typed.
    destruct name as [|s|p|[]]; simpl; try reflexivity; try (intros; auto; fail).
    destruct (negb (String.eqb s "")); simpl; intros; auto. }
  destruct (check_name name) as [n|e]; simpl; [|left; exact Hname].
  destruct services as [[|x l]|]; simpl.
  - repeat split; try assumption. constructor.
  - pose proof (check_service_comprehension ble_uuid_to_128bit (x :: l)) as Hl.
    simpl comprehension in Hl.
    destruct (bind (check_service ble_uuid_to_128bit x) _) as [l'|e]; simpl.
    + repeat split; try assumption; apply Hl.
    + destruct Hl as [->|(z & Hz & Hraise)]; [left; reflexivity|].
      right. exists (x :: l), z. repeat split; assumption.
  - repeat split; assumption.
Qed.

(** * Further properties of the scan session *)

Section Provenance.

Variable mac : mac_arg.
Variable name : filter.
Variable services : option (list filter).

Let callback := advertisement_watcher__received mac name services.
Let step := store_step mac name services.

(** A device that an event of [events] made the callback record. *)
Let from_events (events : list platform_event) (d : BLEDevice.t) : Prop :=
  exists raw, In (Received raw) events /\ accepted mac name services raw = Some d.

Lemma from_events_more events more d :
  from_events events d -> from_events (events ++ more) d.
Proof.
  intros (raw & Hin & Hacc). exists raw. split; [|exact Hacc].
  apply in_or_app. left. exact Hin.
Qed.

Lemma step_from_events events sh ev out :
  Forall (from_events events) (out ++ new_devices sh) ->
  Forall (from_events (events ++ [ev])) (out ++ new_devices (step sh ev)).
Proof.
  intros Hall.
  assert (Hold : Forall (from_events (events ++ [ev])) (out ++ new_devices sh)).
  { eapply Forall_impl; [exact Hall|]. intros d. apply from_events_more. }
  destruct ev as [raw| |]; try exact Hold.
  subst step. simpl.
  destruct (accepted mac name services raw) as [d|] eqn:Hacc; [|exact Hold].
  unfold record_device. destruct (devices sh !! BLEDevice.address d); [exact Hold|].
  simpl. rewrite app_assoc. apply Forall_app. split; [exact Hold|].
  apply Forall_singleton. exists raw. split; [|exact Hacc].
  apply in_or_app. right. left. reflexivity.
Qed.

Lemma steps_from_events more events sh out :
  Forall (from_events events) (out ++ new_devices sh) ->
  Forall (from_events (events ++ more)) (out ++ new_devices (fold_left step more sh)).
Proof.
  revert events sh. induction more as [|ev more IH]; intros events sh Hall; simpl.
  - rewrite app_nil_r. exact Hall.
  - replace (events ++ ev :: more) with ((events ++ [ev]) ++ more)
      by (rewrite <- app_assoc; reflexivity).
    apply IH, step_from_events, Hall.
Qed.

Lemma poll_from_events events st out st' out' :
  poll st out = (st', out') ->
  Forall (from_events events) (out ++ new_devices (shared st)) ->
  Forall (from_events events) (out' ++ new_devices (shared st')).
Proof.
  unfold poll. destruct (last (new_devices (shared st))) as [d|] eqn:Hlast.
  - apply last_Some in Hlast as [l Hl]. intros [= <- <-]. simpl.
    rewrite Hl, removelast_last, <- !app_assoc. intros Hall.
    eapply Forall_Permutation; [| |exact Hall]; [reflexivity|].
    apply Permutation_app_head, Permutation_app_comm.
  - intros [= <- <-]. exact id.
Qed.

Lemma receive_loop_from_events sched events st out :
  Forall (from_events events) (out ++ new_devices (shared st)) ->
  Forall (from_events (events ++ all_events sched))
    (yielded (receive_loop callback sched st out)).
Proof.
  revert events st out. induction sched as [|sl sched IH]; intros events st out Hall.
  - unfold all_events. simpl. rewrite app_nil_r.
    destruct (scanning (status st)).
    + destruct (poll st out) as [st' out'] eqn:Hpoll. simpl.
      apply (poll_from_events _ _ _ _ _ Hpoll) in Hall.
      apply Forall_app in Hall. apply Hall.
    + simpl. apply Forall_app in Hall. apply Hall.
  - unfold all_events. simpl concat. fold (all_events sched). simpl.
    destruct (scanning (status st)).
    + destruct (poll st out) as [st' out'] eqn:Hpoll.
      apply (poll_from_events _ _ _ _ _ Hpoll) in Hall.
      rewrite app_assoc. apply IH.
      rewrite (shared_sleep mac name services). apply steps_from_events, Hall.
    + simpl. apply Forall_app in Hall. destruct Hall as [Hall _].
      eapply Forall_impl; [exact Hall|]. intros d. apply from_events_more.
Qed.

Lemma find_from_events starting sched st rest :
  wait_started callback sched
    (fold_left (deliver callback) starting initial_session) = (st, Some rest) ->
  forall t,
    Forall (from_events (starting ++ all_events sched))
      (yielded (receive_loop callback rest (set_timer (Some t) st) [])).
Proof.
  intros Hw t.
  destruct (wait_started_events _ _ _ _ _ _ _ Hw) as (consumed & -> & Hsh).
  rewrite (shared_fold_deliver mac name services) in Hsh.
  rewrite all_events_app, app_assoc.
  apply receive_loop_from_events. simpl. rewrite Hsh.
  fold step. rewrite <- fold_left_app.
  apply (steps_from_events (starting ++ all_events consumed) [] _ []).
  constructor.
Qed.

End Provenance.

Lemma accepted_inv mac name services raw d :
  accepted mac name services raw = Some d ->
  exists args,
    AdvertisementReceivedEventArgs.init raw = Ok args /\
    filters mac name services args = Accept /\
    d = {| BLEDevice.address := AdvertisementReceivedEventArgs.bluetooth_address args;
           BLEDevice.name :=
             Advertisement.local_name (AdvertisementReceivedEventArgs.advertisement args);
           BLEDevice.details := args |}.
Proof.
  unfold accepted.
  destruct (AdvertisementReceivedEventArgs.init raw) as [args|]; [|discriminate].
  destruct (filters mac name services args) eqn:Hf; try discriminate.
  intros [= <-]. exists args. repeat split. exact Hf.
Qed.

Lemma yielded_provenance
    (ble_uuid_to_128bit : filter -> result string)
    (mac : mac_arg) (name : filter) (services : option (list filter)) (timeout : Z)
    (starting : list platform_event) (sched : list sleep_slot)
    (mac' : mac_arg) (name' : filter) (services' : option (list filter)) (d : BLEDevice.t) :
  check_filters ble_uuid_to_128bit mac name services = Ok (mac', name', services') ->
  In d (yielded (find ble_uuid_to_128bit mac name services timeout starting sched)) ->
  exists raw, In (Received raw) (starting ++ all_events sched) /\
    accepted mac' name' services' raw = Some d.
Proof.
  intros Hcheck. unfold find. rewrite Hcheck.
  destruct (wait_started _ _ _) as [st [rest|]] eqn:Hw; [|intros []].
  intros Hin.
  pose proof (find_from_events mac' name' services' starting sched st rest Hw timeout) as Hall.
  rewrite Forall_forall in Hall. apply (Hall d). apply list_elem_of_In. exact Hin.
Qed.

(** X9: every device that [find] emits was built by the callback from an
    advertisement the platform delivered during this scan, one that was
    decoded and passed the checked filters; its address and name are those
    of that decoded event, which it carries as [details]. *)
Theorem yielded_devices_were_received
    (ble_uuid_to_128bit : filter -> result string)
    (mac : mac_arg) (name : filter) (services : option (list filter)) (timeout : Z)
    (starting : list platform_event) (sched : list sleep_slot)
    (mac' : mac_arg) (name' : filter) (services' : option (list filter)) (d : BLEDevice.t) :
  check_filters ble_uuid_to_128bit mac name services = Ok (mac', name', services') ->
  In d (yielded (find ble_uuid_to_128bit mac name services timeout starting sched)) ->
  exists raw args,
    In (Received raw) (starting ++ all_events sched) /\
    AdvertisementReceivedEventArgs.init raw = Ok args /\
    filters mac' name' services' args = Accept /\
    BLEDevice.address d = AdvertisementReceivedEventArgs.bluetooth_address args /\
    BLEDevice.name d =
      Advertisement.local_name (AdvertisementReceivedEventArgs.advertisement args) /\
    BLEDevice.details d = args.
Proof.
  intros Hcheck Hin.
  destruct (yielded_provenance _ _ _ _ _ _ _ _ _ _ _ Hcheck Hin) as (raw & Hraw & Hacc).
  apply accepted_inv in Hacc as (args & Hinit & Hf & ->).
  exists raw, args. repeat split; assumption.
Qed.

Lemma find_yielded_NoDup
    (ble_uuid_to_128bit : filter -> result string)
    (mac : mac_arg) (name : filter) (services : option (list filter)) (timeout : Z)
    (starting : list platform_event) (sched : list sleep_slot) :
  let r := find ble_uuid_to_128bit mac name services timeout starting sched in
  once_each (shared (final r)) (yielded r).
Proof.
  unfold find.
  destruct (check_filters _ _ _ _) as [[[m n] s]|e]; [|apply once_each_initial].
  assert (Hstart : once_each
            (shared (fold_left (deliver (advertisement_watcher__received m n s))
                       starting initial_session)) []).
  { rewrite shared_fold_deliver. apply once_each_steps, once_each_initial. }
  pose proof (once_each_wait_started m n s sched _ Hstart) as Hw.
  destruct (wait_started _ _ _) as [st1 [rest|]]; [|exact Hw].
  apply once_each_receive_loop. exact Hw.
Qed.

(** X10: with a string as MAC filter of which the normalisation keeps at
    least one character, [find] emits at most one device, and the address
    of that device is the normalised filter. *)
Theorem string_mac_filter_emits_at_most_one
    (ble_uuid_to_128bit : filter -> result string)
    (s : Str.t) (name : filter) (services : option (list filter)) (timeout : Z)
    (starting : list platform_event) (sched : list sleep_slot) :
  kept_characters s <> [] ->
  let r := find ble_uuid_to_128bit (MStr s) name services timeout starting sched in
  (length (yielded r) <= 1)%nat /\
  forall d, In d (yielded r) -> Str.of_string (BLEDevice.address d) = normalize_mac s.
Proof.
  intros Hkept r.
  assert (Haddr : forall d, In d (yielded r) ->
            Str.of_string (BLEDevice.address d) = normalize_mac s).
  { intros d Hin. subst r.
    destruct (check_filters ble_uuid_to_128bit (MStr s) name services)
      as [[[m n] sv]|e] eqn:Hcheck.
    - destruct (yielded_provenance _ _ _ _ _ _ _ _ _ _ _ Hcheck Hin) as (raw & _ & Hacc).
      apply accepted_inv in Hacc as (args & _ & Hf & ->). simpl.
      assert (Hm : m = MStr (normalize_mac s)).
      { unfold check_filters in Hcheck. rewrite check_mac_str in Hcheck. simpl in Hcheck.
        destruct (check_name name); simpl in Hcheck; [|discriminate].
        destruct (check_services _ _); simpl in Hcheck; [|discriminate].
        congruence. }
      subst m. unfold filters in Hf.
      rewrite mac_filter_str in Hf.
      destruct (normalize_mac s) as [|x t] eqn:Hnorm.
      { rewrite normalize_mac_kept in Hnorm. destruct (Hkept (colon_pairs_nil _ Hnorm)). }
      destruct (Str.eqb (x :: t)
                  (Str.of_string (AdvertisementReceivedEventArgs.bluetooth_address args)))
        eqn:Heq; [|discriminate Hf].
      apply Str_eqb_eq in Heq. symmetry. exact Heq.
    - unfold find in Hin. rewrite Hcheck in Hin. destruct Hin. }
  split; [|exact Haddr].
  destruct (find_yielded_NoDup ble_uuid_to_128bit (MStr s) name services timeout
              starting sched) as [Hnd _].
  fold r in Hnd. rewrite fmap_app in Hnd. apply NoDup_app in Hnd as [Hnd _].
  destruct (yielded r) as [|d1 [|d2 l]]; simpl; try lia.
  exfalso. simpl in Hnd.
  assert (Hsame : BLEDevice.address d1 = BLEDevice.address d2).
  { apply of_string_inj. rewrite (Haddr d1), (Haddr d2) by (simpl; auto). reflexivity. }
  rewrite Hsame in Hnd.
  apply NoDup_cons in Hnd as [Hnot _]. apply Hnot. left.
Qed.

Lemma string_mac_filter_emits_at_most_one_witness :
  addresses (yielded (find Sample.no_uuid_conversion (MStr Sample.ligature_mac) FNone None
                        30 [] Sample.one_per_sleep)) = [] /\
  addresses (yielded (find Sample.no_uuid_conversion (MStr Sample.loose_mac) FNone None
                        30 [] Sample.one_per_sleep)) = ["FA:BD:60:D2:11:3A"] /\
  (length (yielded (find Sample.no_uuid_conversion (MStr Sample.loose_mac) FNone None 30 []
                      Sample.one_per_sleep)) <= 1)%nat.
Proof.
  split; [vm_compute; reflexivity|]. split; [vm_compute; reflexivity|].
  refine (proj1 (string_mac_filter_emits_at_most_one Sample.no_uuid_conversion
                   Sample.loose_mac FNone None 30 [] Sample.one_per_sleep _)).
  vm_compute. discriminate.
Defined.

Lemma yielded_devices_were_received_witness :
  exists d raw args,
    In d (yielded (find Sample.no_uuid_conversion MNone FNone None 30 []
                     Sample.one_per_sleep)) /\
    In (Received raw) ([] ++ all_events Sample.one_per_sleep) /\
    AdvertisementReceivedEventArgs.init raw = Ok args /\
    BLEDevice.details d = args.
Proof.
  assert (Hy : exists d l,
             yielded (find Sample.no_uuid_conversion MNone FNone None 30 []
                        Sample.one_per_sleep) = d :: l)
    by (vm_compute; eauto).
  destruct Hy as (d & l & Hy).
  assert (Hin : In d (yielded (find Sample.no_uuid_conversion MNone FNone None 30 []
                                 Sample.one_per_sleep)))
    by (rewrite Hy; left; reflexivity).
  destruct (yielded_devices_were_received Sample.no_uuid_conversion MNone FNone None 30 []
              Sample.one_per_sleep MNone FNone None d eq_refl Hin)
    as (raw & args & Hraw & Hinit & _ & _ & _ & Hdetails).
  exists d, raw, args.
  exact (conj Hin (conj Hraw (conj Hinit Hdetails))).
Defined.

Section Timer.

Variable callback :
  BluetoothLEAdvertisementReceivedEventArgs.t -> store -> result store.

(** The stop has been asked for or is bound to be asked for: the watcher
    has left [Created], and either the call of [stop_scan] is pending and
    falls due within the sleeps that are left, or it has been made, after
    which the watcher is never [Started] again. *)
Let on_time (st : session) (left_over : list sleep_slot) : Prop :=
  status st <> Created /\
  ((exists t, timer st = Some t /\ t <= poll_ms * Z.of_nat (length left_over) /\
              left_over <> []) \/
   (timer st = None /\ status st <> Started)).

Lemma deliver_status st ev :
  timer (deliver callback st ev) = timer st /\
  (status st <> Created -> status (deliver callback st ev) <> Created) /\
  (status st <> Created -> status st <> Started ->
   status (deliver callback st ev) <> Started) /\
  (scanning (status st) = false -> status st <> Created ->
   scanning (status (deliver callback st ev)) = false) /\
  (ev = Transition -> status st <> Created -> status st <> Started ->
   scanning (status (deliver callback st ev)) = false).
Proof.
  destruct ev as [raw| |]; simpl.
  - destruct (callback raw (shared st)); simpl; repeat split; try tauto; try discriminate.
  - destruct (status st); simpl; repeat split; try tauto; try discriminate.
  - destruct (status st); simpl; repeat split; try tauto; try discriminate.
Qed.

Lemma fold_deliver_status events st :
  let st' := fold_left (deliver callback) events st in
  timer st' = timer st /\
  (status st <> Created -> status st' <> Created) /\
  (status st <> Created -> status st <> Started -> status st' <> Started) /\
  (scanning (status st) = false -> status st <> Created ->
   scanning (status st') = false) /\
  (In Transition events -> status st <> Created -> status st <> Started ->
   scanning (status st') = false).
Proof.
  revert st. induction events as [|ev events IH]; intros st; simpl.
  - repeat split; tauto.
  - destruct (deliver_status st ev) as (Ht & Hc & Hs & Hf & Htr).
    destruct (IH (deliver callback st ev)) as (Ht' & Hc' & Hs' & Hf' & Htr').
    split; [congruence|]. split; [tauto|]. split; [tauto|]. split; [tauto|].
    intros [Heq|Hin] Hnc Hns.
    + apply Hf'; [apply Htr; auto|tauto].
    + apply Htr'; tauto.
Qed.

Lemma run_timer_status st :
  (status st <> Created -> status (run_timer st) <> Created) /\
  (status st <> Created -> status st <> Started -> status (run_timer st) <> Started) /\
  (timer st = None -> run_timer st = st) /\
  (forall t, timer st = Some t ->
     (t <= poll_ms -> timer (run_timer st) = None /\ status (run_timer st) <> Started) /\
     (poll_ms < t -> timer (run_timer st) = Some (t - poll_ms) /\
                     status (run_timer st) = status st)).
Proof.
  unfold run_timer, stop_scan.
  destruct (timer st) as [t|] eqn:Htimer.
  - destruct (Z.leb_spec t poll_ms) as [Hle|Hgt].
    + simpl. destruct (status st) eqn:Hs; simpl; rewrite ?Hs;
        (split; [intros; congruence|]); (split; [intros; congruence|]);
        (split; [discriminate|]); intros t' [= <-];
        (split; [intros _; split; [reflexivity|congruence]|intros; lia]).
    + simpl. (split; [tauto|]). (split; [tauto|]). (split; [discriminate|]).
      intros t' [= <-]. split; [intros; lia|intros _; split; reflexivity].
  - (split; [tauto|]). (split; [tauto|]). split; [reflexivity|discriminate].
Qed.

Lemma sleep_on_time st sl rest :
  on_time st (sl :: rest) -> on_time (sleep callback st sl) rest.
Proof.
  intros [Hnc Hcase]. unfold sleep.
  destruct (fold_deliver_status (before sl) st) as (Ht1 & Hc1 & Hs1 & _).
  set (st1 := fold_left (deliver callback) (before sl) st) in *.
  destruct (run_timer_status st1) as (Hc2 & Hs2 & Hid & Hfire).
  destruct (fold_deliver_status (after sl) (run_timer st1)) as (Ht3 & Hc3 & Hs3 & _).
  split; [tauto|].
  destruct Hcase as [(t & Htimer & Hle & _)|[Hnone Hns]].
  - rewrite <- Ht1 in Htimer. destruct (Hfire t Htimer) as [Hdue Hlater].
    destruct (Z.le_gt_cases t poll_ms) as [Hd|Hl].
    + destruct (Hdue Hd) as [Hnone Hns]. right. split; [congruence|].
      apply Hs3; tauto.
    + destruct (Hlater ltac:(lia)) as [Hsome _]. left. exists (t - poll_ms).
      split; [congruence|]. unfold poll_ms in *. simpl length in Hle.
      split; [lia|]. destruct rest; [simpl in Hle; lia|discriminate].
  - right. rewrite <- Ht1 in Hnone. rewrite (Hid Hnone) in *.
    split; [congruence|]. apply Hs3; tauto.
Qed.

Lemma poll_session st out :
  status (fst (poll st out)) = status st /\ timer (fst (poll st out)) = timer st.
Proof. unfold poll. destruct (last _); split; reflexivity. Qed.

Lemma poll_on_time st out rest :
  on_time st rest -> on_time (fst (poll st out)) rest.
Proof.
  destruct (poll_session st out) as [Hs Ht]. unfold on_time. rewrite Hs, Ht. exact id.
Qed.

(** Asleep when the schedule ends with the stop on time: the stop has been
    requested. *)
Lemma receive_loop_suspended rest st out :
  on_time st rest ->
  outcome (receive_loop callback rest st out) = Suspended ->
  status (final (receive_loop callback rest st out)) = Stopping /\
  timer (final (receive_loop callback rest st out)) = None.
Proof.
  revert st out. induction rest as [|sl rest IH]; intros st out Hon; simpl.
  - destruct (scanning (status st)) eqn:Hscan; [|discriminate].
    pose proof (poll_session st out) as [Hs Ht].
    destruct (poll st out) as [st' out']. simpl in *. intros _.
    destruct Hon as [Hnc [(t & _ & _ & Hne)|[Hnone Hns]]]; [congruence|].
    rewrite Hs, Ht. split; [|exact Hnone].
    destruct (status st); try discriminate; congruence.
  - destruct (scanning (status st)); [|discriminate].
    pose proof (poll_on_time st out _ Hon) as Hon'.
    destruct (poll st out) as [st' out']. simpl in Hon'.
    apply IH, sleep_on_time, Hon'.
Qed.

Lemma receive_loop_not_scanning sched st out :
  scanning (status st) = false ->
  outcome (receive_loop callback sched st out) = StopAsyncIteration.
Proof. intros H. destruct sched; simpl; rewrite H; reflexivity. Qed.

(** With the stop on time, a sleep in which the platform completes a
    transition, after the sleeps in which the stop falls due, ends the
    loop. *)
Lemma receive_loop_returns rest1 sl rest2 st out :
  on_time st rest1 ->
  In Transition (slot_events sl) ->
  outcome (receive_loop callback (rest1 ++ sl :: rest2) st out) = StopAsyncIteration.
Proof.
  revert st out. induction rest1 as [|s1 rest1 IH]; intros st out Hon Htr; simpl.
  - destruct (scanning (status st)) eqn:Hscan; [|reflexivity].
    pose proof (poll_session st out) as [Hs Ht].
    destruct (poll st out) as [st' out']. simpl in Hs, Ht.
    apply receive_loop_not_scanning.
    destruct Hon as [Hnc [(t & _ & _ & Hne)|[Hnone Hns]]]; [congruence|].
    unfold sleep.
    destruct (fold_deliver_status (before sl) st') as (Ht1 & Hc1 & Hs1 & Hf1 & Htr1).
    set (st1 := fold_left (deliver callback) (before sl) st') in *.
    destruct (run_timer_status st1) as (_ & _ & Hid & _).
    rewrite Hid by congruence.
    destruct (fold_deliver_status (after sl) st1) as (_ & _ & _ & Hf3 & Htr3).
    unfold slot_events in Htr. apply in_app_or in Htr as [Hb|Ha].
    + apply Hf3; [apply Htr1|apply Hc1]; congruence.
    + apply Htr3; [exact Ha|apply Hc1|apply Hs1]; congruence.
  - destruct (scanning (status st)); [|reflexivity].
    pose proof (poll_on_time st out _ Hon) as Hon'.
    destruct (poll st out) as [st' out']. simpl in Hon'.
    apply IH; [apply sleep_on_time, Hon'|exact Htr].
Qed.

Lemma wait_started_left sched st st1 rest :
  wait_started callback sched st = (st1, Some rest) -> status st1 <> Created.
Proof.
  revert st. induction sched as [|sl sched IH]; intros st; simpl.
  - destruct (status st) eqn:Hs; intros [= <- <-]; congruence.
  - destruct (status st) eqn:Hs; try (intros [= <- <-]; congruence). apply IH.
Qed.

Lemma armed_on_time st rest (timeout : Z) :
  status st <> Created -> rest <> [] ->
  timeout <= poll_ms * Z.of_nat (length rest) ->
  on_time (set_timer (Some timeout) st) rest.
Proof.
  intros Hnc Hne Hle. split; [exact Hnc|]. left. exists timeout. simpl. auto.
Qed.

End Timer.

(** X11: the stop is requested on time.  If the generator is still asleep
    at the end of a schedule that gives it, after its first poll, at least
    one sleep and at least [timeout] milliseconds of sleeps, then the call
    of [stop_scan] has been made and the watcher is [Stopping]. *)
Theorem stop_requested_within_timeout
    (ble_uuid_to_128bit : filter -> result string)
    (mac : mac_arg) (name : filter) (services : option (list filter)) (timeout : Z)
    (starting : list platform_event) (sched : list sleep_slot)
    (mac' : mac_arg) (name' : filter) (services' : option (list filter)) :
  check_filters ble_uuid_to_128bit mac name services = Ok (mac', name', services') ->
  polled_slots (advertisement_watcher__received mac' name' services') starting sched <> [] ->
  timeout <= poll_ms * Z.of_nat (length
    (polled_slots (advertisement_watcher__received mac' name' services') starting sched)) ->
  outcome (find ble_uuid_to_128bit mac name services timeout starting sched) = Suspended ->
  status (final (find ble_uuid_to_128bit mac name services timeout starting sched))
    = Stopping /\
  timer (final (find ble_uuid_to_128bit mac name services timeout starting sched)) = None.
Proof.
  intros Hcheck Hne Hle. unfold find, polled_slots in *. rewrite Hcheck.
  destruct (wait_started _ sched _) as [st [rest|]] eqn:Hw; simpl in Hne, Hle;
    [|congruence].
  apply receive_loop_suspended, armed_on_time; try assumption.
  eapply wait_started_left, Hw.
Qed.

(** X12: the scan ends.  Once the sleeps after the first poll have covered
    the timeout, a later sleep in which the platform completes the pending
    transition of the watcher makes the generator return, whatever else
    the platform does. *)
Theorem scan_ends_when_platform_completes_stop
    (ble_uuid_to_128bit : filter -> result string)
    (mac : mac_arg) (name : filter) (services : option (list filter)) (timeout : Z)
    (starting : list platform_event) (sched : list sleep_slot)
    (mac' : mac_arg) (name' : filter) (services' : option (list filter))
    (rest1 rest2 : list sleep_slot) (sl : sleep_slot) :
  check_filters ble_uuid_to_128bit mac name services = Ok (mac', name', services') ->
  polled_slots (advertisement_watcher__received mac' name' services') starting sched
    = rest1 ++ sl :: rest2 ->
  rest1 <> [] ->
  timeout <= poll_ms * Z.of_nat (length rest1) ->
  In Transition (slot_events sl) ->
  outcome (find ble_uuid_to_128bit mac name services timeout starting sched)
    = StopAsyncIteration.
Proof.
  intros Hcheck Hslots Hne Hle Htr. unfold find, polled_slots in *. rewrite Hcheck.
  destruct (wait_started _ sched _) as [st [rest|]] eqn:Hw; simpl in Hslots.
  - subst rest. apply receive_loop_returns; [|exact Htr].
    apply armed_on_time; try assumption. eapply wait_started_left, Hw.
  - destruct rest1; discriminate.
Qed.

(** X13: a device that is still in [new_devices] when the generator returns
    is never emitted: nothing with its address is in the output of the
    scan. *)
Theorem pending_devices_are_dropped
    (ble_uuid_to_128bit : filter -> result string)
    (mac : mac_arg) (name : filter) (services : option (list filter)) (timeout : Z)
    (starting : list platform_event) (sched : list sleep_slot) (d : BLEDevice.t) :
  outcome (find ble_uuid_to_128bit mac name services timeout starting sched)
    = StopAsyncIteration ->
  In d (new_devices (shared (final
    (find ble_uuid_to_128bit mac name services timeout starting sched)))) ->
  ~ In (BLEDevice.address d)
      (addresses (yielded (find ble_uuid_to_128bit mac name services timeout starting sched))).
Proof.
  intros _ Hpending Hyielded.
  destruct (find_yielded_NoDup ble_uuid_to_128bit mac name services timeout starting sched)
    as [Hnd _].
  rewrite fmap_app in Hnd. apply NoDup_app in Hnd as (_ & Hdisj & _).
  apply (Hdisj (BLEDevice.address d)).
  - apply list_elem_of_In. exact Hyielded.
  - apply list_elem_of_fmap. exists d. split; [reflexivity|].
    apply list_elem_of_In. exact Hpending.
Qed.

(** * Properties of [BLEDevice] *)

Lemma string_app_same_length (a a' x y : string) :
  String.length a = String.length a' ->
  String.append a x = String.append a' y -> a = a' /\ x = y.
Proof.
  revert a'. induction a as [|c a IH]; intros [|c' a'] Hlen Heq; try discriminate Hlen.
  - split; [reflexivity|exact Heq].
  - change (String c (String.append a x) = String c' (String.append a' y)) in Heq.
    injection Heq as -> Heq. injection Hlen as Hlen.
    destruct (IH a' Hlen Heq) as [-> ->]. split; reflexivity.
Qed.

Lemma string_app_inj_last (x y : string) (c : ascii) :
  String.append x (String c EmptyString) = String.append y (String c EmptyString) ->
  x = y.
Proof.
  revert y. induction x as [|a x IH]; intros [|b y] Heq.
  - reflexivity.
  - change (String c EmptyString = String b (String.append y (String c EmptyString))) in Heq.
    injection Heq as _ Heq. destruct y; discriminate Heq.
  - change (String a (String.append x (String c EmptyString)) = String c EmptyString) in Heq.
    injection Heq as _ Heq. destruct x; discriminate Heq.
  - change (String a (String.append x (String c EmptyString)) =
            String b (String.append y (String c EmptyString))) in Heq.
    injection Heq as -> Heq. rewrite (IH y Heq). reflexivity.
Qed.

Lemma name_string_inj (d d' : Device.t) :
  Device._name_string d = Device._name_string d' -> Device.name d = Device.name d'.
Proof.
  unfold Device._name_string.
  destruct (Device.name d) as [n|], (Device.name d') as [n'|]; intros Heq;
    try reflexivity; try discriminate Heq.
  change (String "'" (String.append n "'") = String "'" (String.append n' "'")) in Heq.
  injection Heq as Heq. apply string_app_inj_last in Heq. congruence.
Qed.

(** X14: [_name_string] tells no name from every name, the name ["None"]
    included, and different names from each other; for two devices whose
    addresses have the same length, as two MAC addresses have, [__str__]
    gives the same text only if address and name are the same. *)
Theorem device_text_identifies (d d' : Device.t) :
  (Device._name_string d = Device._name_string d' -> Device.name d = Device.name d') /\
  (String.length (Device.address d) = String.length (Device.address d') ->
   Device.__str__ d = Device.__str__ d' ->
   Device.address d = Device.address d' /\ Device.name d = Device.name d').
Proof.
  split; [apply name_string_inj|].
  unfold Device.__str__. intros Hlen Heq.
  apply String.app_inj in Heq.
  apply string_app_same_length in Heq as [Haddr Heq]; [|exact Hlen].
  split; [exact Haddr|].
  apply String.app_inj in Heq. apply string_app_inj_last in Heq.
  apply name_string_inj, Heq.
Qed.

Lemma device_text_identifies_witness :
  Device.__str__ {| Device.address := "FA:BD:60:D2:11:3A"; Device.name := None;
                    Device.details := Device.NoDetails |} <>
  Device.__str__ {| Device.address := "FA:BD:60:D2:11:3A"; Device.name := Some "None";
                    Device.details := Device.NoDetails |}.
Proof.
  intros Heq.
  destruct (proj2 (device_text_identifies
                     {| Device.address := "FA:BD:60:D2:11:3A"; Device.name := None;
                        Device.details := Device.NoDetails |}
                     {| Device.address := "FA:BD:60:D2:11:3A"; Device.name := Some "None";
                        Device.details := Device.NoDetails |}) eq_refl Heq) as [_ Hname].
  discriminate Hname.
Defined.

(** * Properties of [discover] *)

Module DiscoveryFacts.
Import Discovery.

Section Dict.

Context {V : Type}.

Lemma dict_get_In (key : string) (d : dict V) (v : V) :
  dict_get key d = Some v -> In (key, v) d.
Proof.
  induction d as [|[k w] d IH]; simpl; [discriminate|].
  destruct (String.eqb_spec k key) as [->|Hne].
  - intros [= ->]. left. reflexivity.
  - intros H. right. apply IH, H.
Qed.

Lemma dict_get_None (key : string) (d : dict V) :
  dict_get key d = None <-> ~ In key (map fst d).
Proof.
  induction d as [|[k w] d IH]; simpl; [tauto|].
  destruct (String.eqb_spec k key) as [->|Hne].
  - split; [discriminate|]. intros H. exfalso. apply H. left. reflexivity.
  - rewrite IH. tauto.
Qed.

Lemma dict_set_keys (key : string) (v : V) (d : dict V) :
  map fst (dict_set key v d) =
    match dict_get key d with
    | Some _ => map fst d
    | None => map fst d ++ [key]
    end.
Proof.
  induction d as [|[k w] d IH]; simpl; [reflexivity|].
  destruct (String.eqb_spec k key) as [->|Hne]; simpl; [reflexivity|].
  rewrite IH. destruct (dict_get key d); reflexivity.
Qed.

Lemma dict_get_set (key key' : string) (v : V) (d : dict V) :
  dict_get key' (dict_set key v d) =
    if String.eqb key key' then Some v else dict_get key' d.
Proof.
  induction d as [|[k w] d IH]; simpl.
  - destruct (String.eqb key key'); reflexivity.
  - destruct (String.eqb_spec k key) as [->|Hne]; simpl.
    + destruct (String.eqb key key'); reflexivity.
    + rewrite IH. destruct (String.eqb_spec k key') as [->|Hne'];
        [|reflexivity].
      destruct (String.eqb_spec key key') as [->|_]; [congruence|reflexivity].
Qed.

Lemma dict_pop_set_fresh (key : string) (v : V) (d : dict V) :
  dict_get key d = None -> dict_pop key (dict_set key v d) = d.
Proof.
  induction d as [|[k w] d IH]; simpl.
  - rewrite String.eqb_refl. reflexivity.
  - destruct (String.eqb_spec k key) as [->|Hne]; [discriminate|].
    intros H. simpl. destruct (String.eqb_spec k key); [congruence|].
    rewrite (IH H). reflexivity.
Qed.

Lemma dict_pop_keys (key : string) (d : dict V) :
  NoDup (map fst d) ->
  NoDup (map fst (dict_pop key d)) /\
  ~ In key (map fst (dict_pop key d)) /\
  forall p, In p (dict_pop key d) -> In p d.
Proof.
  induction d as [|[k w] d IH]; simpl; intros Hnd.
  - repeat split; try constructor; auto.
  - apply NoDup_cons in Hnd as [Hk Hnd].
    destruct (String.eqb_spec k key) as [->|Hne].
    + repeat split; auto. intros Hin. apply Hk. apply list_elem_of_In. exact Hin.
    + destruct (IH Hnd) as (Hnd' & Hnot & Hsub). simpl. repeat split.
      * apply NoDup_cons. split; [|exact Hnd'].
        intros Hin. apply Hk. apply list_elem_of_In in Hin.
        apply in_map_iff in Hin as ([k' v'] & Hfst & Hin). simpl in Hfst. subst k'.
        apply list_elem_of_In. apply in_map_iff. exists (k, v'). split; [reflexivity|].
        apply Hsub, Hin.
      * intros [Heq|Hin]; [congruence|tauto].
      * intros p [<-|Hin]; [left; reflexivity|right; apply Hsub, Hin].
Qed.

Lemma dict_set_In (key : string) (v : V) (d : dict V) (p : string * V) :
  In p (dict_set key v d) -> p = (key, v) \/ In p d.
Proof.
  induction d as [|[k w] d IH]; simpl.
  - intros [<-|[]]. left. reflexivity.
  - destruct (String.eqb_spec k key) as [->|Hne]; simpl.
    + intros [<-|Hin]; [left; reflexivity|right; right; exact Hin].
    + intros [<-|Hin]; [right; left; reflexivity|].
      destruct (IH Hin) as [->|Hin']; [left; reflexivity|right; right; exact Hin'].
Qed.

End Dict.

Section Watcher.

Variable Update : DeviceInformation.t -> DeviceInformationUpdate.t -> DeviceInformation.t.

(** X15: the callbacks on the dictionary of devices.  [Added] leaves an Id
    that is there with the device it has; [Removed] for an Id that is not
    there raises [KeyError] and leaves the dictionary as it was; [Added]
    of a new Id followed by [Removed] of that Id gives the dictionary back
    as it was. *)
Theorem removed_undoes_added
    (devices : dict DeviceInformation.t) (dinfo : DeviceInformation.t)
    (dinfo_update : DeviceInformationUpdate.t) :
  DeviceInformationUpdate.Id dinfo_update = DeviceInformation.Id dinfo ->
  dict_get (DeviceInformation.Id dinfo) devices = None ->
  handle Update (Removed true dinfo_update) devices
    = KeyError (DeviceInformation.Id dinfo) /\
  deliver Update devices (Removed true dinfo_update) = devices /\
  deliver Update (deliver Update devices (Added true dinfo)) (Removed true dinfo_update)
    = devices /\
  forall other,
    DeviceInformation.Id other = DeviceInformation.Id dinfo ->
    deliver Update (deliver Update devices (Added true dinfo)) (Added true other)
      = deliver Update devices (Added true dinfo).
Proof.
  intros Hid Hfresh.
  unfold deliver, handle, DeviceWatcher_Removed, DeviceWatcher_Added.
  rewrite Hid, Hfresh. repeat split.
  - rewrite dict_get_set, String.eqb_refl. apply dict_pop_set_fresh, Hfresh.
  - intros other Hother. rewrite Hother, dict_get_set, String.eqb_refl. reflexivity.
Qed.

(** The Ids the dictionary holds are distinct, and each was given by an
    [Added] event of the watcher. *)
Lemma deliver_keys (events : list watcher_event) :
  forall devices,
    NoDup (map fst devices) ->
    NoDup (map fst (fold_left (deliver Update) events devices)) /\
    forall k, In k (map fst (fold_left (deliver Update) events devices)) ->
      In k (map fst devices) \/
      exists dinfo, In (Added true dinfo) events /\ DeviceInformation.Id dinfo = k.
Proof.
  induction events as [|ev events IH]; intros devices Hnd; simpl.
  - split; [exact Hnd|]. intros k Hk. left. exact Hk.
  - assert (Hstep : NoDup (map fst (deliver Update devices ev)) /\
              forall k, In k (map fst (deliver Update devices ev)) ->
                In k (map fst devices) \/
                exists dinfo, ev = Added true dinfo /\ DeviceInformation.Id dinfo = k).
    { unfold deliver, handle.
      destruct ev as [[] dinfo|[] u|[] u|s|s]; simpl;
        try (split; [exact Hnd|intros k Hk; left; exact Hk]).
      - destruct (dict_get (DeviceInformation.Id dinfo) devices) eqn:Hget;
          [split; [exact Hnd|intros k Hk; left; exact Hk]|].
        rewrite dict_set_keys, Hget. split.
        + apply NoDup_app. split; [exact Hnd|]. split; [|apply NoDup_singleton].
          intros k Hk Hk'. apply list_elem_of_singleton in Hk'. subst k.
          apply dict_get_None in Hget. apply Hget, list_elem_of_In, Hk.
        + intros k Hk. apply in_app_or in Hk as [Hk|[<-|[]]]; [left; exact Hk|].
          right. exists dinfo. split; reflexivity.
      - destruct (dict_get (DeviceInformationUpdate.Id u) devices) eqn:Hget;
          [|split; [exact Hnd|intros k Hk; left; exact Hk]].
        rewrite dict_set_keys, Hget. split; [exact Hnd|intros k Hk; left; exact Hk].
      - destruct (dict_get (DeviceInformationUpdate.Id u) devices) eqn:Hget;
          [|split; [exact Hnd|intros k Hk; left; exact Hk]].
        destruct (dict_pop_keys (DeviceInformationUpdate.Id u) devices Hnd)
          as (Hnd' & _ & Hsub).
        split; [exact Hnd'|]. intros k Hk. left.
        apply in_map_iff in Hk as (p & <- & Hp). apply in_map, Hsub, Hp. }
    destruct Hstep as [Hnd' Hkeys].
    destruct (IH _ Hnd') as [Hnd'' Hkeys'']. split; [exact Hnd''|].
    intros k Hk. destruct (Hkeys'' k Hk) as [Hk'|(dinfo & Hin & Hid)].
    + destruct (Hkeys k Hk') as [Hold|(dinfo & -> & Hid)]; [left; exact Hold|].
      right. exists dinfo. split; [left; reflexivity|exact Hid].
    + right. exists dinfo. split; [right; exact Hin|exact Hid].
Qed.

Lemma found_devices_spec (l : list DeviceInformation.t) :
  match found_devices l with
  | Return found =>
      map Device.details found = map Device.OfEnumeration l /\
      Forall2 (fun b d =>
                 dict_get DeviceAddress (dict_of_properties (DeviceInformation.Properties d))
                   = Some (Device.address b) /\
                 Device.name b = Some (DeviceInformation.Name d)) found l
  | KeyError k =>
      k = DeviceAddress /\
      exists d, In d l /\
        dict_get DeviceAddress (dict_of_properties (DeviceInformation.Properties d)) = None
  end.
Proof.
  induction l as [|d l IH]; simpl; [split; [reflexivity|constructor]|].
  unfold found_device.
  destruct (dict_get DeviceAddress _) as [a|] eqn:Hget.
  - destruct (found_devices l) as [found|k].
    + destruct IH as [Hmap Hall]. split; [simpl; rewrite Hmap; reflexivity|].
      constructor; [split; [exact Hget|reflexivity]|exact Hall].
    + destruct IH as [-> (d' & Hin & Hnone)]. split; [reflexivity|].
      exists d'. split; [right; exact Hin|exact Hnone].
  - split; [reflexivity|]. exists d. split; [left; reflexivity|exact Hget].
Qed.

(** X16: what [discover] returns.  The devices left in the dictionary when
    the scan ends are reported in the order in which they were put in, one
    for each Id that an [Added] event of the watcher gave, each with the
    value of its property [System.Devices.Aep.DeviceAddress] as address
    and its [Name] as name; when one of them has no such property the call
    raises [KeyError] for that key. *)
Theorem discover_reports_the_dictionary (events : list watcher_event) :
  let devices := fold_left (deliver Update) events [] in
  NoDup (map fst devices) /\
  (forall k, In k (map fst devices) ->
     exists dinfo, In (Added true dinfo) events /\ DeviceInformation.Id dinfo = k) /\
  match discover Update events with
  | Return found =>
      map Device.details found = map Device.OfEnumeration (map snd devices) /\
      Forall2 (fun b d =>
                 dict_get DeviceAddress (dict_of_properties (DeviceInformation.Properties d))
                   = Some (Device.address b) /\
                 Device.name b = Some (DeviceInformation.Name d)) found (map snd devices)
  | KeyError k =>
      k = DeviceAddress /\
      exists d, In d (map snd devices) /\
        dict_get DeviceAddress (dict_of_properties (DeviceInformation.Properties d)) = None
  end.
Proof.
  intros devices.
  destruct (deliver_keys events [] ltac:(constructor)) as [Hnd Hkeys].
  split; [exact Hnd|]. split.
  - intros k Hk. destruct (Hkeys k Hk) as [[]|H]. exact H.
  - apply found_devices_spec.
Qed.

Lemma removed_key_stays_out (later : list watcher_event) :
  forall devices key,
    NoDup (map fst devices) ->
    ~ In key (map fst devices) ->
    (forall dinfo, In (Added true dinfo) later -> DeviceInformation.Id dinfo <> key) ->
    ~ In key (map fst (fold_left (deliver Update) later devices)).
Proof.
  intros devices key Hnd Hout Hlater Hin.
  destruct (deliver_keys later devices Hnd) as [_ Hkeys].
  destruct (Hkeys key Hin) as [Hold|(dinfo & Hadd & Hid)]; [tauto|].
  exact (Hlater dinfo Hadd Hid).
Qed.

(** X17: a device that the watcher removed, and did not add again, is not
    in the dictionary at the end of the scan. *)
Theorem removed_device_not_kept
    (earlier later : list watcher_event) (dinfo_update : DeviceInformationUpdate.t) :
  (forall dinfo, In (Added true dinfo) later ->
     DeviceInformation.Id dinfo <> DeviceInformationUpdate.Id dinfo_update) ->
  ~ In (DeviceInformationUpdate.Id dinfo_update)
      (map fst (fold_left (deliver Update)
                  (earlier ++ Removed true dinfo_update :: later) [])).
Proof.
  intros Hlater. rewrite fold_left_app. simpl.
  destruct (deliver_keys earlier [] ltac:(constructor)) as [Hnd _].
  set (devices := fold_left (deliver Update) earlier []) in *.
  assert (Hstep : NoDup (map fst (deliver Update devices (Removed true dinfo_update))) /\
            ~ In (DeviceInformationUpdate.Id dinfo_update)
                (map fst (deliver Update devices (Removed true dinfo_update)))).
  { unfold deliver, handle, DeviceWatcher_Removed.
    destruct (dict_get (DeviceInformationUpdate.Id dinfo_update) devices) eqn:Hget.
    - destruct (dict_pop_keys (DeviceInformationUpdate.Id dinfo_update) devices Hnd)
        as (Hnd' & Hnot & _). split; assumption.
    - split; [exact Hnd|]. apply dict_get_None, Hget. }
  destruct Hstep as [Hnd' Hout].
  apply removed_key_stays_out; assumption.
Qed.

End Watcher.

End DiscoveryFacts.

Section Account.

Variable mac : mac_arg.
Variable name : filter.
Variable services : option (list filter).

Let callback := advertisement_watcher__received mac name services.
Let step := store_step mac name services.

Lemma poll_account st out st' out' :
  poll st out = (st', out') ->
  devices (shared st') = devices (shared st) /\
  out' ++ new_devices (shared st') ≡ₚ out ++ new_devices (shared st).
Proof.
  unfold poll. destruct (last (new_devices (shared st))) as [d|] eqn:Hlast.
  - apply last_Some in Hlast as [l Hl]. intros [= <- <-]. simpl.
    split; [reflexivity|].
    rewrite Hl, removelast_last, <- !app_assoc.
    apply Permutation_app_head, Permutation_app_comm.
  - intros [= <- <-]. split; reflexivity.
Qed.

(** Up to the order, what has been emitted or is pending is what the
    callback would have queued with nobody polling, over the sleeps the
    loop went through. *)
Lemma receive_loop_account sched st out ref :
  devices (shared st) = devices ref ->
  out ++ new_devices (shared st) ≡ₚ new_devices ref ->
  exists consumed rest,
    sched = consumed ++ rest /\
    yielded (receive_loop callback sched st out) ++
      new_devices (shared (final (receive_loop callback sched st out)))
    ≡ₚ new_devices (fold_left step (all_events consumed) ref).
Proof.
  unfold step. clear step.
  revert st out ref. induction sched as [|sl sched IH]; intros st out ref Hdev Hperm.
  - exists [], []. split; [reflexivity|]. simpl.
    destruct (scanning (status st)); [|exact Hperm].
    destruct (poll st out) as [st' out'] eqn:Hpoll. simpl.
    destruct (poll_account _ _ _ _ Hpoll) as [_ Hp]. rewrite Hp. exact Hperm.
  - simpl. destruct (scanning (status st)).
    + destruct (poll st out) as [st' out'] eqn:Hpoll.
      destruct (poll_account _ _ _ _ Hpoll) as [Hdev' Hp].
      destruct (steps_delta mac name services (slot_events sl) ref) as (delta & _ & Hdelta).
      destruct (Hdelta (shared st') ltac:(congruence)) as [Hdev2 Hnew2].
      destruct (Hdelta ref eq_refl) as [_ Hnewref].
      destruct (IH (sleep callback st' sl) out'
                  (fold_left (store_step mac name services) (slot_events sl) ref))
        as (consumed & rest & -> & Hacc).
      * rewrite (shared_sleep mac name services). exact Hdev2.
      * rewrite (shared_sleep mac name services).
        rewrite Hnew2, Hnewref, app_assoc, Hp, Hperm. reflexivity.
      * exists (sl :: consumed), rest. split; [reflexivity|].
        unfold all_events. simpl concat. rewrite fold_left_app. exact Hacc.
    + exists [], (sl :: sched). split; [reflexivity|]. exact Hperm.
Qed.

End Account.

(** X18: nothing is made up and, while the generator runs, nothing is lost.
    For the sleeps the generator went through, the devices emitted
    together with those still pending are, up to the order, the devices
    in first-match order of the events of those sleeps. *)
Theorem emitted_and_pending_account
    (ble_uuid_to_128bit : filter -> result string)
    (mac : mac_arg) (name : filter) (services : option (list filter)) (timeout : Z)
    (starting : list platform_event) (sched : list sleep_slot)
    (mac' : mac_arg) (name' : filter) (services' : option (list filter)) :
  check_filters ble_uuid_to_128bit mac name services = Ok (mac', name', services') ->
  let r := find ble_uuid_to_128bit mac name services timeout starting sched in
  exists consumed rest,
    sched = consumed ++ rest /\
    yielded r ++ new_devices (shared (final r)) ≡ₚ
    arrival_order (advertisement_watcher__received mac' name' services')
      (starting ++ all_events consumed).
Proof.
  intros Hcheck r. subst r. unfold find. rewrite Hcheck.
  assert (Harr : forall events,
            arrival_order (advertisement_watcher__received mac' name' services')
              (starting ++ events) =
            new_devices (fold_left (store_step mac' name' services') events
                           (fold_left (store_step mac' name' services') starting
                              (shared initial_session)))).
  { intros events. unfold arrival_order.
    rewrite (shared_fold_deliver mac' name' services'), fold_left_app. reflexivity. }
  destruct (wait_started _ sched _) as [st [rest|]] eqn:Hw.
  - destruct (wait_started_events _ _ _ _ _ _ _ Hw) as (consumed & -> & Hsh).
    rewrite (shared_fold_deliver mac' name' services') in Hsh.
    destruct (receive_loop_account mac' name' services' rest
                (set_timer (Some timeout) st) [] (shared st) eq_refl
                ltac:(reflexivity)) as (consumed' & rest' & -> & Hacc).
    exists (consumed ++ consumed'), rest'. split; [rewrite app_assoc; reflexivity|].
    rewrite Harr, Hacc, Hsh, all_events_app, !fold_left_app. reflexivity.
  - exists sched, []. split; [rewrite app_nil_r; reflexivity|]. simpl.
    rewrite Harr.
    assert (Hsh : shared st = fold_left (store_step mac' name' services')
                    (all_events sched)
                    (fold_left (store_step mac' name' services') starting
                       (shared initial_session))).
    { clear Hcheck Harr. revert Hw.
      rewrite <- (shared_fold_deliver mac' name' services').
      generalize (fold_left (deliver (advertisement_watcher__received mac' name' services'))
                    starting initial_session).
      induction sched as [|sl sched IH]; intros s0; simpl.
      - destruct (status s0); intros [= <-]; reflexivity.
      - destruct (status s0); try discriminate.
        intros Hw. rewrite (IH _ Hw), (shared_sleep mac' name' services').
        unfold all_events. simpl concat. rewrite fold_left_app. reflexivity. }
    rewrite Hsh. reflexivity.
Qed.

Lemma emitted_and_pending_account_witness :
  exists consumed rest,
    Sample.two_in_one_sleep = consumed ++ rest /\
    yielded (find Sample.no_uuid_conversion MNone FNone None 30 [] Sample.two_in_one_sleep)
      ++ new_devices (shared (final
           (find Sample.no_uuid_conversion MNone FNone None 30 [] Sample.two_in_one_sleep)))
    ≡ₚ arrival_order (advertisement_watcher__received MNone FNone None)
         ([] ++ all_events consumed).
Proof.
  exact (emitted_and_pending_account Sample.no_uuid_conversion MNone FNone None 30 []
           Sample.two_in_one_sleep MNone FNone None eq_refl).
Defined.

Lemma stop_requested_within_timeout_witness :
  status (final (find Sample.no_uuid_conversion MNone FNone None 20 []
                   Scenario.stop_not_completed)) = Stopping.
Proof.
  refine (proj1 (stop_requested_within_timeout Sample.no_uuid_conversion MNone FNone None 20
                   [] Scenario.stop_not_completed MNone FNone None eq_refl _ _ eq_refl)).
  - vm_compute. discriminate.
  - vm_compute. discriminate.
Defined.

Lemma scan_ends_when_platform_completes_stop_witness :
  outcome (find Sample.no_uuid_conversion MNone FNone None 30 [] Sample.one_per_sleep)
    = StopAsyncIteration.
Proof.
  refine (scan_ends_when_platform_completes_stop Sample.no_uuid_conversion MNone FNone None
            30 [] Sample.one_per_sleep MNone FNone None
            [ Sample.slot [Received Sample.blinky] [];
              Sample.slot [Received Sample.thingy] [];
              Sample.slot [Received Sample.blinky] [] ]
            [] (Sample.slot [Transition] []) eq_refl eq_refl _ _ _).
  - discriminate.
  - vm_compute. discriminate.
  - left. reflexivity.
Defined.

Lemma pending_devices_are_dropped_witness :
  exists d,
    In d (new_devices (shared (final
      (find Sample.no_uuid_conversion MNone FNone None 0 [] Scenario.late_arrival)))) /\
    outcome (find Sample.no_uuid_conversion MNone FNone None 0 [] Scenario.late_arrival)
      = StopAsyncIteration /\
    ~ In (BLEDevice.address d)
        (addresses (yielded
           (find Sample.no_uuid_conversion MNone FNone None 0 [] Scenario.late_arrival))).
Proof.
  assert (Hp : exists d l,
             new_devices (shared (final
               (find Sample.no_uuid_conversion MNone FNone None 0 []
                  Scenario.late_arrival))) = d :: l)
    by (vm_compute; eauto).
  destruct Hp as (d & l & Hp).
  assert (Hin : In d (new_devices (shared (final
               (find Sample.no_uuid_conversion MNone FNone None 0 []
                  Scenario.late_arrival)))))
    by (rewrite Hp; left; reflexivity).
  exists d. split; [exact Hin|]. split; [reflexivity|].
  exact (pending_devices_are_dropped Sample.no_uuid_conversion MNone FNone None 0 []
           Scenario.late_arrival d eq_refl Hin).
Defined.

(** X19: a services filter whose entries are all strings, with a name
    filter that is not a pattern, accepts an event exactly when every
    entry is one of the advertised service UUIDs, character for
    character; every other event is ignored. *)
Theorem string_services_filter_is_subset_test (name : filter) (entries : list filter)
    (args : AdvertisementReceivedEventArgs.t) :
  is_Pattern name = false ->
  forallb is_str entries = true ->
  entries <> [] ->
  (services_filter name (Some entries) args = Accept <->
   forall s, In (FStr s) entries ->
     In s (Advertisement.services (AdvertisementReceivedEventArgs.advertisement args))) /\
  (services_filter name (Some entries) args = Accept \/
   services_filter name (Some entries) args = Ignore).
Proof.
  intros Hname Hall Hne.
  rewrite (services_filter_strings name entries args Hname Hall Hne).
  set (advertised := Advertisement.services _).
  assert (Hsat : services_satisfied entries advertised = true <->
                 forall s, In (FStr s) entries -> In s advertised).
  { unfold services_satisfied. rewrite forallb_forall. split.
    - intros H s Hs. specialize (H _ Hs). simpl in H.
      apply existsb_exists in H as (u & Hu & Heq).
      apply String.eqb_eq in Heq. subst u. exact Hu.
    - intros H e He. rewrite forallb_forall in Hall. specialize (Hall _ He).
      destruct e as [|s| |]; try discriminate Hall. simpl.
      apply existsb_exists. exists s. split; [apply H, He|apply String.eqb_refl]. }
  destruct (services_satisfied entries advertised).
  - split; [|left; reflexivity]. split; [intros _; apply Hsat; reflexivity|reflexivity].
  - split; [|right; reflexivity]. split; [discriminate|].
    intros H. apply Hsat in H. discriminate H.
Qed.

Lemma string_services_filter_is_subset_test_witness :
  exists args,
    AdvertisementReceivedEventArgs.init Sample.blinky = Ok args /\
    services_filter FNone (Some [FStr Sample.device_information]) args = Accept.
Proof.
  eexists. split; [reflexivity|].
  apply (proj1 (string_services_filter_is_subset_test FNone
                  [FStr Sample.device_information] _ eq_refl eq_refl
                  ltac:(discriminate))).
  intros s [[= <-]|[]]. left. reflexivity.
Defined.

Lemma removed_undoes_added_witness :
  Discovery.deliver Scenario.append_properties
    (Discovery.deliver Scenario.append_properties [] (Discovery.Added true Scenario.blinky_info))
    (Discovery.Removed true Scenario.blinky_update) = [].
Proof.
  exact (proj1 (proj2 (proj2 (DiscoveryFacts.removed_undoes_added Scenario.append_properties
           [] Scenario.blinky_info Scenario.blinky_update eq_refl eq_refl)))).
Defined.

Lemma removed_device_not_kept_witness :
  ~ In (DeviceInformationUpdate.Id Scenario.blinky_update)
      (map fst (fold_left (Discovery.deliver Scenario.append_properties)
                  ([Discovery.Added true Scenario.blinky_info;
                    Discovery.Updated true Scenario.blinky_update] ++
                   Discovery.Removed true Scenario.blinky_update ::
                   [Discovery.EnumerationCompleted true]) [])).
Proof.
  apply (DiscoveryFacts.removed_device_not_kept Scenario.append_properties).
  intros dinfo [Heq|[]]. discriminate Heq.
Defined.
